(** * parallel_filereader: a shallow embedding of [src/parallel/reader.cc]

    The class [ParallelFileReader] reads one file with [num_threads] workers,
    each worker owning one byte range of the file and writing into its own
    slice of a shared destination buffer.  This development embeds

    - the [size_t] arithmetic of the program (64-bit, wrapping),
    - the partitioning loops of [read()] (zero-fill and read phase),
    - the two bodies of [readChunk] (the O_DIRECT path with aligned reads
      through a scratch buffer, and the regular path),
    - the constructor, [verify()] and [main],

    and proves the properties the specification states about them.

    The operating system is a parameter: a record [os] answers [stat],
    [open], the allocations, the start of every thread and every
    [lseek]/[read] pair.  The workers are
    composed one after the other, by partition: a worker only writes the
    shared buffer, and the answers of the operating system to one worker do
    not depend on the others.  Undefined behaviour of one worker is
    undefined behaviour of [read()]; otherwise [read()] waits for ever when
    one worker never ends.  Neither the buffer ([read_phase_any_order]) nor
    the way [read()] ends ([read_threads_ending_any_order]) depends on the
    order of composition.  The threads of a phase are all started before
    any of them is followed.  The [new] of [verify()] is taken to succeed;
    what is written to [std::cout] is not followed, except for the division
    in the completion line of a worker. *)

From Stdlib Require Import String Ascii Strings.Byte ZArith List Lia Bool Permutation.
Import ListNotations.
Local Open Scope Z_scope.

(** ** [size_t] and [ssize_t] *)

Module SizeT.

Definition modulus : Z := 18446744073709551616.  (* 2^64 *)
Definition half : Z := 9223372036854775808.      (* 2^63 *)

Definition wrap (z : Z) : Z := z mod modulus.

Definition add (a b : Z) : Z := wrap (a + b).
Definition sub (a b : Z) : Z := wrap (a - b).
Definition mul (a b : Z) : Z := wrap (a * b).

(** [static_cast<ssize_t>(x)] and [static_cast<std::streamsize>(x)] of a
    [size_t]. *)
Definition to_signed (z : Z) : Z := if z <? half then z else z - modulus.

(** [static_cast<size_t>(x)] of a signed 64-bit value. *)
Definition of_signed (z : Z) : Z := wrap z.

Definition in_range (z : Z) : Prop := 0 <= z < modulus.

End SizeT.

Import SizeT.

(** ** Bytes and buffers *)

Definition zlen {A} (l : list A) : Z := Z.of_nat (length l).

(** The [n] bytes of [l] that start at index [off]. *)
Definition slice {A} (off n : Z) (l : list A) : list A :=
  firstn (Z.to_nat n) (skipn (Z.to_nat off) l).

(** [l] with the bytes at [off, off + length data) replaced by [data]:
    what [memcpy(l + off, data, n)], [memset] and a [read] into [l + off]
    leave in [l] when the range is inside [l]. *)
Definition splice {A} (l : list A) (off : Z) (data : list A) : list A :=
  firstn (Z.to_nat off) l ++ data ++ skipn (Z.to_nat off + length data) l.

Definition zeros (n : Z) : list byte := repeat x00 (Z.to_nat n).

(** Uninitialised storage of [n] bytes: whatever the allocator left there. *)
Definition uninit (heap : nat -> byte) (n : Z) : list byte :=
  map heap (seq 0 (Z.to_nat n)).

(** ** The reader object *)

Record reader := mkReader {
  filename : string;
  file_size : Z;
  buffer : option (list byte);   (* [None] is [nullptr] *)
  num_threads : Z;
  read_chunk_size : Z;
  block_size : Z;
  use_odirect : bool
}.

Definition set_buffer (r : reader) (b : option (list byte)) : reader :=
  mkReader (filename r) (file_size r) b (num_threads r)
           (read_chunk_size r) (block_size r) (use_odirect r).

(** ** Partitioning ([read()], lines 203-226 and 252-272) *)

(** One spawned thread: [(i, current_offset, current_chunk_size)]. *)
Definition partition : Type := Z * Z * Z.

Definition part_id (p : partition) : Z := fst (fst p).
Definition part_start (p : partition) : Z := snd (fst p).
Definition part_len (p : partition) : Z := snd p.

(** The body of [for (size_t i = 0; i < num_threads; ++i)]: [todo] counts
    the iterations that are left, [i] and [current_offset] are the loop
    variables. *)
Fixpoint spawn_loop (nthreads chunk_size remainder : Z)
         (todo : nat) (i current_offset : Z) : list partition :=
  match todo with
  | O => []
  | S todo' =>
      let current_chunk_size :=
        if i =? sub nthreads 1 then add chunk_size remainder else chunk_size in
      (i, current_offset, current_chunk_size)
        :: spawn_loop nthreads chunk_size remainder todo'
             (add i 1) (add current_offset current_chunk_size)
  end.

(** [file_size / num_threads] and [file_size % num_threads] are undefined
    for [num_threads = 0]: [None]. *)
Definition partitions (fsize nthreads : Z) : option (list partition) :=
  if nthreads =? 0 then None
  else
    let chunk_size := fsize / nthreads in
    let remainder := fsize mod nthreads in
    Some (spawn_loop nthreads chunk_size remainder (Z.to_nat nthreads) 0 0).

(** The partitioning as the specification words it: [num_threads]
    partitions, all of length [base] but the last, which gets the remainder;
    offsets are the cumulative sums. *)
Definition spec_partition (fsize nthreads : Z) (k : nat) : partition :=
  let base := fsize / nthreads in
  (Z.of_nat k, Z.of_nat k * base,
   if Z.of_nat k =? nthreads - 1 then base + fsize mod nthreads else base).

Definition spec_partitions (fsize nthreads : Z) : list partition :=
  map (spec_partition fsize nthreads) (seq 0 (Z.to_nat nthreads)).

Definition sum_lengths (ps : list partition) : Z :=
  fold_right (fun p acc => part_len p + acc) 0 ps.

(** Contiguity: every partition starts where the previous one ends. *)
Fixpoint contiguous_from (off : Z) (ps : list partition) : Prop :=
  match ps with
  | [] => True
  | p :: ps' => part_start p = off /\ 0 <= part_len p
                /\ contiguous_from (off + part_len p) ps'
  end.

(** Two byte ranges share no byte. *)
Definition disjoint (p q : partition) : Prop :=
  part_start p + part_len p <= part_start q
  \/ part_start q + part_len q <= part_start p.

(** ** The operating system *)

(** The answer to one [lseek(fd, off, SEEK_SET)] followed by one
    [::read(fd, dst, count)]. *)
Inductive io_result :=
| SeekError                      (* lseek returned -1 *)
| ReadError                      (* read returned -1 *)
| ReadBytes (data : list byte).  (* read returned [length data], stored [data] *)

Record os := mkOs {
  (* [stat]: [st_size] when it returns 0, [None] otherwise *)
  os_stat : string -> option Z;
  (* contents of the fresh destination buffer *)
  os_heap : nat -> byte;
  (* [posix_memalign] of the destination buffer fails *)
  os_alloc_fails : bool;
  (* per thread: [open] returns -1 *)
  os_open_fails : Z -> bool;
  (* per thread: [posix_memalign] of the scratch buffer fails *)
  os_temp_alloc_fails : Z -> bool;
  (* per thread: contents of the fresh scratch buffer *)
  os_temp_heap : Z -> nat -> byte;
  (* per thread, per loop iteration: answer to lseek(off); read(count) *)
  os_pread : Z -> nat -> Z -> Z -> io_result;
  (* [std::ifstream]: the bytes of the file, [None] when it does not open *)
  os_ifstream : string -> option (list byte);
  (* per zero-fill thread: its [std::thread] cannot be started *)
  os_memset_thread_fails : Z -> bool;
  (* per read thread: its [std::thread] cannot be started *)
  os_thread_fails : Z -> bool
}.

(** What the program writes on [std::cerr] inside [readChunk]. *)
Inductive message :=
| MsgOpenFailed
| MsgTempAllocFailed
| MsgSeekError (off : Z)
| MsgReadError (off : Z)
| MsgShortRead (off : Z).

(** What a worker does that others can observe. *)
Inductive event :=
| EvLseek (off : Z)          (* lseek(fd, off, SEEK_SET) *)
| EvRead (count : Z)         (* ::read(fd, _, count) *)
| EvStore (off len : Z)      (* [len] bytes stored at [buffer + off] *)
| EvCerr (m : message).

(** ** [readChunk] *)

(** The [break] that left the loop. *)
Inductive stop_reason :=
| SeekFailed       (* lines 74-78 and 114-118 *)
| ReadFailed       (* lines 83-87 and 123-127 *)
| ShortRead        (* lines 97-99 and 133-137 *)
| EndOfFile.       (* lines 140-142 *)

Inductive exit :=
| Completed                   (* the loop condition became false *)
| Stopped (why : stop_reason) (* a [break] *)
| OpenFailed                  (* line 40 *)
| TempAllocFailed             (* line 53 *)
| Crashed                     (* undefined behaviour *)
| Timeout.                    (* the model ran out of fuel *)

(** The variables of one loop of [readChunk]. *)
Record chunk_state := mkChunk {
  cs_done : Z;               (* bytes_processed, bytes_read *)
  cs_offset : Z;             (* current_offset *)
  cs_buffer : list byte;     (* the destination buffer *)
  cs_temp : list byte;       (* temp_buffer *)
  cs_calls : nat;            (* iterations so far *)
  cs_trace : list event
}.

Inductive step_result :=
| Next (s : chunk_state)
| Break (why : stop_reason) (s : chunk_state)
| Crash.

Definition log (s : chunk_state) (evs : list event) : chunk_state :=
  mkChunk (cs_done s) (cs_offset s) (cs_buffer s) (cs_temp s)
          (S (cs_calls s)) (cs_trace s ++ evs).

Section ReadChunk.

Variable pread : nat -> Z -> Z -> io_result.
Variables block_size0 read_chunk_size0 : Z.
Variable section_size : Z.

(** Lines 65-71. *)
Definition aligned_offset_of (current_offset : Z) : Z :=
  mul (current_offset / block_size0) block_size0.

Definition bytes_to_read_of (offset_in_block remaining_in_section : Z) : Z :=
  let bytes_to_read :=
    Z.min read_chunk_size0 (add remaining_in_section offset_in_block) in
  mul (sub (add bytes_to_read block_size0) 1 / block_size0) block_size0.

(** Line 90. *)
Definition bytes_to_copy_of
           (actually_read offset_in_block remaining_in_section : Z) : Z :=
  Z.min (sub (of_signed actually_read) offset_in_block) remaining_in_section.

(** One iteration of the O_DIRECT loop, lines 64-99. *)
Definition aligned_step (s : chunk_state) : step_result :=
  if block_size0 =? 0 then Crash else
  let current_offset := cs_offset s in
  let aligned_offset := aligned_offset_of current_offset in
  let offset_in_block := sub current_offset aligned_offset in
  let remaining_in_section := sub section_size (cs_done s) in
  let bytes_to_read := bytes_to_read_of offset_in_block remaining_in_section in
  match pread (cs_calls s) aligned_offset bytes_to_read with
  | SeekError =>
      Break SeekFailed
            (log s [EvLseek aligned_offset; EvCerr (MsgSeekError aligned_offset)])
  | ReadError =>
      Break ReadFailed
            (log s [EvLseek aligned_offset; EvRead bytes_to_read;
                    EvCerr (MsgReadError aligned_offset)])
  | ReadBytes data =>
      let actually_read := zlen data in
      if zlen (cs_temp s) <? actually_read then Crash else
      let temp := splice (cs_temp s) 0 data in
      let bytes_to_copy :=
        bytes_to_copy_of actually_read offset_in_block remaining_in_section in
      if (zlen temp <? offset_in_block + bytes_to_copy)
         || (zlen (cs_buffer s) <? current_offset + bytes_to_copy)
      then Crash else
      let s' :=
        mkChunk (add (cs_done s) bytes_to_copy)
                (add current_offset bytes_to_copy)
                (splice (cs_buffer s) current_offset
                        (slice offset_in_block bytes_to_copy temp))
                temp
                (S (cs_calls s))
                (cs_trace s ++ [EvLseek aligned_offset; EvRead bytes_to_read;
                                EvStore current_offset bytes_to_copy]) in
      if actually_read <? to_signed bytes_to_read
      then Break ShortRead s' else Next s'
  end.

(** [while (bytes_processed < section_size)], lines 63-100. *)
Fixpoint aligned_loop (fuel : nat) (s : chunk_state) : exit * chunk_state :=
  if cs_done s <? section_size then
    match fuel with
    | O => (Timeout, s)
    | S fuel' =>
        match aligned_step s with
        | Next s' => aligned_loop fuel' s'
        | Break why s' => (Stopped why, s')
        | Crash => (Crashed, s)
        end
    end
  else (Completed, s).

(** One iteration of the regular loop, lines 111-142. *)
Definition buffered_step (s : chunk_state) : step_result :=
  let current_offset := cs_offset s in
  let bytes_to_read :=
    Z.min read_chunk_size0 (sub section_size (cs_done s)) in
  match pread (cs_calls s) current_offset bytes_to_read with
  | SeekError =>
      Break SeekFailed
            (log s [EvLseek current_offset; EvCerr (MsgSeekError current_offset)])
  | ReadError =>
      Break ReadFailed
            (log s [EvLseek current_offset; EvRead bytes_to_read;
                    EvCerr (MsgReadError current_offset)])
  | ReadBytes data =>
      let actually_read := zlen data in
      if zlen (cs_buffer s) <? current_offset + actually_read then Crash else
      let current_offset' := add current_offset (of_signed actually_read) in
      let s' :=
        mkChunk (add (cs_done s) (of_signed actually_read))
                current_offset'
                (splice (cs_buffer s) current_offset data)
                (cs_temp s)
                (S (cs_calls s))
                (cs_trace s ++ [EvLseek current_offset; EvRead bytes_to_read;
                                EvStore current_offset actually_read]) in
      if (actually_read <? to_signed bytes_to_read) && (actually_read >? 0)
      then Break ShortRead
                 (mkChunk (cs_done s') (cs_offset s') (cs_buffer s')
                          (cs_temp s') (cs_calls s')
                          (cs_trace s' ++ [EvCerr (MsgShortRead current_offset')]))
      else if actually_read =? 0 then Break EndOfFile s'
      else Next s'
  end.

(** [while (bytes_read < section_size)], lines 110-143. *)
Fixpoint buffered_loop (fuel : nat) (s : chunk_state) : exit * chunk_state :=
  if cs_done s <? section_size then
    match fuel with
    | O => (Timeout, s)
    | S fuel' =>
        match buffered_step s with
        | Next s' => buffered_loop fuel' s'
        | Break why s' => (Stopped why, s')
        | Crash => (Crashed, s)
        end
    end
  else (Completed, s).

End ReadChunk.

(** What one worker leaves behind: its exit, [bytes_completed], what it did
    and the destination buffer after it. *)
Record worker := mkWorker {
  w_id : Z;
  w_exit : exit;
  w_completed : Z;
  w_trace : list event;
  w_buffer : list byte
}.

(** The chunk count that the completion line prints, lines 153-155:
    [(bytes_completed + read_chunk_size - 1) / read_chunk_size]; the
    division is undefined for [read_chunk_size = 0]. *)
Definition chunks_printed (r : reader) (bytes_completed : Z) : option Z :=
  if read_chunk_size r =? 0 then None
  else Some (sub (add bytes_completed (read_chunk_size r)) 1
             / read_chunk_size r).

(** The completion line, lines 150-155, which a worker reaches when it has
    left its loop: how the worker ends, [e] being how the loop ended. *)
Definition completion_line (r : reader) (bytes_completed : Z) (e : exit)
  : exit :=
  match e with
  | Completed | Stopped _ =>
      match chunks_printed r bytes_completed with
      | Some _ => e
      | None => Crashed
      end
  | _ => e
  end.

(** [readChunk(thread_id, section_start, section_size)], lines 30-156.  The
    two early returns (lines 37-41 and 50-54) do not reach the completion
    line. *)
Definition readChunk (o : os) (r : reader) (fuel : nat) (buf : list byte)
           (thread_id section_start section_size : Z) : worker :=
  if os_open_fails o thread_id then
    mkWorker thread_id OpenFailed 0 [EvCerr MsgOpenFailed] buf
  else if use_odirect r then
    if os_temp_alloc_fails o thread_id then
      mkWorker thread_id TempAllocFailed 0 [EvCerr MsgTempAllocFailed] buf
    else
      let temp_buffer := uninit (os_temp_heap o thread_id) (read_chunk_size r) in
      let '(e, s) :=
        aligned_loop (os_pread o thread_id) (block_size r) (read_chunk_size r)
                     section_size fuel
                     (mkChunk 0 section_start buf temp_buffer O []) in
      mkWorker thread_id (completion_line r (cs_done s) e)
               (cs_done s) (cs_trace s) (cs_buffer s)
  else
    let '(e, s) :=
      buffered_loop (os_pread o thread_id) (read_chunk_size r)
                    section_size fuel
                    (mkChunk 0 section_start buf [] O []) in
    mkWorker thread_id (completion_line r (cs_done s) e)
             (cs_done s) (cs_trace s) (cs_buffer s).

(** ** The engine: constructor, [read()], [verify()] *)

(** How a call ends. *)
Inductive run (A : Type) :=
| Returned (a : A)
| Thrown (what : string)      (* a [std::runtime_error] leaves the call *)
| Undefined                   (* undefined behaviour *)
| Diverged                    (* the model ran out of fuel *)
| Aborted.                    (* [std::terminate] ends the process *)

Arguments Returned {A} a.
Arguments Thrown {A} what.
Arguments Undefined {A}.
Arguments Diverged {A}.
Arguments Aborted {A}.

Definition bind {A B} (m : run A) (k : A -> run B) : run B :=
  match m with
  | Returned a => k a
  | Thrown w => Thrown w
  | Undefined => Undefined
  | Diverged => Diverged
  | Aborted => Aborted
  end.

Notation "x <- m ;; k" := (bind m (fun x => k))
  (at level 61, m at next level, right associativity).

(** [getFileSize(filename)], lines 23-27. *)
Definition getFileSize (o : os) (fname : string) : Z :=
  match os_stat o fname with
  | Some st_size => of_signed st_size
  | None => 0
  end.

(** The constructor, lines 159-172. *)
Definition ParallelFileReader (o : os) (fname : string) (threads chunk_size : Z)
           (odirect : bool) : run reader :=
  let block_size := 4096 in
  let read_chunk_size :=
    if odirect && negb (chunk_size mod block_size =? 0)
    then mul (sub (add chunk_size block_size) 1 / block_size) block_size
    else chunk_size in
  let file_size := getFileSize o fname in
  if file_size =? 0
  then Thrown ("File not found or empty: " ++ fname)
  else Returned (mkReader fname file_size None threads read_chunk_size
                          block_size odirect).

(** [std::memset(buffer + off, 0, len)]. *)
Definition memset_zero (buf : list byte) (off len : Z) : run (list byte) :=
  if zlen buf <? off + len then Undefined
  else Returned (splice buf off (zeros len)).

(** The zero-fill threads of lines 209-231, joined in spawn order. *)
Fixpoint memset_threads (ps : list partition) (buf : list byte)
  : run (list byte) :=
  match ps with
  | [] => Returned buf
  | p :: ps' =>
      buf' <- memset_zero buf (part_start p) (part_len p) ;;
      memset_threads ps' buf'
  end.

(** The read threads of lines 260-277, once they are started, with the
    workers listed by partition.  Undefined
    behaviour of any worker is undefined behaviour of the call; otherwise
    [join] waits for ever when some worker never ends. *)
Fixpoint read_threads (o : os) (r : reader) (fuel : nat)
         (ps : list partition) (buf : list byte)
  : run (list worker * list byte) :=
  match ps with
  | [] => Returned ([], buf)
  | p :: ps' =>
      let w := readChunk o r fuel buf (part_id p) (part_start p) (part_len p) in
      match w_exit w with
      | Crashed => Undefined
      | Timeout =>
          match read_threads o r fuel ps' (w_buffer w) with
          | Undefined => Undefined
          | _ => Diverged
          end
      | _ =>
          rest <- read_threads o r fuel ps' (w_buffer w) ;;
          Returned (w :: fst rest, snd rest)
      end
  end.

(** Lines 189-195: [posix_memalign] in O_DIRECT mode, whose failure the
    code turns into a [std::runtime_error], otherwise [new char[file_size]],
    which throws [std::bad_alloc]. *)
Definition allocate (o : os) (r : reader) : run (list byte) :=
  if os_alloc_fails o
  then Thrown (if use_odirect r then "Failed to allocate aligned buffer"
               else "std::bad_alloc")
  else Returned (uninit (os_heap o) (file_size r)).

(** Lines 200-231: the buffer when the zero-fill threads are joined. *)
Definition zero_fill (r : reader) (buf : list byte) : run (list byte) :=
  match partitions (file_size r) (num_threads r) with
  | None => Undefined
  | Some ps => memset_threads ps buf
  end.

(** Lines 251-277: the workers and the buffer when they are joined. *)
Definition read_phase (o : os) (r : reader) (fuel : nat) (buf : list byte)
  : run (list worker * list byte) :=
  match partitions (file_size r) (num_threads r) with
  | None => Undefined
  | Some ps => read_threads o r fuel ps buf
  end.

(** The [emplace_back] calls of one loop (lines 217 and 268) start the
    [n] threads of a phase one after the other.  When the [std::thread]
    constructor of one throws [std::system_error], nothing in [read()]
    catches it, and the vector of the threads started before is destroyed
    on the way out: with none started the exception leaves [read()], with a
    joinable thread in the vector [std::terminate] is called. *)
Definition start_threads (fails : Z -> bool) (n : Z) : run unit :=
  match find (fun i => fails (Z.of_nat i)) (seq 0 (Z.to_nat n)) with
  | None => Returned tt
  | Some O => Thrown "std::system_error"
  | Some (S _) => Aborted
  end.

(** [read()], lines 185-285. *)
Definition read (o : os) (r : reader) (fuel : nat)
  : run (reader * list worker) :=
  fresh <- allocate o r ;;
  started <- start_threads (os_memset_thread_fails o) (num_threads r) ;;
  zeroed <- zero_fill r fresh ;;
  started' <- start_threads (os_thread_fails o) (num_threads r) ;;
  res <- read_phase o r fuel zeroed ;;
  Returned (set_buffer r (Some (snd res)), fst res).

(** [read()] when every thread of both phases is started. *)
Definition read_phases (o : os) (r : reader) (fuel : nat)
  : run (reader * list worker) :=
  fresh <- allocate o r ;;
  zeroed <- zero_fill r fresh ;;
  res <- read_phase o r fuel zeroed ;;
  Returned (set_buffer r (Some (snd res)), fst res).

(** [std::memcmp(a, b, n) == 0]. *)
Definition bytes_eqb (a b : list byte) : bool :=
  if list_eq_dec Byte.byte_eq_dec a b then true else false.

Definition memcmp_eq (a b : list byte) (n : Z) : bool :=
  bytes_eqb (firstn (Z.to_nat n) a) (firstn (Z.to_nat n) b).

(** [verify()], lines 297-322.  [verify_heap] is what [new char[file_size]]
    holds before [file.read] fills its front. *)
Definition verify (o : os) (verify_heap : nat -> byte) (r : reader) : run bool :=
  match os_ifstream o (filename r) with
  | None => Returned false
  | Some contents =>
      (* file.read(verify_buffer, file_size): the count is a streamsize *)
      let got := firstn (Z.to_nat (to_signed (file_size r))) contents in
      let verify_buffer :=
        splice (uninit verify_heap (file_size r)) 0 got in
      let success := zlen got =? to_signed (file_size r) in
      if success then
        match buffer r with
        | None => Undefined            (* memcmp on nullptr *)
        | Some buf =>
            if zlen buf <? file_size r then Undefined
            else Returned (memcmp_eq buf verify_buffer (file_size r))
        end
      else Returned false
  end.

(** ** [main], lines 325-385 *)

Section Main.

(** [std::stoul]: [None] when it throws. *)
Variable stoul : string -> option Z.
(** [std::thread::hardware_concurrency()]. *)
Variable hardware_concurrency : Z.

Inductive parsed :=
| Usage                       (* argc < 2: print the usage, return 1 *)
| BadNumber                   (* std::stoul threw *)
| Parsed (fname : string) (threads chunk : Z) (odirect : bool).

(** Lines 327-354: [argv] with [argv[0]] first. *)
Definition parse_args (argv : list string) : parsed :=
  match argv with
  | [] | [_] => Usage
  | _ :: fname :: rest =>
      let threads :=
        match nth_error rest 0 with
        | Some a => stoul a
        | None => Some hardware_concurrency
        end in
      let chunk :=
        match nth_error rest 1 with
        | Some a => option_map (fun v => mul v 1024) (stoul a)
        | None => Some (1024 * 1024)
        end in
      let odirect :=
        match nth_error rest 2 with
        | Some a => option_map (fun v => negb (v =? 0)) (stoul a)
        | None => Some false
        end in
      match threads, chunk, odirect with
      | Some t, Some c, Some d => Parsed fname t c d
      | _, _, _ => BadNumber
      end
  end.

(** Lines 356-364: the arguments [main] gives to the constructor. *)
Definition coerce_threads (threads : Z) : Z :=
  if threads =? 0 then 1 else threads.

Definition coerce_chunk (chunk : Z) : Z :=
  if chunk =? 0 then 1024 * 1024 else chunk.

(** What [main] leaves: the exit code, the reader it built, if any, and
    the answer of [verify()]. *)
Record process := mkProcess {
  exit_code : Z;
  final_reader : option reader;
  verified : option bool
}.

Definition main (o : os) (verify_heap : nat -> byte) (fuel : nat)
           (argv : list string) : run process :=
  match parse_args argv with
  | Usage => Returned (mkProcess 1 None None)          (* line 339 *)
  | BadNumber => Returned (mkProcess 1 None None)      (* lines 379-382 *)
  | Parsed fname threads chunk odirect =>
      match ParallelFileReader o fname (coerce_threads threads)
                               (coerce_chunk chunk) odirect with
      | Thrown _ => Returned (mkProcess 1 None None)   (* lines 379-382 *)
      | Undefined => Undefined
      | Diverged => Diverged
      | Aborted => Aborted
      | Returned r =>
          match read o r fuel with
          | Thrown _ => Returned (mkProcess 1 (Some r) None)
          | Undefined => Undefined
          | Diverged => Diverged
          | Aborted => Aborted
          | Returned (r', _) =>
              match verify o verify_heap r' with
              | Returned ok => Returned (mkProcess 0 (Some r') (Some ok))
              | Thrown _ => Returned (mkProcess 1 (Some r') None)
              | Undefined => Undefined
              | Diverged => Diverged
              | Aborted => Aborted
              end
          end
      end
  end.

End Main.

(** ** A well-behaved operating system

    The file holds [contents] for the whole run; nothing fails ([stat],
    allocations, [open], the start of a thread); every read delivers all
    the bytes asked for that the file has, however many. *)
Definition ideal_pread (contents : list byte) (off count : Z) : io_result :=
  ReadBytes (slice off count contents).

Definition ideal_os (fname : string) (contents : list byte)
           (heap : nat -> byte) (temp_heap : Z -> nat -> byte) : os :=
  mkOs (fun f => if String.eqb f fname then Some (zlen contents) else None)
       heap false (fun _ => false) (fun _ => false) temp_heap
       (fun _ _ => ideal_pread contents)
       (fun f => if String.eqb f fname then Some contents else None)
       (fun _ => false) (fun _ => false).

(** ** Properties of traces *)

(** Every [lseek] goes to a multiple of [bs] and every [read] asks for a
    multiple of [bs]. *)
Definition block_aligned (bs : Z) (ev : event) : Prop :=
  match ev with
  | EvLseek off => (bs | off)
  | EvRead count => (bs | count)
  | _ => True
  end.

(** No [read] asks for more than [limit] bytes. *)
Definition read_within (limit : Z) (ev : event) : Prop :=
  match ev with
  | EvRead count => 0 <= count <= limit
  | _ => True
  end.

(** The event does not store into byte [i] of the destination buffer. *)
Definition leaves_byte (i : Z) (ev : event) : Prop :=
  match ev with
  | EvStore off len => ~ (off <= i < off + len)
  | _ => True
  end.

Definition is_report (ev : event) : bool :=
  match ev with
  | EvCerr _ => true
  | _ => false
  end.

(** The terminal conditions of the regular loop as the specification lists
    them, for one answer of the operating system to a request of
    [requested] bytes: [None] when the loop goes on. *)
Definition spec_terminal (requested : Z) (a : io_result) : option stop_reason :=
  match a with
  | SeekError => Some SeekFailed
  | ReadError => Some ReadFailed
  | ReadBytes data =>
      if zlen data =? 0 then Some EndOfFile
      else if zlen data <? requested then Some ShortRead
      else None
  end.

(** ** Invariants of the loops of [readChunk] *)

(** Alignment: the offset is a [size_t] and what was logged so far is
    block-aligned. *)
Definition aligned_inv (bs : Z) (s : chunk_state) : Prop :=
  in_range (cs_offset s) /\ Forall (block_aligned bs) (cs_trace s).

(** Frame: the destination buffer keeps its length, and differs from
    [buf0] only at bytes that a logged store covers. *)
Definition frame_inv (buf0 : list byte) (s : chunk_state) : Prop :=
  0 <= cs_offset s
  /\ zlen (cs_buffer s) = zlen buf0
  /\ forall i : nat,
      Forall (leaves_byte (Z.of_nat i)) (cs_trace s) ->
      nth_error (cs_buffer s) i = nth_error buf0 i.

(** Progress on a file that does not change: the first [p] bytes of the
    section [start, start + size) are in place; the rest of the buffer is
    as it was in [buf0]. *)
Definition ideal_inv (contents : list byte) (start size : Z)
           (buf0 : list byte) (p : Z) (s : chunk_state) : Prop :=
  cs_done s = p
  /\ 0 <= p <= size
  /\ cs_offset s = start + p
  /\ cs_buffer s = splice buf0 start (slice start p contents).

(** A configuration with which the loops make progress: a positive chunk
    size which, in O_DIRECT mode, is a multiple of a positive block size
    (and leaves room for the rounding of line 71). *)
Definition chunk_config_ok (r : reader) : Prop :=
  0 < read_chunk_size r
  /\ (use_odirect r = true ->
      0 < block_size r
      /\ (block_size r | read_chunk_size r)
      /\ read_chunk_size r + block_size r <= modulus).

(** ** Coverage of the file by sections *)

(** Byte [i] belongs to the section of [p]. *)
Definition in_part (p : partition) (i : Z) : bool :=
  (part_start p <=? i) && (i <? part_start p + part_len p).

(** Byte [i] belongs to the section of one of [ps]. *)
Definition covers (ps : list partition) (i : Z) : bool :=
  existsb (fun p => in_part p i) ps.

(** The section of [p] is a range of a file of [fsize] bytes. *)
Definition in_file (fsize : Z) (p : partition) : Prop :=
  0 <= part_start p /\ 0 <= part_len p /\ part_start p + part_len p <= fsize.

(** ** A sample run

    An eleven-byte file, an operating system that serves it faithfully, and
    a [std::stoul] that knows a few numerals. *)
Definition sample_file : list byte :=
  [x01; x02; x03; x04; x05; x06; x07; x08; x09; x0a; x0b].

Definition sample_os : os :=
  ideal_os "f" sample_file (fun _ => xff) (fun _ _ => xee).

Definition sample_stoul (s : string) : option Z :=
  if String.eqb s "0" then Some 0
  else if String.eqb s "1" then Some 1
  else if String.eqb s "3" then Some 3
  else None.

Definition sample_argv : list string :=
  ["reader"%string; "f"%string; "0"%string; "1"%string].

(** What a [break] of the regular loop leaves, from the state [s] before
    the iteration to the state [s'] after it: the bytes counted and what
    was logged.  [a] is the answer of the operating system to the request
    of [requested] bytes. *)
Definition stop_effect (why : stop_reason) (requested : Z) (a : io_result)
           (s s' : chunk_state) : Prop :=
  let off := cs_offset s in
  match why with
  | SeekFailed =>
      a = SeekError
      /\ cs_done s' = cs_done s
      /\ cs_trace s' = cs_trace s ++ [EvLseek off; EvCerr (MsgSeekError off)]
  | ReadFailed =>
      a = ReadError
      /\ cs_done s' = cs_done s
      /\ cs_trace s' = cs_trace s ++ [EvLseek off; EvRead requested;
                                      EvCerr (MsgReadError off)]
  | EndOfFile =>
      a = ReadBytes []
      /\ cs_done s' = cs_done s
      /\ cs_trace s' = cs_trace s ++ [EvLseek off; EvRead requested;
                                      EvStore off 0]
  | ShortRead =>
      exists data,
        a = ReadBytes data
        /\ 0 < zlen data < requested
        /\ cs_done s' = cs_done s + zlen data
        /\ cs_buffer s' = splice (cs_buffer s) off data
        /\ cs_trace s' = cs_trace s ++ [EvLseek off; EvRead requested;
                                        EvStore off (zlen data);
                                        EvCerr (MsgShortRead (add off (zlen data)))]
  end.

(** ** A short read in O_DIRECT mode

    Thread 1 reads the ten bytes at 4100 of a file of 8200 bytes; its
    [read] of 4096 bytes at offset 4096 delivers two bytes. *)
Definition short_os : os :=
  mkOs (fun _ => Some 8200) (fun _ => xff) false (fun _ => false)
       (fun _ => false) (fun _ _ => xee)
       (fun _ _ _ _ => ReadBytes [x01; x02])
       (fun _ => None) (fun _ => false) (fun _ => false).

Definition short_reader : reader :=
  mkReader "f" 8200 None 2 4096 4096 true.

(** ** A file cut short after [stat]

    The reader was built when the file had nine bytes; when the workers
    read, it has five. *)
Definition truncated_file : list byte := [x01; x02; x03; x04; x05].

Definition truncated_os : os :=
  ideal_os "f" truncated_file (fun _ => xff) (fun _ _ => xee).

(** The sample file again, with three workers of which the second cannot
    open it. *)
Definition flaky_os : os :=
  mkOs (fun _ => Some 11) (fun _ => xff) false (fun tid => tid =? 1)
       (fun _ => false) (fun _ _ => xee)
       (fun _ _ => ideal_pread sample_file)
       (fun _ => Some sample_file) (fun _ => false) (fun _ => false).

Definition sample_reader : reader :=
  mkReader "f" 11 None 3 4 4096 false.

(** ** Where a worker stores, and how far it gets *)

(** The store lies inside the section [start, start + size). *)
Definition store_within (start size : Z) (ev : event) : Prop :=
  match ev with
  | EvStore off len => start <= off /\ 0 <= len /\ off + len <= start + size
  | _ => True
  end.

(** No [read] delivers more bytes than it was asked for. *)
Definition pread_sane (pread : nat -> Z -> Z -> io_result) : Prop :=
  forall k off count data,
    0 <= count -> pread k off count = ReadBytes data -> zlen data <= count.

(** The loop counts what it stored, advances by it, and has stored inside
    its section only. *)
Definition section_inv (start size : Z) (s : chunk_state) : Prop :=
  0 <= cs_done s <= size
  /\ cs_offset s = start + cs_done s
  /\ Forall (store_within start size) (cs_trace s).

(** The worker that [read()] spawns for the partition [p], on some state
    of the shared buffer. *)
Definition worker_of (o : os) (r : reader) (fuel : nat)
           (p : partition) (w : worker) : Prop :=
  exists buf,
    w = readChunk o r fuel buf (part_id p) (part_start p) (part_len p).

(** The O_DIRECT loop between two iterations: the counter is inside the
    section, the offset follows it, the scratch buffer has its size. *)
Definition direct_progress_inv (start size rcs : Z) (s : chunk_state) : Prop :=
  0 <= cs_done s <= size
  /\ cs_offset s = start + cs_done s
  /\ zlen (cs_temp s) = rcs.

(** The regular loop between two iterations. *)
Definition buffered_progress_inv (len : Z) (s : chunk_state) : Prop :=
  0 <= cs_done s
  /\ 0 <= cs_offset s
  /\ zlen (cs_buffer s) = len.

(** The O_DIRECT loop with a chunk size of 0, on a section that starts on
    a block boundary: nothing moves. *)
Definition stuck_inv (start : Z) (buf : list byte) (s : chunk_state) : Prop :=
  cs_done s = 0 /\ cs_offset s = start /\ cs_buffer s = buf /\ cs_temp s = [].

(** A [read] of 0 bytes succeeds and delivers nothing. *)
Definition empty_reads_succeed (pread : nat -> Z -> Z -> io_result) : Prop :=
  forall k off, pread k off 0 = ReadBytes [].

(** ** Reads that may fail or fall short, but do not lie *)

(** What a [read] delivers is what the file holds at the offset, and no
    more than was asked for. *)
Definition pread_faithful (contents : list byte)
           (pread : nat -> Z -> Z -> io_result) : Prop :=
  forall k off count data,
    0 <= count -> pread k off count = ReadBytes data ->
    zlen data <= count /\ data = slice off (zlen data) contents.

(** For each worker, the part of its section that it reports as
    completed. *)
Definition completed_parts (ps : list partition) (ws : list worker)
  : list partition :=
  map (fun pw => (part_id (fst pw), part_start (fst pw), w_completed (snd pw)))
      (combine ps ws).

(** The count of the worker [w] is truthful: the first [bytes_completed]
    bytes of its section [start, start + size) hold the bytes of the file,
    and the rest of the buffer is as it was in [buf]. *)
Definition truthful_worker (contents buf : list byte) (start size : Z)
           (w : worker) : Prop :=
  0 <= w_completed w <= size
  /\ w_buffer w = splice buf start (slice start (w_completed w) contents).

(** Every [read] of every worker delivers all the bytes asked for that the
    file has. *)
Definition reads_are_full (contents : list byte) (o : os) : Prop :=
  forall tid k off count,
    os_pread o tid k off count = ideal_pread contents off count.

(** The O_DIRECT loop on full reads, between two iterations. *)
Definition direct_prefix_inv (contents : list byte) (start size : Z)
           (buf0 : list byte) (rcs : Z) (s : chunk_state) : Prop :=
  ideal_inv contents start size buf0 (cs_done s) s /\ zlen (cs_temp s) = rcs.

(** The sum of the counts that the workers report. *)
Definition sum_completed (ws : list worker) : Z :=
  fold_right (fun w acc => w_completed w + acc) 0 ws.

(** The report of the worker of the partition [p] on a file that does not
    change. *)
Definition full_report (p : partition) (w : worker) : Prop :=
  w_id w = part_id p
  /\ w_completed w = part_len p
  /\ (w_exit w = Completed \/ w_exit w = Stopped ShortRead).

(** The sample file on a system that starts two threads per phase but not
    a third read thread. *)
Definition crowded_os : os :=
  mkOs (fun _ => Some 11) (fun _ => xff) false (fun _ => false)
       (fun _ => false) (fun _ _ => xee)
       (fun _ _ => ideal_pread sample_file)
       (fun _ => Some sample_file)
       (fun _ => false) (fun i => 2 <=? i).

(** The sample reader in O_DIRECT mode. *)
Definition sample_direct_reader : reader :=
  mkReader "f" 11 None 3 4096 4096 true.

(** ** The reads behind the completion line *)

Definition is_read (ev : event) : bool :=
  match ev with
  | EvRead _ => true
  | _ => false
  end.

(** The number of [read] calls in a trace. *)
Definition count_reads (trace : list event) : Z :=
  Z.of_nat (length (filter is_read trace)).

(** The regular loop on full reads, between two iterations: [k] reads so
    far have brought [k] chunks, or the whole section. *)
Definition chunk_count_inv (contents : list byte) (start size : Z)
           (buf0 : list byte) (rcs : Z) (s : chunk_state) : Prop :=
  let k := count_reads (cs_trace s) in
  ideal_inv contents start size buf0 (cs_done s) s
  /\ cs_done s = Z.min (k * rcs) size
  /\ (0 < k -> (k - 1) * rcs < size).

(** The regular loop when no [read] delivers more than asked for: it has
    stored inside its section, and only there has the buffer changed. *)
Definition buffered_safe_inv (start size : Z) (buf0 : list byte)
           (s : chunk_state) : Prop :=
  section_inv start size s /\ frame_inv buf0 s.

(** ** The hex dump of [main], lines 370-377 *)

Definition newline : string := String (ascii_of_nat 10) EmptyString.

(** [printf("%02x ", b)] for an [unsigned char]: two lower-case hex digits
    and a space. *)
Definition hex_digit (d : Z) : ascii :=
  nth (Z.to_nat d) (list_ascii_of_string "0123456789abcdef") "0"%char.

Definition print_hex (b : byte) : string :=
  let v := Z.of_N (Byte.to_N b) in
  String (hex_digit (v / 16)) (String (hex_digit (v mod 16)) " ").

(** The loop of lines 373-376 from index [i] on, over the bytes it has yet
    to print, and the line feed of line 377. *)
Fixpoint dump_from (i : Z) (bs : list byte) : string :=
  match bs with
  | [] => newline
  | b :: bs' =>
      append (print_hex b)
             (append (if (i + 1) mod 16 =? 0 then newline else EmptyString)
                     (dump_from (i + 1) bs'))
  end.

(** What lines 370-377 print for the buffer [buf] of a reader whose
    [getFileSize()] is [fsize]; [None] when [buf[i]] is read outside the
    buffer. *)
Definition hex_dump (buf : list byte) (fsize : Z) : option string :=
  let n := Z.min 64 fsize in
  if zlen buf <? n then None
  else Some (newline ++ "First 64 bytes of buffer (hex):" ++ newline
             ++ dump_from 0 (firstn (Z.to_nat n) buf))%string.

(** Reading a dump back: the value of a hex digit, and the bytes of the
    triples between the line feeds. *)
Definition hex_value (c : ascii) : Z :=
  let fix find (l : list ascii) (k : Z) : Z :=
    match l with
    | [] => 0
    | d :: l' => if Ascii.eqb c d then k else find l' (k + 1)
    end in
  find (list_ascii_of_string "0123456789abcdef") 0.

Definition byte_of_Z (z : Z) : byte :=
  match Byte.of_N (Z.to_N z) with
  | Some b => b
  | None => x00
  end.

Fixpoint undump (s : string) : list byte :=
  match s with
  | EmptyString => []
  | String c1 rest1 =>
      if Ascii.eqb c1 (ascii_of_nat 10) then undump rest1
      else
        match rest1 with
        | String c2 (String _ rest) =>
            byte_of_Z (16 * hex_value c1 + hex_value c2) :: undump rest
        | _ => []
        end
  end.

(** ** How a call ends, and how [read()] ends with its workers *)

Inductive ending :=
| EndsReturning
| EndsThrowing
| EndsUndefined
| NeverEnds
| EndsAborted.

Definition ending_of {A} (m : run A) : ending :=
  match m with
  | Returned _ => EndsReturning
  | Thrown _ => EndsThrowing
  | Undefined => EndsUndefined
  | Diverged => NeverEnds
  | Aborted => EndsAborted
  end.

(** How the worker of partition [p] ends on a destination buffer of [len]
    bytes. *)
Definition exit_of (o : os) (r : reader) (fuel : nat) (len : Z)
           (p : partition) : exit :=
  w_exit (readChunk o r fuel (zeros len) (part_id p) (part_start p)
                    (part_len p)).

Definition is_crashed (e : exit) : bool :=
  match e with Crashed => true | _ => false end.

Definition is_timeout (e : exit) : bool :=
  match e with Timeout => true | _ => false end.

(** How joining workers that end with [exits] ends. *)
Definition joined (exits : list exit) : ending :=
  if existsb is_crashed exits then EndsUndefined
  else if existsb is_timeout exits then NeverEnds
  else EndsReturning.

(** Two states of a loop that differ at most in what the destination
    buffer holds. *)
Definition same_control (s1 s2 : chunk_state) : Prop :=
  cs_done s1 = cs_done s2
  /\ cs_offset s1 = cs_offset s2
  /\ cs_temp s1 = cs_temp s2
  /\ cs_calls s1 = cs_calls s2
  /\ cs_trace s1 = cs_trace s2
  /\ zlen (cs_buffer s1) = zlen (cs_buffer s2).

Definition same_step (a b : step_result) : Prop :=
  match a, b with
  | Next s1, Next s2 => same_control s1 s2
  | Break w1 s1, Break w2 s2 => w1 = w2 /\ same_control s1 s2
  | Crash, Crash => True
  | _, _ => False
  end.

(** * Proofs *)

(** ** The completion line *)

Lemma completion_line_nonzero r bc e :
  read_chunk_size r <> 0 -> completion_line r bc e = e.
Proof.
  intros H. unfold completion_line, chunks_printed.
  replace (read_chunk_size r =? 0) with false
    by (symmetry; apply Z.eqb_neq; exact H).
  destruct e; reflexivity.
Qed.

Lemma completion_line_zero r bc e :
  read_chunk_size r = 0 -> e <> Timeout ->
  e <> OpenFailed -> e <> TempAllocFailed ->
  completion_line r bc e = Crashed.
Proof.
  intros H Ht Ho Ha. unfold completion_line, chunks_printed. rewrite H.
  destruct e; try reflexivity; contradiction.
Qed.

Lemma completion_line_timeout r bc e :
  completion_line r bc e = Timeout <-> e = Timeout.
Proof.
  unfold completion_line.
  destruct e; destruct (chunks_printed r bc); split; intros H;
    try discriminate H; reflexivity.
Qed.


(** ** Arithmetic of [size_t] *)

Lemma wrap_small z : in_range z -> wrap z = z.
Proof. unfold in_range, wrap. intros H. apply Z.mod_small. exact H. Qed.

Lemma wrap_range z : in_range (wrap z).
Proof. unfold in_range, wrap, modulus. apply Z.mod_pos_bound. lia. Qed.

Lemma add_small a b : in_range (a + b) -> add a b = a + b.
Proof. apply wrap_small. Qed.

Lemma sub_small a b : in_range (a - b) -> sub a b = a - b.
Proof. apply wrap_small. Qed.

Lemma mul_small a b : in_range (a * b) -> mul a b = a * b.
Proof. apply wrap_small. Qed.

Lemma sub_add_one x b : sub (add x b) 1 = wrap (x + b - 1).
Proof. unfold sub, add, wrap. apply Zminus_mod_idemp_l. Qed.

(** Rounding down to a multiple of [b] never wraps. *)
Lemma round_down_exact x b :
  0 < b -> in_range x -> mul (x / b) b = x / b * b /\ 0 <= x / b * b <= x.
Proof.
  intros Hb [Hx0 Hx1].
  assert (H : 0 <= x / b * b <= x).
  { pose proof (Z.mul_div_le x b Hb). pose proof (Z.div_pos x b Hx0 Hb). nia. }
  split; [apply mul_small; unfold in_range; lia | exact H].
Qed.

Lemma round_down_divide x b : 0 < b -> in_range x -> (b | mul (x / b) b).
Proof.
  intros Hb Hx. destruct (round_down_exact x b Hb Hx) as [-> _].
  exists (x / b). reflexivity.
Qed.

(** Rounding [x] up to a multiple of [b], when [x + b - 1] fits. *)
Lemma round_up_exact x b :
  0 < b -> 0 <= x -> x + b - 1 < modulus ->
  let y := mul (sub (add x b) 1 / b) b in
  y = (x + b - 1) / b * b /\ x <= y < x + b /\ (b | y).
Proof.
  intros Hb Hx Hfit y. subst y.
  rewrite sub_add_one.
  rewrite wrap_small by (unfold in_range; lia).
  assert (Hr : in_range (x + b - 1)) by (unfold in_range; lia).
  destruct (round_down_exact (x + b - 1) b Hb Hr) as [-> Hle].
  split; [reflexivity|]. split.
  - pose proof (Z.mod_pos_bound (x + b - 1) b Hb).
    pose proof (Z.div_mod (x + b - 1) b). lia.
  - exists ((x + b - 1) / b). reflexivity.
Qed.

Lemma round_up_multiple m b :
  0 < b -> 0 <= m -> (m * b + b - 1) / b * b = m * b.
Proof.
  intros Hb Hm. f_equal.
  replace (m * b + b - 1) with ((b - 1) + m * b) by lia.
  rewrite Z.div_add by lia. rewrite Z.div_small by lia. lia.
Qed.

Lemma round_up_le x m b :
  0 < b -> 0 <= x <= m * b -> (x + b - 1) / b * b <= m * b.
Proof.
  intros Hb Hx.
  assert ((x + b - 1) / b <= m).
  { assert ((x + b - 1) / b <= (m * b + b - 1) / b)
      by (apply Z.div_le_mono; lia).
    replace (m * b + b - 1) with ((b - 1) + m * b) in H by lia.
    rewrite Z.div_add in H by lia. rewrite (Z.div_small (b - 1) b) in H by lia. lia. }
  nia.
Qed.

(** ** Buffers: [slice] and [splice] *)

Section Buffers.

Context {A : Type}.
Implicit Types l data : list A.

Lemma zlen_nonneg l : 0 <= zlen l.
Proof. unfold zlen. lia. Qed.

Lemma zlen_app l1 l2 : zlen (l1 ++ l2) = zlen l1 + zlen l2.
Proof. unfold zlen. rewrite length_app. lia. Qed.

Lemma zlen_slice off n l :
  0 <= off -> 0 <= n -> off + n <= zlen l -> zlen (slice off n l) = n.
Proof.
  unfold zlen, slice. intros Ho Hn Hl.
  rewrite length_firstn, length_skipn. lia.
Qed.

Lemma zlen_slice_le off n l : 0 <= n -> zlen (slice off n l) <= n.
Proof. unfold zlen, slice. intros Hn. rewrite length_firstn. lia. Qed.

Lemma zlen_slice_min off n l :
  0 <= off -> 0 <= n ->
  zlen (slice off n l) = Z.min n (Z.max 0 (zlen l - off)).
Proof.
  unfold zlen, slice. intros Ho Hn.
  rewrite length_firstn, length_skipn. lia.
Qed.

Lemma zlen_splice l off data :
  0 <= off -> off + zlen data <= zlen l -> zlen (splice l off data) = zlen l.
Proof.
  unfold zlen, splice. intros Ho Hl.
  rewrite !length_app, length_firstn, length_skipn. lia.
Qed.

Lemma firstn_plus (n m : nat) l :
  firstn n l ++ firstn m (skipn n l) = firstn (n + m) l.
Proof.
  revert l. induction n as [|n IH]; intros l; [reflexivity|].
  destruct l as [|x l]; simpl.
  - now rewrite firstn_nil.
  - now rewrite IH.
Qed.

Lemma slice_app off n m l :
  0 <= off -> 0 <= n -> 0 <= m ->
  slice off n l ++ slice (off + n) m l = slice off (n + m) l.
Proof.
  intros Ho Hn Hm. unfold slice.
  rewrite !Z2Nat.inj_add by lia.
  rewrite (Nat.add_comm (Z.to_nat off)), <- skipn_skipn.
  apply firstn_plus.
Qed.

Lemma slice_nil off l : slice off 0 l = [].
Proof. reflexivity. Qed.

Lemma slice_all l : slice 0 (zlen l) l = l.
Proof. unfold slice, zlen. rewrite Nat2Z.id. simpl. apply firstn_all. Qed.

(** A slice of a slice is a slice. *)
Lemma slice_slice a c b n l :
  0 <= a -> 0 <= c -> 0 <= b -> a + c <= n ->
  slice a c (slice b n l) = slice (b + a) c l.
Proof.
  intros Ha Hc Hb Hn. unfold slice.
  rewrite skipn_firstn_comm, firstn_firstn, skipn_skipn.
  f_equal; [lia|]. f_equal. lia.
Qed.

(** Reading back from the front of a buffer what was just stored there. *)
Lemma slice_splice_front a c l data :
  0 <= a -> 0 <= c -> a + c <= zlen data ->
  slice a c (splice l 0 data) = slice a c data.
Proof.
  unfold zlen, slice, splice. intros Ha Hc Hl. simpl.
  rewrite skipn_app, firstn_app.
  replace (Z.to_nat a - length data)%nat with O by lia.
  replace (Z.to_nat c - length (skipn (Z.to_nat a) data))%nat with O
    by (rewrite length_skipn; lia).
  simpl. apply app_nil_r.
Qed.

Lemma splice_nil l off : 0 <= off -> splice l off [] = l.
Proof.
  intros Ho. unfold splice. simpl. rewrite Nat.add_0_r. apply firstn_skipn.
Qed.

Lemma firstn_app_exact (n : nat) l1 l2 :
  length l1 = n -> firstn n (l1 ++ l2) = l1.
Proof.
  intros <-. rewrite firstn_app, Nat.sub_diag, firstn_all. simpl.
  apply app_nil_r.
Qed.

Lemma skipn_app_ge (n : nat) l1 l2 :
  (length l1 <= n)%nat -> skipn n (l1 ++ l2) = skipn (n - length l1) l2.
Proof. intros H. rewrite skipn_app, skipn_all2 by lia. reflexivity. Qed.

(** Two stores next to each other are one store. *)
Lemma splice_splice l off d1 d2 :
  0 <= off -> off + zlen d1 <= zlen l ->
  splice (splice l off d1) (off + zlen d1) d2 = splice l off (d1 ++ d2).
Proof.
  unfold zlen, splice. intros Ho Hl.
  set (k := Z.to_nat off).
  assert (Hk : (k + length d1 <= length l)%nat) by lia.
  replace (Z.to_nat (off + Z.of_nat (length d1))) with (k + length d1)%nat by lia.
  assert (Hf : length (firstn k l ++ d1) = (k + length d1)%nat)
    by (rewrite length_app, length_firstn; lia).
  assert (HX : firstn k l ++ d1 ++ skipn (k + length d1) l
               = (firstn k l ++ d1) ++ skipn (k + length d1) l)
    by apply app_assoc.
  rewrite HX.
  rewrite firstn_app_exact by exact Hf.
  rewrite skipn_app_ge by lia.
  rewrite skipn_skipn, Hf, length_app.
  replace (k + length d1 + length d2 - (k + length d1) + (k + length d1))%nat
    with (k + (length d1 + length d2))%nat by lia.
  now rewrite <- !app_assoc.
Qed.

(** Storing the whole buffer replaces it. *)
Lemma splice_whole l data : zlen data = zlen l -> splice l 0 data = data.
Proof.
  unfold zlen, splice. intros Hl. simpl.
  rewrite skipn_all2 by lia. apply app_nil_r.
Qed.

(** A store leaves the bytes outside its range alone. *)
Lemma nth_error_splice_out l off data (i : nat) :
  0 <= off -> off + zlen data <= zlen l ->
  (Z.of_nat i < off \/ off + zlen data <= Z.of_nat i) ->
  nth_error (splice l off data) i = nth_error l i.
Proof.
  unfold zlen, splice. intros Ho Hl Hi.
  set (k := Z.to_nat off).
  assert (Hf : length (firstn k l) = k) by (rewrite length_firstn; lia).
  destruct Hi as [Hi|Hi].
  - rewrite nth_error_app1 by lia.
    rewrite nth_error_firstn.
    destruct (Nat.ltb_spec i k); [reflexivity|lia].
  - rewrite nth_error_app2 by lia.
    rewrite nth_error_app2 by lia.
    rewrite nth_error_skipn. f_equal. lia.
Qed.

End Buffers.

Lemma zlen_zeros n : 0 <= n -> zlen (zeros n) = n.
Proof. unfold zlen, zeros. rewrite repeat_length. lia. Qed.

Lemma zlen_uninit heap n : 0 <= n -> zlen (uninit heap n) = n.
Proof. unfold zlen, uninit. rewrite length_map, length_seq. lia. Qed.

Lemma zeros_app n m : 0 <= n -> 0 <= m -> zeros n ++ zeros m = zeros (n + m).
Proof.
  intros Hn Hm. unfold zeros. rewrite Z2Nat.inj_add by lia.
  symmetry. apply repeat_app.
Qed.

(** ** Partitioning *)

Section Partitioning.

Variables fsize nthreads : Z.
Hypothesis Hfsize : 0 <= fsize < modulus.
Hypothesis Hthreads : 1 <= nthreads < modulus.

Let base := fsize / nthreads.
Let extra := fsize mod nthreads.

Lemma base_bounds : 0 <= base /\ nthreads * base + extra = fsize
                    /\ 0 <= extra < nthreads.
Proof.
  unfold base, extra.
  pose proof (Z.div_mod fsize nthreads ltac:(lia)).
  pose proof (Z.mod_pos_bound fsize nthreads ltac:(lia)).
  pose proof (Z.div_pos fsize nthreads ltac:(lia) ltac:(lia)).
  lia.
Qed.

Lemma prefix_fits i : 0 <= i <= nthreads -> 0 <= i * base <= fsize.
Proof. intros Hi. destruct base_bounds as (Hb & Hsum & He). nia. Qed.

(** The loop of [read()] builds the list the specification describes. *)
Lemma spawn_loop_spec todo : forall i cur,
  0 <= i -> i + Z.of_nat todo = nthreads ->
  (todo <> O -> cur = i * base) ->
  spawn_loop nthreads base extra todo i cur
  = map (spec_partition fsize nthreads) (seq (Z.to_nat i) todo).
Proof.
  induction todo as [|todo IH]; intros i cur Hi Hsum Hcur; [reflexivity|].
  specialize (Hcur ltac:(discriminate)). subst cur.
  destruct base_bounds as (Hb & Hdiv & He).
  pose proof (prefix_fits i ltac:(lia)) as Hpre.
  pose proof (prefix_fits (i + 1) ltac:(lia)) as Hpre1.
  cbn [spawn_loop seq map].
  rewrite (sub_small nthreads 1) by (unfold in_range; lia).
  rewrite (add_small i 1) by (unfold in_range; lia).
  assert (Hsz : (if i =? nthreads - 1 then add base extra else base)
                = if i =? nthreads - 1 then base + extra else base).
  { destruct (i =? nthreads - 1) eqn:E; [|reflexivity].
    apply Z.eqb_eq in E. apply add_small. unfold in_range. nia. }
  rewrite Hsz.
  rewrite (IH (i + 1)); [| lia | lia |].
  - unfold spec_partition at 2. fold base. fold extra.
    rewrite Z2Nat.id by lia.
    replace (Z.to_nat (i + 1)) with (S (Z.to_nat i)) by lia.
    reflexivity.
  - intros Htodo. destruct (i =? nthreads - 1) eqn:E.
    + apply Z.eqb_eq in E. lia.
    + rewrite add_small by (unfold in_range; lia). lia.
Qed.

Lemma partitions_spec :
  partitions fsize nthreads = Some (spec_partitions fsize nthreads).
Proof.
  unfold partitions, spec_partitions.
  destruct (nthreads =? 0) eqn:E; [apply Z.eqb_eq in E; lia|].
  f_equal. fold base. fold extra.
  apply (spawn_loop_spec (Z.to_nat nthreads) 0 0); lia.
Qed.

Lemma spec_contiguous todo : forall i : nat,
  Z.of_nat i + Z.of_nat todo = nthreads ->
  contiguous_from (Z.of_nat i * base)
                  (map (spec_partition fsize nthreads) (seq i todo)).
Proof.
  destruct base_bounds as (Hb & Hdiv & He).
  induction todo as [|todo IH]; intros i Hsum; [exact I|].
  cbn [seq map contiguous_from].
  unfold spec_partition at 1 2 3, part_start, part_len. cbn [fst snd].
  fold base. fold extra.
  split; [reflexivity|]. split.
  - destruct (Z.of_nat i =? nthreads - 1); lia.
  - destruct todo as [|todo']; [exact I|].
    destruct (Z.of_nat i =? nthreads - 1) eqn:E;
      [apply Z.eqb_eq in E; lia|].
    replace (Z.of_nat i * base + base) with (Z.of_nat (S i) * base) by lia.
    apply IH. lia.
Qed.

Lemma spec_sum todo : forall i : nat,
  todo <> O -> Z.of_nat i + Z.of_nat todo = nthreads ->
  sum_lengths (map (spec_partition fsize nthreads) (seq i todo))
  = fsize - Z.of_nat i * base.
Proof.
  destruct base_bounds as (Hb & Hdiv & He).
  induction todo as [|todo IH]; intros i Hne Hsum; [congruence|].
  cbn [seq map sum_lengths fold_right].
  unfold spec_partition at 1, part_len at 1. cbn [snd].
  fold base. fold extra.
  destruct todo as [|todo'].
  - cbn [seq map fold_right].
    replace (Z.of_nat i =? nthreads - 1) with true
      by (symmetry; apply Z.eqb_eq; lia).
    nia.
  - replace (Z.of_nat i =? nthreads - 1) with false
      by (symmetry; apply Z.eqb_neq; lia).
    specialize (IH (S i) ltac:(discriminate) ltac:(lia)).
    unfold sum_lengths in IH. rewrite IH. lia.
Qed.

End Partitioning.

(** In a contiguous list every partition starts at or after [off]. *)
Lemma contiguous_lower ps : forall off (j : nat) q,
  contiguous_from off ps -> nth_error ps j = Some q -> off <= part_start q.
Proof.
  induction ps as [|a ps IH]; intros off j q Hc Hq;
    [destruct j; discriminate|].
  destruct Hc as (Hs & Hl & Hc).
  destruct j as [|j]; cbn in Hq.
  - injection Hq as <-. lia.
  - pose proof (IH _ _ _ Hc Hq). lia.
Qed.

(** In a contiguous list a later partition starts at or after the end of
    an earlier one. *)
Lemma contiguous_ordered ps : forall off (i j : nat) p q,
  contiguous_from off ps -> (i < j)%nat ->
  nth_error ps i = Some p -> nth_error ps j = Some q ->
  part_start p + part_len p <= part_start q.
Proof.
  induction ps as [|a ps IH]; intros off i j p q Hc Hij Hp Hq.
  - destruct i; discriminate.
  - destruct Hc as (Hs & Hl & Hc).
    destruct j as [|j]; [lia|]. cbn in Hq.
    destruct i as [|i]; cbn in Hp.
    + injection Hp as <-. pose proof (contiguous_lower _ _ _ _ Hc Hq). lia.
    + apply (IH _ i j p q Hc); [lia | exact Hp | exact Hq].
Qed.


(** The partitions of [read()], for the zero-fill and the read phase. *)
Lemma partitions_shape (fsize nthreads : Z) :
  0 <= fsize < modulus ->
  1 <= nthreads < modulus ->
  partitions fsize nthreads = Some (spec_partitions fsize nthreads)
  /\ contiguous_from 0 (spec_partitions fsize nthreads)
  /\ sum_lengths (spec_partitions fsize nthreads) = fsize.
Proof.
  intros Hf Ht.
  split; [apply partitions_spec; assumption|]. split.
  - apply (spec_contiguous fsize nthreads Hf Ht (Z.to_nat nthreads) O). lia.
  - unfold spec_partitions.
    rewrite (spec_sum fsize nthreads Hf Ht (Z.to_nat nthreads) O); lia.
Qed.

(** C2 (partition coverage).  For [file_size >= 1] and [num_threads >= 1]
    the loop of [read()] yields exactly [num_threads] partitions, the ones
    the specification lists: partition [k] is [(k, k * base, base)] with
    [base = file_size / num_threads], except the last, whose length is
    [base + file_size mod num_threads].  They are contiguous from offset 0,
    pairwise disjoint, and their lengths sum to [file_size]. *)
Theorem partition_coverage (fsize nthreads : Z) :
  1 <= fsize < modulus ->
  1 <= nthreads < modulus ->
  exists ps,
    partitions fsize nthreads = Some ps
    /\ ps = spec_partitions fsize nthreads
    /\ Z.of_nat (length ps) = nthreads
    /\ contiguous_from 0 ps
    /\ sum_lengths ps = fsize
    /\ (forall (i j : nat) p q,
           (i < j)%nat -> nth_error ps i = Some p -> nth_error ps j = Some q ->
           disjoint p q).
Proof.
  intros Hf Ht.
  assert (Hf' : 0 <= fsize < modulus) by lia.
  exists (spec_partitions fsize nthreads).
  assert (Hc : contiguous_from 0 (spec_partitions fsize nthreads)).
  { apply (spec_contiguous fsize nthreads Hf' Ht (Z.to_nat nthreads) O). lia. }
  split; [apply partitions_spec; assumption|].
  split; [reflexivity|].
  split; [unfold spec_partitions; rewrite length_map, length_seq; lia|].
  split; [exact Hc|].
  split.
  - unfold spec_partitions.
    rewrite (spec_sum fsize nthreads Hf' Ht (Z.to_nat nthreads) O); lia.
  - intros i j p q Hij Hp Hq. left.
    exact (contiguous_ordered _ _ _ _ _ _ Hc Hij Hp Hq).
Qed.

Lemma partition_coverage_witness :
  (1 <= 10 < modulus /\ 1 <= 3 < modulus)
  /\ exists ps,
    partitions 10 3 = Some ps
    /\ ps = spec_partitions 10 3
    /\ Z.of_nat (length ps) = 3
    /\ contiguous_from 0 ps
    /\ sum_lengths ps = 10
    /\ (forall (i j : nat) p q,
           (i < j)%nat -> nth_error ps i = Some p -> nth_error ps j = Some q ->
           disjoint p q).
Proof.
  assert (H1 : 1 <= 10 < modulus) by (unfold modulus; lia).
  assert (H2 : 1 <= 3 < modulus) by (unfold modulus; lia).
  split; [split; assumption|].
  exact (partition_coverage 10 3 H1 H2).
Defined.

(** ** Loop invariants of [readChunk] *)

Section LoopInvariants.

Variable pread : nat -> Z -> Z -> io_result.
Variables bs rcs size : Z.
Variable Inv : chunk_state -> Prop.

Lemma aligned_loop_invariant :
  (forall s, Inv s -> cs_done s < size ->
             match aligned_step pread bs rcs size s with
             | Next s' | Break _ s' => Inv s'
             | Crash => True
             end) ->
  forall fuel s, Inv s -> Inv (snd (aligned_loop pread bs rcs size fuel s)).
Proof.
  intros Hstep fuel. induction fuel as [|fuel IH]; intros s Hs; simpl.
  - destruct (cs_done s <? size); exact Hs.
  - destruct (cs_done s <? size) eqn:E; [|exact Hs].
    apply Z.ltb_lt in E. specialize (Hstep s Hs E).
    destruct (aligned_step pread bs rcs size s) as [s'|why s'|].
    + apply IH. exact Hstep.
    + exact Hstep.
    + exact Hs.
Qed.

Lemma buffered_loop_invariant :
  (forall s, Inv s -> cs_done s < size ->
             match buffered_step pread rcs size s with
             | Next s' | Break _ s' => Inv s'
             | Crash => True
             end) ->
  forall fuel s, Inv s -> Inv (snd (buffered_loop pread rcs size fuel s)).
Proof.
  intros Hstep fuel. induction fuel as [|fuel IH]; intros s Hs; simpl.
  - destruct (cs_done s <? size); exact Hs.
  - destruct (cs_done s <? size) eqn:E; [|exact Hs].
    apply Z.ltb_lt in E. specialize (Hstep s Hs E).
    destruct (buffered_step pread rcs size s) as [s'|why s'|].
    + apply IH. exact Hstep.
    + exact Hstep.
    + exact Hs.
Qed.

End LoopInvariants.

(** The request size of lines 68-71 is a multiple of the block size. *)
Lemma bytes_to_read_divide bs rcs oib rem :
  0 < bs -> (bs | bytes_to_read_of bs rcs oib rem).
Proof.
  intros Hb. unfold bytes_to_read_of.
  apply round_down_divide; [exact Hb | apply wrap_range].
Qed.

(** With [read_chunk_size] a multiple of the block size, the request size
    stays within [read_chunk_size]. *)
Lemma bytes_to_read_le bs rcs oib rem :
  0 < bs -> 0 <= rcs -> (bs | rcs) -> rcs + bs <= modulus ->
  0 <= bytes_to_read_of bs rcs oib rem <= rcs.
Proof.
  intros Hb Hr [m Hm] Hfit. unfold bytes_to_read_of.
  set (x := Z.min rcs (add rem oib)).
  assert (Hx : 0 <= x <= rcs).
  { pose proof (wrap_range (rem + oib)) as Hw. unfold in_range in Hw.
    unfold x, add. lia. }
  destruct (round_up_exact x bs Hb ltac:(lia) ltac:(lia)) as (-> & Hle & _).
  assert (0 <= m) by nia.
  pose proof (round_up_le x m bs Hb ltac:(lia)). lia.
Qed.

Ltac forall_events :=
  repeat first [apply Forall_nil | apply Forall_cons]; cbn; auto.

Lemma Forall_snoc {A} (P : A -> Prop) l l' :
  Forall P l -> Forall P l' -> Forall P (l ++ l').
Proof. intros H H'. apply Forall_app. split; assumption. Qed.

Section AlignedTrace.

Variable pread : nat -> Z -> Z -> io_result.
Variables bs rcs size : Z.

Lemma aligned_step_aligned s :
  0 < bs -> aligned_inv bs s ->
  match aligned_step pread bs rcs size s with
  | Next s' | Break _ s' => aligned_inv bs s'
  | Crash => True
  end.
Proof.
  intros Hb [Hoff Htr]. unfold aligned_step.
  destruct (bs =? 0); [exact I|].
  set (ao := aligned_offset_of bs (cs_offset s)).
  set (oib := sub (cs_offset s) ao).
  set (rem := sub size (cs_done s)).
  set (btr := bytes_to_read_of bs rcs oib rem).
  assert (Hao : (bs | ao)) by (apply round_down_divide; assumption).
  assert (Hbtr : (bs | btr)) by (apply bytes_to_read_divide; assumption).
  destruct (pread (cs_calls s) ao btr) as [| |data].
  - split; [exact Hoff|]. cbn [log cs_trace].
    apply Forall_snoc; [exact Htr|]. forall_events.
  - split; [exact Hoff|]. cbn [log cs_trace].
    apply Forall_snoc; [exact Htr|]. forall_events.
  - destruct (zlen (cs_temp s) <? zlen data); [exact I|].
    match goal with |- context [if ?c || ?d then _ else _] =>
      destruct (c || d); [exact I|] end.
    assert (Hinv : forall s', cs_offset s' = add (cs_offset s)
                     (bytes_to_copy_of (zlen data) oib rem) ->
                   cs_trace s' = cs_trace s ++
                     [EvLseek ao; EvRead btr;
                      EvStore (cs_offset s) (bytes_to_copy_of (zlen data) oib rem)] ->
                   aligned_inv bs s').
    { intros s' Ho Ht. split.
      - rewrite Ho. apply wrap_range.
      - rewrite Ht. apply Forall_snoc; [exact Htr|].
        forall_events. }
    destruct (zlen data <? to_signed btr); apply Hinv; reflexivity.
Qed.

Lemma aligned_loop_aligned fuel s :
  0 < bs -> aligned_inv bs s ->
  aligned_inv bs (snd (aligned_loop pread bs rcs size fuel s)).
Proof.
  intros Hb Hs. apply aligned_loop_invariant; [|exact Hs].
  intros s0 Hs0 _. apply aligned_step_aligned; assumption.
Qed.

Lemma aligned_step_within s :
  0 < bs -> 0 <= rcs -> (bs | rcs) -> rcs + bs <= modulus ->
  Forall (read_within rcs) (cs_trace s) ->
  match aligned_step pread bs rcs size s with
  | Next s' | Break _ s' => Forall (read_within rcs) (cs_trace s')
  | Crash => True
  end.
Proof.
  intros Hb Hr Hd Hfit Htr. unfold aligned_step.
  destruct (bs =? 0); [exact I|].
  set (ao := aligned_offset_of bs (cs_offset s)).
  set (oib := sub (cs_offset s) ao).
  set (rem := sub size (cs_done s)).
  set (btr := bytes_to_read_of bs rcs oib rem).
  assert (Hbtr : 0 <= btr <= rcs) by (apply bytes_to_read_le; assumption).
  destruct (pread (cs_calls s) ao btr) as [| |data].
  - cbn [log cs_trace]. apply Forall_snoc; [exact Htr|].
    forall_events.
  - cbn [log cs_trace]. apply Forall_snoc; [exact Htr|].
    forall_events.
  - destruct (zlen (cs_temp s) <? zlen data); [exact I|].
    match goal with |- context [if ?c || ?d then _ else _] =>
      destruct (c || d); [exact I|] end.
    destruct (zlen data <? to_signed btr); cbn [cs_trace];
      (apply Forall_snoc; [exact Htr|]; forall_events).
Qed.

Lemma aligned_loop_within fuel s :
  0 < bs -> 0 <= rcs -> (bs | rcs) -> rcs + bs <= modulus ->
  Forall (read_within rcs) (cs_trace s) ->
  Forall (read_within rcs)
         (cs_trace (snd (aligned_loop pread bs rcs size fuel s))).
Proof.
  intros Hb Hr Hd Hfit Hs.
  apply (aligned_loop_invariant pread bs rcs size
           (fun s => Forall (read_within rcs) (cs_trace s))); [|exact Hs].
  intros s0 Hs0 _. apply aligned_step_within; assumption.
Qed.

End AlignedTrace.

(** What [readChunk] logs in O_DIRECT mode is what its loop logs. *)
Lemma readChunk_direct_trace (P : event -> Prop) o r fuel buf tid start size :
  use_odirect r = true ->
  (forall m, P (EvCerr m)) ->
  (forall temp,
      Forall P (cs_trace (snd (aligned_loop (os_pread o tid) (block_size r)
                                 (read_chunk_size r) size fuel
                                 (mkChunk 0 start buf temp O []))))) ->
  Forall P (w_trace (readChunk o r fuel buf tid start size)).
Proof.
  intros Hd Hmsg Hloop. unfold readChunk. rewrite Hd.
  destruct (os_open_fails o tid); [forall_events|].
  destruct (os_temp_alloc_fails o tid); [forall_events|].
  specialize (Hloop (uninit (os_temp_heap o tid) (read_chunk_size r))).
  destruct (aligned_loop _ _ _ _ _ _) as [e s]. exact Hloop.
Qed.

(** C3 (alignment of the issued reads).  In direct-aligned mode, whatever
    the section, the block size, the chunk size and the answers of the
    operating system, and however many iterations the loop has run, every
    [lseek] of the worker goes to a multiple of [block_size] and every
    [read] asks for a multiple of [block_size]. *)
Theorem aligned_reads_are_block_aligned o r fuel buf tid start size :
  use_odirect r = true ->
  0 < block_size r ->
  in_range start ->
  Forall (block_aligned (block_size r))
         (w_trace (readChunk o r fuel buf tid start size)).
Proof.
  intros Hd Hb Hs. apply readChunk_direct_trace; [exact Hd | intros m; exact I |].
  intros temp.
  apply (aligned_loop_aligned (os_pread o tid) (block_size r)
           (read_chunk_size r) size fuel); [exact Hb|].
  split; [exact Hs | constructor].
Qed.

Lemma aligned_reads_are_block_aligned_witness :
  let o := ideal_os "f" [x01; x02; x03; x04; x05; x06; x07; x08; x09; x0a; x0b]
                    (fun _ => xff) (fun _ _ => xee) in
  let r := mkReader "f" 11 None 3 8 4 true in
  Forall (block_aligned 4)
         (w_trace (readChunk o r 20 (zeros 11) 2 6 5)).
Proof.
  intros o r.
  apply (aligned_reads_are_block_aligned o r 20 (zeros 11) 2 6 5).
  - reflexivity.
  - simpl. lia.
  - unfold in_range, modulus. lia.
Defined.

Lemma modulus_blocks : modulus = 4503599627370496 * 4096.
Proof. reflexivity. Qed.

(** What the constructor leaves in [read_chunk_size] in O_DIRECT mode. *)
Lemma constructor_chunk_size o fname threads chunk r :
  in_range chunk ->
  ParallelFileReader o fname threads chunk true = Returned r ->
  block_size r = 4096
  /\ use_odirect r = true
  /\ in_range (read_chunk_size r)
  /\ (4096 | read_chunk_size r)
  /\ (chunk + 4096 - 1 < modulus ->
      chunk <= read_chunk_size r < chunk + 4096).
Proof.
  intros Hc. unfold ParallelFileReader.
  destruct (getFileSize o fname =? 0); [discriminate|].
  intros H. injection H as <-. cbn [block_size use_odirect read_chunk_size].
  split; [reflexivity|]. split; [reflexivity|].
  cbn [andb]. destruct (chunk mod 4096 =? 0) eqn:E; cbn [negb].
  - apply Z.eqb_eq in E. split; [exact Hc|]. split.
    + apply Z.mod_divide; [lia | exact E].
    + unfold in_range in Hc. lia.
  - split; [apply wrap_range|]. split.
    + apply round_down_divide; [lia | apply wrap_range].
    + intros Hfit. unfold in_range in Hc.
      destruct (round_up_exact chunk 4096 ltac:(lia) ltac:(lia) Hfit)
        as (_ & Hle & _).
      exact Hle.
Qed.

(** C7, as amended (request sizes and the scratch buffer).  In
    direct-aligned mode the constructor leaves [read_chunk_size] a multiple
    of [block_size]; it is the given chunk size rounded up to the next
    multiple whenever [chunk_size + block_size - 1] fits in [size_t].  The
    scratch buffer of a worker has [read_chunk_size] bytes and every [read]
    the worker issues asks for at most [read_chunk_size] bytes. *)
Theorem direct_requests_fit_scratch o fname threads chunk r :
  in_range chunk ->
  ParallelFileReader o fname threads chunk true = Returned r ->
  (block_size r | read_chunk_size r)
  /\ (chunk + block_size r - 1 < modulus ->
      chunk <= read_chunk_size r < chunk + block_size r)
  /\ forall fuel buf tid start size,
      zlen (uninit (os_temp_heap o tid) (read_chunk_size r)) = read_chunk_size r
      /\ Forall (read_within (read_chunk_size r))
                (w_trace (readChunk o r fuel buf tid start size)).
Proof.
  intros Hc Hr.
  destruct (constructor_chunk_size _ _ _ _ _ Hc Hr)
    as (Hbs & Hd & Hrange & Hdiv & Hup).
  rewrite Hbs. split; [exact Hdiv|]. split; [exact Hup|].
  intros fuel buf tid start size.
  unfold in_range in Hrange.
  split; [apply zlen_uninit; lia|].
  apply readChunk_direct_trace; [exact Hd | intros m; exact I |].
  intros temp. rewrite Hbs.
  apply aligned_loop_within; [lia | lia | exact Hdiv | | constructor].
  destruct Hdiv as [m Hm]. rewrite modulus_blocks in *. lia.
Qed.

Lemma direct_requests_fit_scratch_witness :
  let o := ideal_os "f" [x01; x02; x03] (fun _ => xff) (fun _ _ => xee) in
  exists r,
    ParallelFileReader o "f" 2 5000 true = Returned r
    /\ read_chunk_size r = 8192
    /\ (block_size r | read_chunk_size r)
    /\ (5000 + block_size r - 1 < modulus ->
        5000 <= read_chunk_size r < 5000 + block_size r)
    /\ forall fuel buf tid start size,
        zlen (uninit (os_temp_heap o tid) (read_chunk_size r)) = read_chunk_size r
        /\ Forall (read_within (read_chunk_size r))
                  (w_trace (readChunk o r fuel buf tid start size)).
Proof.
  intros o.
  assert (Hc : in_range 5000) by (unfold in_range, modulus; lia).
  exists (mkReader "f" 3 None 2 8192 4096 true).
  assert (Hr : ParallelFileReader o "f" 2 5000 true
               = Returned (mkReader "f" 3 None 2 8192 4096 true))
    by reflexivity.
  split; [exact Hr|]. split; [reflexivity|].
  exact (direct_requests_fit_scratch o "f" 2 5000 _ Hc Hr).
Defined.

(** C7 as stated does not hold: a chunk size within [block_size - 1] of
    [2^64] is not rounded up, the sum [chunk_size + block_size - 1] wraps
    and the quotient is 0. *)
Lemma direct_chunk_size_wraps :
  let o := ideal_os "f" [x01; x02; x03] (fun _ => xff) (fun _ _ => xee) in
  let chunk := 18446744073709550592 in   (* 2^64 - 1024 *)
  in_range chunk
  /\ exists r,
      ParallelFileReader o "f" 1 chunk true = Returned r
      /\ read_chunk_size r = 0
      /\ ~ (chunk <= read_chunk_size r).
Proof.
  intros o chunk. split; [unfold in_range, modulus, chunk; lia|].
  exists (mkReader "f" 3 None 1 0 4096 true).
  split; [reflexivity|]. split; [reflexivity|].
  cbn [read_chunk_size]. unfold chunk. lia.
Qed.

(** ** The engine's fixed configuration *)

Lemma start_threads_all fails n :
  (forall i, fails i = false) -> start_threads fails n = Returned tt.
Proof.
  intros H. unfold start_threads.
  assert (Hnone : forall l : list nat,
             find (fun i => fails (Z.of_nat i)) l = None).
  { induction l as [|i l IH]; [reflexivity|]. cbn [find]. rewrite H. exact IH. }
  rewrite Hnone. reflexivity.
Qed.

Lemma start_threads_cases fails n :
  start_threads fails n = Returned tt
  \/ start_threads fails n = Thrown "std::system_error"
  \/ start_threads fails n = Aborted.
Proof.
  unfold start_threads. destruct (find _ _) as [[|k]|]; auto.
Qed.

Lemma read_started o r fuel :
  (forall i, os_memset_thread_fails o i = false) ->
  (forall i, os_thread_fails o i = false) ->
  read o r fuel = read_phases o r fuel.
Proof.
  intros Hm Ht. unfold read, read_phases.
  rewrite (start_threads_all _ _ Hm), (start_threads_all _ _ Ht).
  destruct (allocate o r) as [fresh| | | |]; cbn [bind]; try reflexivity.
Qed.

(** A thread that cannot be started ends [read()] with an exception or
    with [std::terminate]; otherwise [read()] goes through its phases. *)
Lemma read_cases o r fuel :
  read o r fuel = read_phases o r fuel
  \/ read o r fuel = Thrown "std::system_error"
  \/ read o r fuel = Aborted.
Proof.
  unfold read, read_phases.
  destruct (allocate o r) as [fresh| | | |]; cbn [bind]; auto.
  destruct (start_threads_cases (os_memset_thread_fails o) (num_threads r))
    as [-> | [-> | ->]]; cbn [bind]; auto.
  destruct (zero_fill r fresh) as [zeroed| | | |]; cbn [bind]; auto.
  destruct (start_threads_cases (os_thread_fails o) (num_threads r))
    as [-> | [-> | ->]]; cbn [bind]; auto.
Qed.

Lemma read_returned_phases o r fuel res :
  read o r fuel = Returned res -> read_phases o r fuel = Returned res.
Proof.
  intros H. destruct (read_cases o r fuel) as [Hc | [Hc | Hc]];
    rewrite Hc in H; [exact H | discriminate H | discriminate H].
Qed.

(** What has happened when [read()] returns. *)
Lemma read_returned o r fuel r' ws :
  read o r fuel = Returned (r', ws) ->
  exists fresh zeroed final,
    allocate o r = Returned fresh
    /\ zero_fill r fresh = Returned zeroed
    /\ read_phase o r fuel zeroed = Returned (ws, final)
    /\ r' = set_buffer r (Some final).
Proof.
  unfold read.
  destruct (allocate o r) as [fresh| | | |] eqn:Ha; try discriminate.
  cbn [bind].
  destruct (start_threads _ _) as [[]| | | |]; try discriminate. cbn [bind].
  destruct (zero_fill r fresh) as [zeroed| | | |] eqn:Hz; try discriminate.
  cbn [bind].
  destruct (start_threads _ _) as [[]| | | |]; try discriminate. cbn [bind].
  destruct (read_phase o r fuel zeroed) as [[ws0 final]| | | |] eqn:Hp;
    try discriminate.
  cbn [bind fst snd]. intros H. injection H as <- <-.
  exists fresh, zeroed, final.
  split; [reflexivity|]. split; [exact Hz|]. split; [exact Hp | reflexivity].
Qed.

Lemma read_keeps_configuration o r fuel r' ws :
  read o r fuel = Returned (r', ws) ->
  exists buf, r' = set_buffer r (Some buf).
Proof.
  intros H.
  destruct (read_returned o r fuel r' ws H) as (_ & _ & final & _ & _ & _ & ->).
  eexists. reflexivity.
Qed.

Lemma constructor_fields o fname threads chunk odirect r :
  ParallelFileReader o fname threads chunk odirect = Returned r ->
  filename r = fname /\ num_threads r = threads /\ buffer r = None
  /\ file_size r = getFileSize o fname /\ file_size r <> 0.
Proof.
  unfold ParallelFileReader.
  destruct (getFileSize o fname =? 0) eqn:E; [discriminate|].
  intros H. injection H as <-. apply Z.eqb_neq in E. simpl. auto.
Qed.

(** C6, as amended (thread count 0).  It is [main] that turns a thread
    count of 0 into 1, before it constructs the reader; the constructor
    stores the count it is given.  Every reader that [main] has built has a
    thread count other than 0, which is 1 when the argument (or the
    hardware concurrency taken as default) was 0, so its partitioning is
    defined and is the one for one thread. *)
Theorem main_coerces_zero_threads
        (stoul : string -> option Z) (hw : Z) o vh fuel argv p r :
  main stoul hw o vh fuel argv = Returned p ->
  final_reader p = Some r ->
  num_threads r <> 0
  /\ partitions (file_size r) (num_threads r) <> None
  /\ (forall fname t c d,
         parse_args stoul hw argv = Parsed fname t c d ->
         num_threads r = (if t =? 0 then 1 else t)
         /\ (t = 0 -> partitions (file_size r) (num_threads r)
                      = partitions (file_size r) 1))
  /\ (forall fname t c d r0,
         ParallelFileReader o fname t c d = Returned r0 -> num_threads r0 = t).
Proof.
  intros Hmain Hp.
  assert (Hthreads : forall fname t c d,
             parse_args stoul hw argv = Parsed fname t c d ->
             num_threads r = coerce_threads t).
  { intros fname t c d Hparse. unfold main in Hmain. rewrite Hparse in Hmain.
    destruct (ParallelFileReader o fname (coerce_threads t) (coerce_chunk c) d)
      as [r0| | | |] eqn:Hc; try discriminate;
      [|injection Hmain as <-; discriminate].
    destruct (constructor_fields _ _ _ _ _ _ Hc) as (_ & Hn & _).
    destruct (read o r0 fuel) as [[r1 ws]| | | |] eqn:Hr; try discriminate.
    - destruct (read_keeps_configuration _ _ _ _ _ Hr) as [buf ->].
      destruct (verify o vh (set_buffer r0 (Some buf))) as [ok| | | |];
        try discriminate; injection Hmain as <-; cbn in Hp;
        injection Hp as <-; exact Hn.
    - injection Hmain as <-. cbn in Hp. injection Hp as <-. exact Hn. }
  assert (Hne : num_threads r <> 0).
  { unfold main in Hmain.
    destruct (parse_args stoul hw argv) as [| |fname t c d] eqn:Hparse;
      try (injection Hmain as <-; discriminate).
    rewrite (Hthreads _ _ _ _ eq_refl). unfold coerce_threads.
    destruct (t =? 0) eqn:E; [lia | apply Z.eqb_neq in E; exact E]. }
  split; [exact Hne|]. split.
  - unfold partitions. apply Z.eqb_neq in Hne. rewrite Hne. discriminate.
  - split.
    + intros fname t c d Hparse. rewrite (Hthreads _ _ _ _ Hparse).
      unfold coerce_threads. split; [reflexivity|].
      intros ->. reflexivity.
    + intros fname t c d r0 Hc.
      destruct (constructor_fields _ _ _ _ _ _ Hc) as (_ & Hn & _). exact Hn.
Qed.

Lemma main_coerces_zero_threads_witness :
  exists p r,
    main sample_stoul 8 sample_os (fun _ => xdd) 20 sample_argv
    = Returned p
    /\ final_reader p = Some r
    /\ num_threads r = 1
    /\ num_threads r <> 0
    /\ partitions (file_size r) (num_threads r) <> None.
Proof.
  eexists. eexists.
  assert (Hm : main sample_stoul 8 sample_os (fun _ => xdd) 20 sample_argv
               = Returned (mkProcess 0
                   (Some (mkReader "f" 11 (Some sample_file) 1 1024 4096 false))
                   (Some true))) by (vm_compute; reflexivity).
  split; [exact Hm|]. split; [reflexivity|]. split; [reflexivity|].
  destruct (main_coerces_zero_threads sample_stoul 8 sample_os (fun _ => xdd) 20
              sample_argv _ _ Hm eq_refl) as (H1 & H2 & _).
  split; assumption.
Defined.

(** C6 as stated does not hold: a reader constructed with a thread count
    of 0 keeps 0, and its [read()] divides by zero, while partitioning for
    one thread is defined. *)
Lemma constructor_keeps_zero_threads :
  exists r,
    ParallelFileReader sample_os "f" 0 1024 false = Returned r
    /\ num_threads r = 0
    /\ partitions (file_size r) (num_threads r) = None
    /\ partitions (file_size r) 1 = Some [(0, 0, 11)]
    /\ read sample_os r 20 = Undefined.
Proof.
  exists (mkReader "f" 11 None 0 1024 4096 false).
  repeat split; reflexivity.
Qed.

(** ** Construction and verification *)

Lemma of_signed_zero_iff sz : 0 <= sz < half -> (of_signed sz = 0 <-> sz = 0).
Proof.
  intros H. unfold of_signed. rewrite wrap_small; [tauto|].
  unfold in_range, modulus. unfold half in H. lia.
Qed.

(** C9 (setup errors).  With [st_size] a non-negative [off_t], the
    constructor throws exactly when [stat] fails or reports size zero.  In
    both cases [main] ends with exit code 1 without having a reader, so
    without [read()] having allocated a buffer.  Otherwise the constructor
    returns a reader with a null buffer whose [file_size] is the sampled
    size, and [read()] leaves [file_size] as it is. *)
Theorem construction_fails_iff o fname threads chunk odirect :
  (forall sz, os_stat o fname = Some sz -> 0 <= sz < half) ->
  ((exists what, ParallelFileReader o fname threads chunk odirect = Thrown what)
   <-> (os_stat o fname = None \/ os_stat o fname = Some 0))
  /\ (os_stat o fname = None \/ os_stat o fname = Some 0 ->
      forall (stoul : string -> option Z) hw vh fuel argv t c d,
        parse_args stoul hw argv = Parsed fname t c d ->
        main stoul hw o vh fuel argv = Returned (mkProcess 1 None None))
  /\ (forall sz, os_stat o fname = Some sz -> sz <> 0 ->
      exists r,
        ParallelFileReader o fname threads chunk odirect = Returned r
        /\ file_size r = sz /\ buffer r = None
        /\ forall fuel r' ws,
            read o r fuel = Returned (r', ws) -> file_size r' = sz).
Proof.
  intros Hstat.
  assert (Hzero : getFileSize o fname = 0
                  <-> (os_stat o fname = None \/ os_stat o fname = Some 0)).
  { unfold getFileSize. destruct (os_stat o fname) as [sz|] eqn:E.
    - rewrite (of_signed_zero_iff sz (Hstat sz eq_refl)). split.
      + intros ->. right. reflexivity.
      + intros [H|H]; [discriminate | congruence].
    - split; [intros _; left; reflexivity | reflexivity]. }
  assert (Hthrow : forall t c d,
             getFileSize o fname = 0 ->
             exists what, ParallelFileReader o fname t c d = Thrown what).
  { intros t c d Hz. unfold ParallelFileReader. rewrite Hz. cbn.
    eexists. reflexivity. }
  split; [split|split].
  - intros [what Hw]. apply Hzero. unfold ParallelFileReader in Hw.
    destruct (getFileSize o fname =? 0) eqn:E; [|discriminate].
    apply Z.eqb_eq. exact E.
  - intros H. apply Hthrow. apply Hzero. exact H.
  - intros H stoul hw vh fuel argv t c d Hparse.
    unfold main. rewrite Hparse.
    destruct (Hthrow (coerce_threads t) (coerce_chunk c) d
                     (proj2 Hzero H)) as [what ->].
    reflexivity.
  - intros sz Hsz Hne.
    assert (Hfs : getFileSize o fname = sz).
    { unfold getFileSize. rewrite Hsz. unfold of_signed.
      apply wrap_small. specialize (Hstat sz Hsz).
      unfold in_range, modulus. unfold half in Hstat. lia. }
    unfold ParallelFileReader. rewrite Hfs.
    destruct (sz =? 0) eqn:E; [apply Z.eqb_eq in E; contradiction|].
    eexists. split; [reflexivity|]. cbn [file_size buffer].
    split; [reflexivity|]. split; [reflexivity|].
    intros fuel r' ws Hr.
    destruct (read_keeps_configuration _ _ _ _ _ Hr) as [buf ->].
    reflexivity.
Qed.

Lemma construction_fails_iff_witness :
  ((exists what, ParallelFileReader sample_os "g" 3 1024 false = Thrown what)
   <-> (os_stat sample_os "g" = None \/ os_stat sample_os "g" = Some 0))
  /\ (exists r, ParallelFileReader sample_os "f" 3 1024 false = Returned r
                /\ file_size r = 11 /\ buffer r = None).
Proof.
  split.
  - apply (construction_fails_iff sample_os "g" 3 1024 false).
    intros sz H. discriminate H.
  - destruct (construction_fails_iff sample_os "f" 3 1024 false) as (_ & _ & H).
    + intros sz Hsz. injection Hsz as <-. unfold half. cbn. lia.
    + destruct (H 11 eq_refl ltac:(lia)) as (r & Hr & Hf & Hb & _).
      exists r. auto.
Defined.

Lemma bytes_eqb_eq a b : bytes_eqb a b = true <-> a = b.
Proof.
  unfold bytes_eqb. destruct (list_eq_dec byte_eq_dec a b); split;
    congruence.
Qed.

(** C10 (verification).  With the buffer that [read()] allocated,
    [verify()] returns [true] exactly when the stream opens, delivers
    [file_size] bytes and these are the bytes of the buffer.  A stream that
    delivers fewer bytes makes [verify()] return [false], whatever the
    buffer; [verify()] never throws and never runs into undefined
    behaviour. *)
Theorem verify_true_iff o vh r buf :
  buffer r = Some buf ->
  zlen buf = file_size r ->
  0 <= file_size r < half ->
  (verify o vh r = Returned true
   <-> exists contents,
        os_ifstream o (filename r) = Some contents
        /\ zlen (firstn (Z.to_nat (file_size r)) contents) = file_size r
        /\ firstn (Z.to_nat (file_size r)) contents = buf)
  /\ (forall contents,
         os_ifstream o (filename r) = Some contents ->
         zlen contents < file_size r ->
         verify o vh r = Returned false)
  /\ (verify o vh r = Returned true \/ verify o vh r = Returned false).
Proof.
  intros Hbuf Hlen Hfs. unfold verify. rewrite Hbuf.
  assert (Hsigned : to_signed (file_size r) = file_size r).
  { unfold to_signed. destruct (file_size r <? half) eqn:E; [reflexivity|].
    apply Z.ltb_ge in E. lia. }
  rewrite Hsigned.
  replace (zlen buf <? file_size r) with false
    by (symmetry; apply Z.ltb_ge; lia).
  destruct (os_ifstream o (filename r)) as [contents|].
  2:{ split; [split; [discriminate | intros (c & H & _); discriminate]|].
      split; [intros c H; discriminate | right; reflexivity]. }
  set (got := firstn (Z.to_nat (file_size r)) contents).
  destruct (zlen got =? file_size r) eqn:E.
  - apply Z.eqb_eq in E.
    assert (Hcmp : memcmp_eq buf (splice (uninit vh (file_size r)) 0 got)
                             (file_size r) = true <-> got = buf).
    { unfold memcmp_eq. rewrite bytes_eqb_eq.
      rewrite splice_whole by (rewrite zlen_uninit; lia).
      rewrite (firstn_all2 buf) by (unfold zlen in Hlen; lia).
      rewrite (firstn_all2 got) by (unfold zlen in E; lia).
      split; congruence. }
    split; [split|split].
    + intros H. injection H as H. exists contents.
      split; [reflexivity|]. split; [exact E|]. apply Hcmp. exact H.
    + intros (c & Hc & _ & Hg). injection Hc as <-.
      f_equal. apply Hcmp. exact Hg.
    + intros c Hc Hshort. injection Hc as <-.
      pose proof (zlen_slice_le 0 (file_size r) contents ltac:(lia)) as Hle.
      unfold got, zlen in E. rewrite length_firstn in E.
      unfold zlen in Hshort. lia.
    + destruct (memcmp_eq _ _ _); [left | right]; reflexivity.
  - apply Z.eqb_neq in E. split; [split|split].
    + discriminate.
    + intros (c & Hc & Hl & _). injection Hc as <-. contradiction.
    + intros; reflexivity.
    + right. reflexivity.
Qed.

Lemma verify_true_iff_witness :
  let r := mkReader "f" 11 (Some sample_file) 3 1024 4096 false in
  verify sample_os (fun _ => xdd) r = Returned true
  /\ (verify sample_os (fun _ => xdd) r = Returned true
      \/ verify sample_os (fun _ => xdd) r = Returned false).
Proof.
  intros r.
  assert (Hhalf : 0 <= file_size r < half) by (unfold half; cbn; lia).
  destruct (verify_true_iff sample_os (fun _ => xdd) r sample_file
              eq_refl eq_refl Hhalf) as (Hiff & _ & Hor).
  split; [|exact Hor].
  apply Hiff. exists sample_file. repeat split; reflexivity.
Defined.

(** ** The copy count of the O_DIRECT loop *)

(** Line 90 computes the difference the specification writes as long as
    the read delivered at least [offset_in_block] bytes. *)
Lemma bytes_to_copy_exact actually_read oib rem :
  0 <= oib <= actually_read -> actually_read < modulus ->
  bytes_to_copy_of actually_read oib rem = Z.min (actually_read - oib) rem.
Proof.
  intros H1 H2. unfold bytes_to_copy_of, of_signed.
  rewrite (wrap_small actually_read) by (unfold in_range; lia).
  rewrite sub_small by (unfold in_range; lia). reflexivity.
Qed.

(** C5 (copy count), the code at a short read that delivers fewer than
    [offset_in_block] bytes.  The [read] delivers 2 bytes, the section
    starts 4 bytes into its block and has 10 bytes: line 90 computes
    [min(2^64 - 2, 10) = 10], not [min(2 - 4, 10)]; ten bytes of the
    scratch buffer, none of which the [read] delivered, are stored into the
    destination buffer and counted as completed. *)
Theorem short_read_copy_count_wraps :
  let w := readChunk short_os short_reader 5 (zeros 8200) 1 4100 10 in
  bytes_to_copy_of 2 4 10 = 10
  /\ Z.min (2 - 4) 10 = -2
  /\ w_exit w = Stopped ShortRead
  /\ w_completed w = 10
  /\ w_trace w = [EvLseek 4096; EvRead 4096; EvStore 4100 10]
  /\ slice 4100 10 (w_buffer w) = repeat xee 10.
Proof.
  vm_compute. repeat split; reflexivity.
Qed.

(** ** The regular loop *)

Lemma to_signed_small z : 0 <= z < half -> to_signed z = z.
Proof.
  intros H. unfold to_signed. destruct (z <? half) eqn:E; [reflexivity|].
  apply Z.ltb_ge in E. lia.
Qed.

Lemma half_lt_modulus : half < modulus.
Proof. reflexivity. Qed.

Section BufferedStep.

Variable pread : nat -> Z -> Z -> io_result.
Variables rcs size : Z.
Variable s : chunk_state.

Hypothesis Hrcs : in_range rcs.
Hypothesis Hdone : 0 <= cs_done s < size.
Hypothesis Hsize : size < half.

Let requested := Z.min rcs (sub size (cs_done s)).
Let answer := pread (cs_calls s) (cs_offset s) requested.

Hypothesis Hfits : forall data,
  answer = ReadBytes data -> cs_offset s + zlen data <= zlen (cs_buffer s).

Lemma requested_bounds : 0 <= requested <= size - cs_done s /\ requested < half.
Proof.
  unfold requested. pose proof half_lt_modulus.
  rewrite sub_small by (unfold in_range; lia).
  unfold in_range in Hrcs. lia.
Qed.

(** What one iteration does, by the answer of the operating system. *)
Lemma buffered_step_cases :
  match spec_terminal requested answer with
  | Some why =>
      exists s', buffered_step pread rcs size s = Break why s'
                 /\ stop_effect why requested answer s s'
  | None =>
      exists s' data,
        buffered_step pread rcs size s = Next s'
        /\ answer = ReadBytes data
        /\ requested <= zlen data
        /\ cs_buffer s' = splice (cs_buffer s) (cs_offset s) data
  end.
Proof.
  destruct requested_bounds as [Hreq Hhalf].
  pose proof half_lt_modulus as Hhm.
  unfold buffered_step. fold requested. fold answer.
  pose proof Hfits as Hfit.
  destruct answer as [| |data] eqn:Ha; cbn [spec_terminal].
  - eexists. split; [reflexivity|]. cbn. auto.
  - eexists. split; [reflexivity|]. cbn. auto.
  - specialize (Hfit data eq_refl).
    replace (zlen (cs_buffer s) <? cs_offset s + zlen data) with false
      by (symmetry; apply Z.ltb_ge; lia).
    rewrite (to_signed_small requested) by lia.
    pose proof (zlen_nonneg data) as Hn.
    destruct (zlen data =? 0) eqn:E0.
    + apply Z.eqb_eq in E0.
      replace (zlen data >? 0) with false by (symmetry; lia).
      rewrite andb_false_r.
      eexists. split; [reflexivity|].
      assert (data = []) as ->
        by (destruct data; [reflexivity | unfold zlen in E0; cbn in E0; lia]).
      cbn. unfold of_signed. cbn.
      repeat split.
      unfold add. rewrite Z.add_0_r. apply wrap_small. unfold in_range. lia.
    + apply Z.eqb_neq in E0.
      replace (zlen data >? 0) with true by (symmetry; lia).
      rewrite andb_true_r.
      destruct (zlen data <? requested) eqn:E1.
      * apply Z.ltb_lt in E1.
        eexists. split; [reflexivity|].
        exists data. cbn. unfold of_signed.
        rewrite (wrap_small (zlen data)) by (unfold in_range; lia).
        repeat split; try lia;
          [apply add_small; unfold in_range; lia | now rewrite <- app_assoc].
      * apply Z.ltb_ge in E1.
        eexists. exists data. repeat split; [lia].
Qed.

End BufferedStep.



(** ** Stores stay where they are logged *)

Section Frame.

Variable pread : nat -> Z -> Z -> io_result.
Variables rcs size : Z.
Variable buf0 : list byte.

Lemma frame_log s evs :
  frame_inv buf0 s -> frame_inv buf0 (log s evs).
Proof.
  intros (Ho & Hl & Hf). split; [exact Ho|]. split; [exact Hl|].
  intros i Hi. cbn [log cs_trace] in Hi. apply Forall_app in Hi.
  apply Hf. tauto.
Qed.

(** One store, logged as [EvStore], followed by further events. *)
Lemma frame_store s s' data evs evs' :
  frame_inv buf0 s ->
  cs_offset s + zlen data <= zlen (cs_buffer s) ->
  0 <= cs_offset s' ->
  cs_buffer s' = splice (cs_buffer s) (cs_offset s) data ->
  cs_trace s' = cs_trace s ++ evs ++ [EvStore (cs_offset s) (zlen data)] ++ evs' ->
  frame_inv buf0 s'.
Proof.
  intros (Ho & Hl & Hf) Hfit Ho' Hb Ht. split; [exact Ho'|]. split.
  - rewrite Hb, zlen_splice; [exact Hl | exact Ho | exact Hfit].
  - intros i Hi. rewrite Ht in Hi.
    apply Forall_app in Hi. destruct Hi as [Hold Hi].
    apply Forall_app in Hi. destruct Hi as [_ Hi].
    apply Forall_app in Hi. destruct Hi as [Hi _].
    inversion Hi as [|ev l Hst _]; subst. cbn in Hst.
    rewrite Hb, nth_error_splice_out; [apply Hf; exact Hold | exact Ho
                                       | exact Hfit | lia].
Qed.

Lemma aligned_step_frame bs s :
  frame_inv buf0 s ->
  match aligned_step pread bs rcs size s with
  | Next s' | Break _ s' => frame_inv buf0 s'
  | Crash => True
  end.
Proof.
  intros Hs. unfold aligned_step.
  destruct (bs =? 0); [exact I|].
  set (ao := aligned_offset_of bs (cs_offset s)).
  set (oib := sub (cs_offset s) ao).
  set (rem := sub size (cs_done s)).
  set (btr := bytes_to_read_of bs rcs oib rem).
  destruct (pread (cs_calls s) ao btr) as [| |data];
    [apply frame_log; exact Hs | apply frame_log; exact Hs |].
  destruct (zlen (cs_temp s) <? zlen data); [exact I|].
  set (temp := splice (cs_temp s) 0 data).
  set (btc := bytes_to_copy_of (zlen data) oib rem).
  destruct (zlen temp <? oib + btc) eqn:E1; [exact I|].
  destruct (zlen (cs_buffer s) <? cs_offset s + btc) eqn:E2; [exact I|].
  cbn [orb]. apply Z.ltb_ge in E1, E2.
  assert (Hoib : 0 <= oib) by (apply (wrap_range (cs_offset s - ao))).
  assert (Hbtc : 0 <= btc).
  { destruct (wrap_range (of_signed (zlen data) - oib)) as [H1 _].
    destruct (wrap_range (size - cs_done s)) as [H2 _].
    change (0 <= sub (of_signed (zlen data)) oib) in H1.
    change (0 <= rem) in H2.
    unfold btc, bytes_to_copy_of. lia. }
  assert (Hlen : zlen (slice oib btc temp) = btc)
    by (apply zlen_slice; lia).
  assert (Hinv : forall s',
             cs_offset s' = add (cs_offset s) btc ->
             cs_buffer s' = splice (cs_buffer s) (cs_offset s)
                                   (slice oib btc temp) ->
             cs_trace s' = cs_trace s ++ [EvLseek ao; EvRead btr;
                                          EvStore (cs_offset s) btc] ->
             frame_inv buf0 s').
  { intros s' Ho' Hb' Ht'.
    apply (frame_store s s' (slice oib btc temp) [EvLseek ao; EvRead btr] []);
      [exact Hs | lia | rewrite Ho'; apply wrap_range | exact Hb' |].
    rewrite Ht', Hlen. reflexivity. }
  destruct (zlen data <? to_signed btr); apply Hinv; reflexivity.
Qed.

Lemma buffered_step_frame s :
  frame_inv buf0 s ->
  match buffered_step pread rcs size s with
  | Next s' | Break _ s' => frame_inv buf0 s'
  | Crash => True
  end.
Proof.
  intros Hs. unfold buffered_step.
  set (btr := Z.min rcs (sub size (cs_done s))).
  destruct (pread (cs_calls s) (cs_offset s) btr) as [| |data];
    [apply frame_log; exact Hs | apply frame_log; exact Hs |].
  destruct (zlen (cs_buffer s) <? cs_offset s + zlen data) eqn:E; [exact I|].
  apply Z.ltb_ge in E.
  set (off' := add (cs_offset s) (of_signed (zlen data))).
  assert (Hinv : forall s' evs',
             cs_offset s' = off' ->
             cs_buffer s' = splice (cs_buffer s) (cs_offset s) data ->
             cs_trace s' = (cs_trace s ++ [EvLseek (cs_offset s); EvRead btr;
                                           EvStore (cs_offset s) (zlen data)])
                           ++ evs' ->
             frame_inv buf0 s').
  { intros s' evs' Ho' Hb' Ht'.
    apply (frame_store s s' data [EvLseek (cs_offset s); EvRead btr] evs');
      [exact Hs | lia | rewrite Ho'; apply wrap_range | exact Hb' |].
    rewrite Ht', <- app_assoc. reflexivity. }
  destruct ((zlen data <? to_signed btr) && (zlen data >? 0)).
  - apply (Hinv _ [EvCerr (MsgShortRead off')]); reflexivity.
  - destruct (zlen data =? 0);
      apply (Hinv _ []); try reflexivity; cbn [cs_trace];
        now rewrite app_nil_r.
Qed.

End Frame.

Lemma frame_inv_init buf start temp :
  0 <= start -> frame_inv buf (mkChunk 0 start buf temp O []).
Proof. intros H. split; [exact H|]. split; reflexivity. Qed.

(** A worker changes the destination buffer only where it logs a store. *)
Lemma readChunk_frame o r fuel buf tid start size :
  0 <= start ->
  let w := readChunk o r fuel buf tid start size in
  zlen (w_buffer w) = zlen buf
  /\ forall i : nat,
      Forall (leaves_byte (Z.of_nat i)) (w_trace w) ->
      nth_error (w_buffer w) i = nth_error buf i.
Proof.
  intros Hs. unfold readChunk.
  destruct (os_open_fails o tid); [split; reflexivity|].
  destruct (use_odirect r).
  - destruct (os_temp_alloc_fails o tid); [split; reflexivity|].
    pose proof (aligned_loop_invariant (os_pread o tid) (block_size r)
                  (read_chunk_size r) size (frame_inv buf)
                  (fun s Hi _ => aligned_step_frame _ _ _ _ _ s Hi) fuel _
                  (frame_inv_init buf start
                     (uninit (os_temp_heap o tid) (read_chunk_size r)) Hs))
      as Hinv.
    destruct (aligned_loop _ _ _ _ _ _) as [e s].
    destruct Hinv as (_ & Hl & Hf). split; assumption.
  - pose proof (buffered_loop_invariant (os_pread o tid)
                  (read_chunk_size r) size (frame_inv buf)
                  (fun s Hi _ => buffered_step_frame _ _ _ _ s Hi) fuel _
                  (frame_inv_init buf start [] Hs))
      as Hinv.
    destruct (buffered_loop _ _ _ _ _) as [e s].
    destruct Hinv as (_ & Hl & Hf). split; assumption.
Qed.

(** The same for all the workers of the read phase. *)
Lemma read_threads_frame o r fuel ps : forall buf ws final,
  Forall (fun p => 0 <= part_start p) ps ->
  read_threads o r fuel ps buf = Returned (ws, final) ->
  zlen final = zlen buf
  /\ forall i : nat,
      (forall w, In w ws -> Forall (leaves_byte (Z.of_nat i)) (w_trace w)) ->
      nth_error final i = nth_error buf i.
Proof.
  induction ps as [|p ps IH]; intros buf ws final Hps Hrun.
  - injection Hrun as <- <-. split; reflexivity.
  - inversion Hps as [|p' ps' Hp Hps']; subst.
    cbn [read_threads] in Hrun.
    set (w := readChunk o r fuel buf (part_id p) (part_start p) (part_len p))
      in Hrun.
    destruct (readChunk_frame o r fuel buf (part_id p) (part_start p)
                              (part_len p) Hp) as (Hl & Hf).
    fold w in Hl, Hf.
    assert (Hrest : exists rest,
               read_threads o r fuel ps (w_buffer w) = Returned rest
               /\ ws = w :: fst rest /\ final = snd rest).
    { destruct (w_exit w); try discriminate;
        (destruct (read_threads o r fuel ps (w_buffer w)) as [rest| | | |];
         try discriminate; cbn [bind] in Hrun; injection Hrun as <- <-;
         exists rest; auto). }
    destruct Hrest as ([ws' final'] & Hrest & -> & ->). cbn [fst snd].
    destruct (IH _ _ _ Hps' Hrest) as (Hl' & Hf'). split; [lia|].
    intros i Hi. rewrite Hf'.
    + apply Hf. apply Hi. left. reflexivity.
    + intros w' Hw'. apply Hi. right. exact Hw'.
Qed.

(** ** The zero-fill phase *)

(** Zero-fill threads over contiguous partitions extend a zeroed prefix. *)
Lemma memset_threads_tile ps : forall off buf0,
  contiguous_from off ps -> 0 <= off ->
  off + sum_lengths ps <= zlen buf0 ->
  memset_threads ps (splice buf0 0 (zeros off))
  = Returned (splice buf0 0 (zeros (off + sum_lengths ps))).
Proof.
  induction ps as [|p ps IH]; intros off buf0 Hc Ho Hfit.
  - cbn. rewrite Z.add_0_r. reflexivity.
  - destruct Hc as (Hs & Hl & Hc).
    cbn [sum_lengths fold_right] in Hfit |- *. fold (sum_lengths ps) in Hfit |- *.
    assert (Hsum : 0 <= sum_lengths ps).
    { clear -Hc. revert Hc. generalize (off + part_len p).
      induction ps as [|q ps IH2]; intros z Hc; [cbn; lia|].
      destruct Hc as (_ & Hq & Hc). specialize (IH2 _ Hc).
      cbn [sum_lengths fold_right]. fold (sum_lengths ps). lia. }
    cbn [memset_threads]. unfold memset_zero.
    rewrite zlen_splice by (rewrite ?zlen_zeros; lia).
    rewrite Hs.
    replace (zlen buf0 <? off + part_len p) with false
      by (symmetry; apply Z.ltb_ge; lia).
    cbn [bind].
    pose proof (splice_splice buf0 0 (zeros off) (zeros (part_len p))) as Hss.
    rewrite zlen_zeros in Hss by lia. cbn [Z.add] in Hss.
    rewrite Hss by lia.
    rewrite zeros_app by lia.
    rewrite IH; [f_equal; f_equal; f_equal; lia | exact Hc | lia | lia].
Qed.

Lemma zero_fill_zeroes r buf :
  1 <= file_size r < modulus -> 1 <= num_threads r < modulus ->
  zlen buf = file_size r ->
  zero_fill r buf = Returned (zeros (file_size r)).
Proof.
  intros Hf Ht Hl. unfold zero_fill.
  destruct (partitions_shape (file_size r) (num_threads r) ltac:(lia) Ht) as (-> & Hc & Hsum).
  assert (Hfit : 0 + sum_lengths (spec_partitions (file_size r) (num_threads r))
                 <= zlen buf) by (rewrite Hsum; lia).
  pose proof (memset_threads_tile _ 0 buf Hc ltac:(lia) Hfit) as H.
  replace (splice buf 0 (zeros 0)) with buf in H
    by (symmetry; apply (splice_nil buf 0); lia).
  rewrite H, Hsum. cbn [Z.add]. f_equal.
  apply splice_whole. rewrite zlen_zeros; lia.
Qed.

Lemma nth_error_zeros n (i : nat) :
  Z.of_nat i < n -> nth_error (zeros n) i = Some x00.
Proof.
  intros H. unfold zeros. apply nth_error_repeat. lia.
Qed.

Lemma contiguous_starts off ps :
  0 <= off -> contiguous_from off ps -> Forall (fun p => 0 <= part_start p) ps.
Proof.
  revert off. induction ps as [|p ps IH]; intros off Ho Hc; constructor.
  - destruct Hc as (Hs & _). lia.
  - destruct Hc as (Hs & Hl & Hc). apply (IH (off + part_len p)); [lia|exact Hc].
Qed.

(** C4 (zero-fill precondition).  When [read()] returns, its zero-fill
    phase, run to its end before the first worker started, had left a
    buffer of [file_size] zero bytes whatever the allocator had left there;
    the workers ran on that buffer; and every byte that no worker stored
    into (for instance all the bytes of a worker whose [open] failed) is
    still zero in the buffer that [read()] leaves. *)
Theorem zero_fill_precondition o r fuel r' ws :
  1 <= file_size r < modulus ->
  1 <= num_threads r < modulus ->
  read o r fuel = Returned (r', ws) ->
  exists fresh final,
    allocate o r = Returned fresh
    /\ zero_fill r fresh = Returned (zeros (file_size r))
    /\ read_phase o r fuel (zeros (file_size r)) = Returned (ws, final)
    /\ buffer r' = Some final
    /\ zlen final = file_size r
    /\ forall i : nat,
        Z.of_nat i < file_size r ->
        (forall w, In w ws -> Forall (leaves_byte (Z.of_nat i)) (w_trace w)) ->
        nth_error final i = Some x00.
Proof.
  intros Hf Ht Hread. apply read_returned_phases in Hread.
  unfold read_phases in Hread.
  destruct (allocate o r) as [fresh| | | |] eqn:Ha; try discriminate.
  cbn [bind] in Hread.
  assert (Hfresh : zlen fresh = file_size r).
  { unfold allocate in Ha. destruct (os_alloc_fails o);
      [discriminate|]. injection Ha as <-. apply zlen_uninit. lia. }
  rewrite (zero_fill_zeroes r fresh Hf Ht Hfresh) in Hread.
  cbn [bind] in Hread.
  destruct (read_phase o r fuel (zeros (file_size r))) as [[ws0 final]| | | |]
    eqn:Hp; try discriminate.
  cbn [bind fst snd] in Hread. injection Hread as <- <-.
  exists fresh, final.
  split; [reflexivity|].
  split; [apply zero_fill_zeroes; assumption|].
  split; [reflexivity|]. split; [reflexivity|].
  unfold read_phase in Hp.
  destruct (partitions_shape (file_size r) (num_threads r) ltac:(lia) Ht) as (Hps & Hc & _).
  rewrite Hps in Hp.
  destruct (read_threads_frame o r fuel _ _ _ _
              (contiguous_starts 0 _ ltac:(lia) Hc) Hp) as (Hl & Hframe).
  split; [rewrite Hl; apply zlen_zeros; lia|].
  intros i Hi Hw. rewrite (Hframe i Hw). apply nth_error_zeros. exact Hi.
Qed.

Lemma zero_fill_precondition_witness :
  match read flaky_os sample_reader 20 with
  | Returned (r', ws) =>
      exists final,
        buffer r' = Some final
        /\ zlen final = 11
        /\ nth_error final 4 = Some x00
  | _ => False
  end.
Proof.
  assert (H1 : 1 <= file_size sample_reader < modulus)
    by (unfold modulus; cbn; lia).
  assert (H2 : 1 <= num_threads sample_reader < modulus)
    by (unfold modulus; cbn; lia).
  destruct (read flaky_os sample_reader 20) as [[r' ws]| | | |] eqn:Hr;
    [| vm_compute in Hr; discriminate ..].
  destruct (zero_fill_precondition _ _ _ _ _ H1 H2 Hr)
    as (fresh & final & _ & _ & _ & Hb & Hl & Hz).
  exists final. split; [exact Hb|]. split; [exact Hl|].
  apply (Hz 4%nat); [cbn; lia|].
  vm_compute in Hr. injection Hr as _ <-.
  intros w [<-|[<-|[<-|[]]]]; cbn [w_trace];
    repeat (apply Forall_cons; [cbn; try exact I; lia|]); apply Forall_nil.
Defined.

(** ** Reading a file that does not change *)

Lemma to_signed_le z : to_signed z <= z.
Proof.
  unfold to_signed. destruct (z <? half); [lia | unfold modulus; lia].
Qed.

Lemma divide_pos_ge b y : 0 < b -> 0 < y -> (b | y) -> b <= y.
Proof.
  intros Hb Hy [m Hm]. subst y.
  destruct (Z.le_gt_cases m 0) as [H|H]; nia.
Qed.

Section IdealRun.

Variable contents : list byte.
Variables start size : Z.
Variable buf0 : list byte.

Hypothesis Hstart : 0 <= start.
Hypothesis Hsize : 0 <= size.
Hypothesis Hin : start + size <= zlen contents.
Hypothesis Hfile : zlen contents < modulus.
Hypothesis Hbuf : start + size <= zlen buf0.

Let pread := fun _ : nat => ideal_pread contents.

Lemma ideal_inv_zlen p s : ideal_inv contents start size buf0 p s -> zlen (cs_buffer s) = zlen buf0.
Proof.
  intros (_ & Hp & _ & ->). apply zlen_splice; [exact Hstart|].
  rewrite zlen_slice; lia.
Qed.

(** Storing the next [c] bytes of the section extends the invariant. *)
Lemma ideal_inv_extend p c s s' :
  ideal_inv contents start size buf0 p s -> 0 <= c -> p + c <= size ->
  cs_done s' = p + c ->
  cs_offset s' = start + p + c ->
  cs_buffer s' = splice (cs_buffer s) (start + p) (slice (start + p) c contents) ->
  ideal_inv contents start size buf0 (p + c) s'.
Proof.
  intros (Hd & Hp & Ho & Hb) Hc Hpc Hd' Ho' Hb'.
  split; [exact Hd'|]. split; [lia|]. split; [lia|].
  rewrite Hb', Hb.
  pose proof (splice_splice buf0 start (slice start p contents)
                            (slice (start + p) c contents)) as Hss.
  rewrite zlen_slice in Hss by lia.
  rewrite Hss by lia. rewrite slice_app by lia. reflexivity.
Qed.

Section Aligned.

Variables bs rcs : Z.
Hypothesis Hbs : 0 < bs.
Hypothesis Hrcs : 0 < rcs.
Hypothesis Hdiv : (bs | rcs).
Hypothesis Hfit : rcs + bs <= modulus.

Lemma aligned_step_ideal p s :
  ideal_inv contents start size buf0 p s -> zlen (cs_temp s) = rcs -> p < size ->
  exists s' c,
    1 <= c /\ p + c <= size
    /\ ideal_inv contents start size buf0 (p + c) s' /\ zlen (cs_temp s') = rcs
    /\ (aligned_step pread bs rcs size s = Next s'
        \/ (aligned_step pread bs rcs size s = Break ShortRead s'
            /\ p + c = size)).
Proof.
  intros Hinv Htemp Hlt.
  pose proof (ideal_inv_zlen p s Hinv) as Hblen.
  pose proof Hinv as (Hd & Hp & Ho & Hb).
  unfold aligned_step.
  replace (bs =? 0) with false by (symmetry; apply Z.eqb_neq; lia).
  set (cur := cs_offset s).
  assert (Hcur : cur = start + p) by exact Ho.
  assert (Hcr : in_range cur) by (unfold in_range; lia).
  destruct (round_down_exact cur bs Hbs Hcr) as [Hao Haole].
  unfold aligned_offset_of. fold cur. rewrite Hao.
  set (ao := cur / bs * bs) in *.
  assert (Hoibv : sub cur ao = cur - ao)
    by (apply sub_small; unfold in_range; lia).
  rewrite Hoibv. set (oib := cur - ao).
  assert (Hoib : 0 <= oib < bs).
  { unfold oib, ao. pose proof (Z.mod_pos_bound cur bs Hbs).
    pose proof (Z.div_mod cur bs ltac:(lia)). lia. }
  rewrite Hd.
  assert (Hremv : sub size p = size - p)
    by (apply sub_small; unfold in_range; lia).
  rewrite Hremv. set (rem := size - p).
  set (btr := bytes_to_read_of bs rcs oib rem).
  assert (Hbtr : Z.min rcs (rem + oib) <= btr <= rcs /\ (bs | btr)).
  { pose proof (bytes_to_read_le bs rcs oib rem Hbs ltac:(lia) Hdiv Hfit) as Hle.
    fold btr in Hle. unfold btr, bytes_to_read_of in *.
    rewrite (add_small rem oib) in * by (unfold in_range, rem, oib; lia).
    destruct (round_up_exact (Z.min rcs (rem + oib)) bs Hbs
                ltac:(unfold rem, oib; lia) ltac:(lia)) as (_ & Hup & Hd').
    split; [lia | exact Hd']. }
  destruct Hbtr as (Hbtr & Hbdiv).
  assert (Hbge : bs <= btr)
    by (apply divide_pos_ge; [exact Hbs | unfold rem in Hbtr; lia | exact Hbdiv]).
  unfold pread, ideal_pread.
  set (data := slice ao btr contents).
  assert (Hn : zlen data = Z.min btr (zlen contents - ao)).
  { unfold data. rewrite zlen_slice_min by lia. lia. }
  replace (zlen (cs_temp s) <? zlen data) with false
    by (symmetry; apply Z.ltb_ge; lia).
  set (temp := splice (cs_temp s) 0 data).
  assert (Htemp' : zlen temp = rcs)
    by (unfold temp; rewrite zlen_splice; lia).
  assert (Hbtc : bytes_to_copy_of (zlen data) oib rem
                 = Z.min (zlen data - oib) rem)
    by (apply bytes_to_copy_exact; lia).
  rewrite Hbtc. set (c := Z.min (zlen data - oib) rem).
  assert (Hc : 1 <= c <= rem) by (unfold c, rem; lia).
  replace (zlen temp <? oib + c) with false
    by (symmetry; apply Z.ltb_ge; lia).
  replace (zlen (cs_buffer s) <? cur + c) with false
    by (symmetry; apply Z.ltb_ge; unfold rem in Hc; lia).
  cbn [orb].
  assert (Hslice : slice oib c temp = slice (start + p) c contents).
  { unfold temp. rewrite slice_splice_front by lia.
    unfold data. rewrite slice_slice by lia.
    f_equal. unfold oib. lia. }
  rewrite Hslice.
  rewrite (add_small p c) by (unfold in_range, rem in *; lia).
  rewrite (add_small cur c) by (unfold in_range, rem in *; lia).
  match goal with
  | |- context [if _ then Break ShortRead ?x else Next ?y] =>
      exists x, c; set (s' := x)
  end.
  assert (Hinv' : ideal_inv contents start size buf0 (p + c) s').
  { apply (ideal_inv_extend p c s s' Hinv); unfold rem in Hc;
      try lia; try reflexivity.
    - cbn. lia.
    - cbn. rewrite Hcur. reflexivity. }
  split; [lia|]. split; [unfold rem in Hc; lia|].
  split; [exact Hinv'|]. split; [exact Htemp'|].
  destruct (zlen data <? to_signed btr) eqn:E; [right | left; reflexivity].
  split; [reflexivity|].
  apply Z.ltb_lt in E. pose proof (to_signed_le btr).
  unfold c, rem, oib. lia.
Qed.

Lemma aligned_loop_ideal fuel : forall p s,
  ideal_inv contents start size buf0 p s -> zlen (cs_temp s) = rcs ->
  (Z.to_nat (size - p) <= fuel)%nat ->
  exists e s',
    aligned_loop pread bs rcs size fuel s = (e, s')
    /\ ideal_inv contents start size buf0 size s'
    /\ (e = Completed \/ e = Stopped ShortRead).
Proof.
  induction fuel as [|fuel IH]; intros p s Hinv Htemp Hfuel;
    pose proof Hinv as (Hd & Hp & _).
  - cbn [aligned_loop]. rewrite Hd.
    replace (p <? size) with false by (symmetry; apply Z.ltb_ge; lia).
    replace p with size in Hinv by lia.
    exists Completed, s. split; [reflexivity|]. split; [exact Hinv | left; reflexivity].
  - cbn [aligned_loop]. rewrite Hd.
    destruct (p <? size) eqn:E.
    + apply Z.ltb_lt in E.
      destruct (aligned_step_ideal p s Hinv Htemp E)
        as (s' & c & Hc & Hpc & Hinv' & Htemp' & [Hstep|[Hstep Hend]]);
        rewrite Hstep.
      * apply (IH (p + c) s' Hinv' Htemp'). lia.
      * rewrite Hend in Hinv'. exists (Stopped ShortRead), s'.
        split; [reflexivity|]. split; [exact Hinv' | right; reflexivity].
    + apply Z.ltb_ge in E. replace p with size in Hinv by lia.
    exists Completed, s. split; [reflexivity|]. split; [exact Hinv | left; reflexivity].
Qed.

End Aligned.

Section Buffered.

Variable rcs : Z.
Hypothesis Hrcs : 0 < rcs.

Lemma buffered_step_ideal p s :
  ideal_inv contents start size buf0 p s -> p < size ->
  exists s' c,
    1 <= c /\ p + c <= size /\ ideal_inv contents start size buf0 (p + c) s'
    /\ buffered_step pread rcs size s = Next s'.
Proof.
  intros Hinv Hlt.
  pose proof (ideal_inv_zlen p s Hinv) as Hblen.
  pose proof Hinv as (Hd & Hp & Ho & Hb).
  unfold buffered_step. rewrite Hd, Ho.
  rewrite (sub_small size p) by (unfold in_range; lia).
  set (c := Z.min rcs (size - p)).
  assert (Hc : 1 <= c <= size - p) by (unfold c; lia).
  unfold pread, ideal_pread.
  set (data := slice (start + p) c contents).
  assert (Hn : zlen data = c) by (unfold data; apply zlen_slice; lia).
  rewrite Hn.
  replace (zlen (cs_buffer s) <? start + p + c) with false
    by (symmetry; apply Z.ltb_ge; lia).
  replace ((c <? to_signed c) && (c >? 0)) with false
    by (symmetry; apply andb_false_iff; left; apply Z.ltb_ge;
        apply to_signed_le).
  replace (c =? 0) with false by (symmetry; apply Z.eqb_neq; lia).
  unfold of_signed. rewrite (wrap_small c) by (unfold in_range; lia).
  rewrite (add_small p c) by (unfold in_range; lia).
  rewrite (add_small (start + p) c) by (unfold in_range; lia).
  eexists. exists c.
  split; [lia|]. split; [lia|]. split; [|reflexivity].
  apply (ideal_inv_extend p c s _ Hinv); try lia; reflexivity.
Qed.

Lemma buffered_loop_ideal fuel : forall p s,
  ideal_inv contents start size buf0 p s ->
  (Z.to_nat (size - p) <= fuel)%nat ->
  exists s',
    buffered_loop pread rcs size fuel s = (Completed, s')
    /\ ideal_inv contents start size buf0 size s'.
Proof.
  induction fuel as [|fuel IH]; intros p s Hinv Hfuel;
    pose proof Hinv as (Hd & Hp & _).
  - cbn [buffered_loop]. rewrite Hd.
    replace (p <? size) with false by (symmetry; apply Z.ltb_ge; lia).
    replace p with size in Hinv by lia.
    exists s. split; [reflexivity | exact Hinv].
  - cbn [buffered_loop]. rewrite Hd.
    destruct (p <? size) eqn:E.
    + apply Z.ltb_lt in E.
      destruct (buffered_step_ideal p s Hinv E)
        as (s' & c & Hc & Hpc & Hinv' & Hstep).
      rewrite Hstep. apply (IH (p + c) s' Hinv'). lia.
    + apply Z.ltb_ge in E. replace p with size in Hinv by lia.
    exists s. split; [reflexivity | exact Hinv].
Qed.

End Buffered.

Lemma ideal_inv_init temp :
  ideal_inv contents start size buf0 0 (mkChunk 0 start buf0 temp O []).
Proof.
  split; [reflexivity|]. split; [lia|]. split; [cbn; lia|].
  cbn [cs_buffer]. rewrite slice_nil. symmetry. apply splice_nil. exact Hstart.
Qed.

End IdealRun.

(** ** The whole read on a file that does not change *)

Lemma sum_lengths_nonneg ps : forall off,
  contiguous_from off ps -> 0 <= sum_lengths ps.
Proof.
  induction ps as [|q ps IH]; intros off Hc; [cbn; lia|].
  destruct Hc as (_ & Hq & Hc). specialize (IH _ Hc).
  cbn [sum_lengths fold_right]. fold (sum_lengths ps). lia.
Qed.

Section IdealEngine.

Variable fname : string.
Variable contents : list byte.
Variable heap : nat -> byte.
Variable temp_heap : Z -> nat -> byte.
Variable r : reader.
Variable fuel : nat.

Hypothesis Hfile : zlen contents < modulus.
Hypothesis Hconfig : chunk_config_ok r.
Hypothesis Hfuel : (Z.to_nat (zlen contents) <= fuel)%nat.

Let o := ideal_os fname contents heap temp_heap.

(** A worker stores its section of the file and nothing else. *)
Lemma readChunk_ideal buf tid start size :
  0 <= start -> 0 <= size ->
  start + size <= zlen contents -> start + size <= zlen buf ->
  let w := readChunk o r fuel buf tid start size in
  w_buffer w = splice buf start (slice start size contents)
  /\ w_completed w = size
  /\ (w_exit w = Completed \/ w_exit w = Stopped ShortRead).
Proof.
  intros Hstart Hsize Hin Hbuf. destruct Hconfig as (Hrcs & Hdirect).
  unfold readChunk. cbn [o ideal_os os_open_fails os_temp_alloc_fails os_pread
                          os_temp_heap].
  pose proof (ideal_inv_init contents start size buf Hstart Hsize) as Hinit.
  assert (Hf : (Z.to_nat (size - 0) <= fuel)%nat) by lia.
  destruct (use_odirect r).
  - destruct (Hdirect eq_refl) as (Hbs & Hdiv & Hfit).
    set (temp := uninit (temp_heap tid) (read_chunk_size r)).
    destruct (aligned_loop_ideal contents start size buf Hstart Hin Hfile Hbuf
                (block_size r) (read_chunk_size r) Hbs Hrcs Hdiv Hfit
                fuel 0 _ (Hinit temp) (zlen_uninit (temp_heap tid) (read_chunk_size r) ltac:(lia)) Hf)
      as (e & s' & Hloop & (Hd & _ & _ & Hb) & He).
    rewrite Hloop. cbn [w_buffer w_completed w_exit].
    rewrite completion_line_nonzero by lia. auto.
  - destruct (buffered_loop_ideal contents start size buf Hstart Hin Hfile Hbuf
                (read_chunk_size r) Hrcs fuel 0 _ (Hinit []) Hf)
      as (s' & Hloop & (Hd & _ & _ & Hb)).
    rewrite Hloop. cbn [w_buffer w_completed w_exit].
    rewrite completion_line_nonzero by lia. auto.
Qed.

(** Workers over contiguous partitions extend the prefix of the file that
    is in place. *)
Lemma read_threads_ideal ps : forall off buf0,
  contiguous_from off ps -> 0 <= off ->
  off + sum_lengths ps <= zlen contents ->
  zlen buf0 = zlen contents ->
  exists ws,
    read_threads o r fuel ps (splice buf0 0 (slice 0 off contents))
    = Returned (ws, splice buf0 0 (slice 0 (off + sum_lengths ps) contents)).
Proof.
  induction ps as [|p ps IH]; intros off buf0 Hc Ho Hfit Hlen.
  - cbn. rewrite Z.add_0_r. eexists. reflexivity.
  - destruct Hc as (Hs & Hl & Hc).
    pose proof (sum_lengths_nonneg ps _ Hc) as Hsum.
    cbn [sum_lengths fold_right] in Hfit |- *.
    fold (sum_lengths ps) in Hfit |- *.
    cbn [read_threads].
    set (buf := splice buf0 0 (slice 0 off contents)).
    assert (Hpre : zlen (slice 0 off contents) = off)
      by (apply zlen_slice; lia).
    assert (Hbuf : zlen buf = zlen buf0)
      by (unfold buf; apply zlen_splice; lia).
    destruct (readChunk_ideal buf (part_id p) (part_start p) (part_len p)
                ltac:(lia) Hl ltac:(lia) ltac:(lia)) as (Hwb & _ & Hwe).
    set (w := readChunk o r fuel buf (part_id p) (part_start p) (part_len p))
      in *.
    assert (Hnext : w_buffer w
                    = splice buf0 0 (slice 0 (off + part_len p) contents)).
    { rewrite Hwb, Hs. unfold buf.
      pose proof (splice_splice buf0 0 (slice 0 off contents)
                                (slice off (part_len p) contents)) as Hss.
      rewrite Hpre in Hss. cbn [Z.add] in Hss. rewrite Hss by lia.
      pose proof (slice_app 0 off (part_len p) contents) as Happ.
      cbn [Z.add] in Happ. rewrite Happ by lia. reflexivity. }
    rewrite Hnext.
    destruct (IH (off + part_len p) buf0 Hc ltac:(lia) ltac:(lia) Hlen)
      as (ws & Hrest).
    rewrite Hrest. cbn [bind fst snd].
    rewrite Z.add_assoc.
    destruct Hwe as [-> | ->]; eexists; reflexivity.
Qed.

End IdealEngine.

Lemma verify_accepts o vh r buf :
  buffer r = Some buf ->
  zlen buf = file_size r ->
  0 <= file_size r < half ->
  os_ifstream o (filename r) = Some buf ->
  verify o vh r = Returned true.
Proof.
  intros Hbuf Hlen Hfs Hstream. unfold verify. rewrite Hstream, Hbuf.
  rewrite to_signed_small by lia.
  rewrite (firstn_all2 buf) by (unfold zlen in Hlen; lia).
  replace (zlen buf =? file_size r) with true by (symmetry; apply Z.eqb_eq; lia).
  replace (zlen buf <? file_size r) with false
    by (symmetry; apply Z.ltb_ge; lia).
  f_equal. unfold memcmp_eq. apply bytes_eqb_eq.
  rewrite splice_whole by (rewrite zlen_uninit; lia). reflexivity.
Qed.

(** What the constructor makes of a valid chunk size. *)
Lemma constructor_config o fname threads chunk odirect r :
  0 < chunk < modulus ->
  (odirect = true -> chunk + 4096 - 1 < modulus) ->
  ParallelFileReader o fname threads chunk odirect = Returned r ->
  chunk_config_ok r.
Proof.
  intros Hc Hfit Hr. destruct odirect.
  - destruct (constructor_chunk_size o fname threads chunk r
                ltac:(unfold in_range; lia) Hr)
      as (Hbs & Hd & Hrange & Hdiv & Hup).
    specialize (Hup (Hfit eq_refl)).
    split; [lia|]. intros _. rewrite Hbs.
    split; [lia|]. split; [exact Hdiv|].
    destruct Hdiv as [m Hm]. unfold in_range in Hrange.
    rewrite modulus_blocks in *. lia.
  - unfold ParallelFileReader in Hr. cbn [andb] in Hr.
    destruct (getFileSize o fname =? 0); [discriminate|].
    injection Hr as <-. split; [cbn; lia|]. cbn. discriminate.
Qed.

(** The parallel read of a file that does not change loads the file, and
    [verify()] accepts it. *)
Lemma read_ideal fname contents heap temp_heap vh threads chunk odirect fuel :
  1 <= zlen contents < half ->
  1 <= threads < modulus ->
  0 < chunk < modulus ->
  (odirect = true -> chunk + 4096 - 1 < modulus) ->
  (Z.to_nat (zlen contents) <= fuel)%nat ->
  let o := ideal_os fname contents heap temp_heap in
  exists r r' ws,
    ParallelFileReader o fname threads chunk odirect = Returned r
    /\ read o r fuel = Returned (r', ws)
    /\ buffer r' = Some contents
    /\ verify o vh r' = Returned true.
Proof.
  intros Hlen Ht Hc Hfit Hfuel o.
  pose proof half_lt_modulus as Hhm.
  assert (Hfs : getFileSize o fname = zlen contents).
  { unfold getFileSize. cbn [o ideal_os os_stat]. rewrite String.eqb_refl.
    unfold of_signed. apply wrap_small. unfold in_range. lia. }
  destruct (ParallelFileReader o fname threads chunk odirect)
    as [r| | | |] eqn:Hr;
    try (unfold ParallelFileReader in Hr; rewrite Hfs in Hr;
         destruct (zlen contents =? 0) eqn:E;
         [apply Z.eqb_eq in E; lia | discriminate]).
  destruct (constructor_fields _ _ _ _ _ _ Hr) as (Hname & Hn & _ & Hsz & _).
  rewrite Hfs in Hsz.
  pose proof (constructor_config _ _ _ _ _ _ Hc Hfit Hr) as Hcfg.
  exists r.
  assert (Hz : zero_fill r (uninit heap (file_size r))
               = Returned (zeros (file_size r))).
  { apply zero_fill_zeroes; rewrite ?Hsz, ?Hn; try lia.
    apply zlen_uninit. lia. }
  destruct (partitions_shape (file_size r) (num_threads r)
              ltac:(rewrite Hsz; lia) ltac:(rewrite Hn; lia))
    as (Hps & Hcont & Hsum).
  destruct (read_threads_ideal fname contents heap temp_heap r fuel
              ltac:(lia) Hcfg Hfuel _ 0 (zeros (file_size r)) Hcont
              ltac:(lia) ltac:(rewrite Hsum, Hsz; lia)
              ltac:(rewrite zlen_zeros; lia)) as (ws & Hws).
  fold o in Hws.
  rewrite slice_nil, splice_nil in Hws by lia.
  rewrite Hsum in Hws. cbn [Z.add] in Hws. rewrite Hsz in Hws.
  rewrite slice_all in Hws.
  rewrite splice_whole in Hws by (rewrite zlen_zeros; lia).
  exists (set_buffer r (Some contents)), ws.
  split; [reflexivity|]. split.
  - rewrite read_started by (intros i; reflexivity).
    unfold read_phases, allocate. cbn [o ideal_os os_alloc_fails os_heap].
    cbn [bind]. fold o. rewrite Hz. cbn [bind].
    unfold read_phase. rewrite Hps, Hsz, Hws. reflexivity.
  - split; [reflexivity|].
    apply (verify_accepts o vh _ contents); cbn [set_buffer buffer file_size
                                                 filename];
      [reflexivity | lia | lia |].
    rewrite Hname. cbn [o ideal_os os_ifstream]. rewrite String.eqb_refl.
    reflexivity.
Qed.

(** ** The spawn order of the workers does not matter *)

Lemma nth_error_splice_in {A} (l data : list A) off (i : nat) :
  0 <= off -> off + zlen data <= zlen l ->
  off <= Z.of_nat i < off + zlen data ->
  nth_error (splice l off data) i = nth_error data (i - Z.to_nat off).
Proof.
  unfold zlen, splice. intros Ho Hl Hi.
  assert (Hf : length (firstn (Z.to_nat off) l) = Z.to_nat off)
    by (rewrite length_firstn; lia).
  rewrite nth_error_app2 by lia. rewrite Hf.
  apply nth_error_app1. lia.
Qed.

Lemma nth_error_slice {A} (l : list A) start n (k : nat) :
  0 <= start -> Z.of_nat k < n ->
  nth_error (slice start n l) k = nth_error l (Z.to_nat start + k).
Proof.
  intros Hs Hk. unfold slice. rewrite nth_error_firstn.
  destruct (Nat.ltb_spec k (Z.to_nat n)) as [_|H]; [|lia].
  apply nth_error_skipn.
Qed.

(** Byte by byte, what storing a section of the file does to a buffer. *)
Lemma nth_error_store_section (contents buf : list byte) (p : partition)
      (i : nat) :
  in_file (zlen contents) p -> zlen buf = zlen contents ->
  nth_error (splice buf (part_start p)
                    (slice (part_start p) (part_len p) contents)) i
  = if in_part p (Z.of_nat i) then nth_error contents i else nth_error buf i.
Proof.
  intros (Hs & Hl & Hin) Hlen.
  assert (Hd : zlen (slice (part_start p) (part_len p) contents) = part_len p)
    by (apply zlen_slice; lia).
  unfold in_part.
  destruct (part_start p <=? Z.of_nat i) eqn:E1;
    destruct (Z.of_nat i <? part_start p + part_len p) eqn:E2; cbn [andb];
    try apply Z.leb_le in E1; try apply Z.leb_gt in E1;
    try apply Z.ltb_lt in E2; try apply Z.ltb_ge in E2.
  - rewrite nth_error_splice_in by (rewrite ?Hd; lia).
    rewrite nth_error_slice by lia. f_equal. lia.
  - apply nth_error_splice_out; rewrite ?Hd; lia.
  - apply nth_error_splice_out; rewrite ?Hd; lia.
  - apply nth_error_splice_out; rewrite ?Hd; lia.
Qed.

Section AnyOrder.

Variable fname : string.
Variable contents : list byte.
Variable heap : nat -> byte.
Variable temp_heap : Z -> nat -> byte.
Variable r : reader.
Variable fuel : nat.

Hypothesis Hfile : zlen contents < modulus.
Hypothesis Hconfig : chunk_config_ok r.
Hypothesis Hfuel : (Z.to_nat (zlen contents) <= fuel)%nat.

Let o := ideal_os fname contents heap temp_heap.

(** Workers on any sections of the file, in any order: a byte that one of
    the sections covers holds the byte of the file, any other byte is as
    before. *)
Lemma read_threads_ideal_pointwise ps : forall buf,
  Forall (in_file (zlen contents)) ps ->
  zlen buf = zlen contents ->
  exists ws final,
    read_threads o r fuel ps buf = Returned (ws, final)
    /\ zlen final = zlen contents
    /\ forall i : nat,
        nth_error final i
        = if covers ps (Z.of_nat i) then nth_error contents i
          else nth_error buf i.
Proof.
  induction ps as [|p ps IH]; intros buf Hps Hlen.
  - exists [], buf. split; [reflexivity|]. split; [exact Hlen|].
    intros i. reflexivity.
  - inversion Hps as [|p' ps' Hp Hps']; subst.
    pose proof Hp as (Hs & Hl & Hin).
    cbn [read_threads].
    destruct (readChunk_ideal fname contents heap temp_heap r fuel Hfile
                Hconfig Hfuel buf (part_id p) (part_start p) (part_len p)
                Hs Hl Hin ltac:(lia)) as (Hwb & _ & Hwe).
    fold o in Hwb, Hwe.
    set (w := readChunk o r fuel buf (part_id p) (part_start p) (part_len p))
      in *.
    assert (Hwlen : zlen (w_buffer w) = zlen contents).
    { rewrite Hwb, zlen_splice; [exact Hlen | exact Hs |].
      rewrite zlen_slice; lia. }
    destruct (IH (w_buffer w) Hps' Hwlen) as (ws & final & Hrun & Hflen & Hnth).
    exists (w :: ws), final.
    split; [|split; [exact Hflen|]].
    + rewrite Hrun. destruct Hwe as [-> | ->]; reflexivity.
    + intros i.
      rewrite Hnth, Hwb, (nth_error_store_section contents buf p i Hp Hlen).
      change (covers (p :: ps) (Z.of_nat i))
        with (in_part p (Z.of_nat i) || covers ps (Z.of_nat i)).
      destruct (in_part p (Z.of_nat i)), (covers ps (Z.of_nat i)); reflexivity.
Qed.

End AnyOrder.

Lemma covers_tile ps : forall off i,
  contiguous_from off ps -> off <= i < off + sum_lengths ps ->
  covers ps i = true.
Proof.
  induction ps as [|p ps IH]; intros off i Hc Hi.
  - cbn in Hi. lia.
  - destruct Hc as (Hs & Hl & Hc).
    cbn [sum_lengths fold_right] in Hi. fold (sum_lengths ps) in Hi.
    change (covers (p :: ps) i) with (in_part p i || covers ps i).
    unfold in_part.
    destruct (Z.lt_ge_cases i (off + part_len p)) as [Hlt|Hge].
    + replace (part_start p <=? i) with true by (symmetry; apply Z.leb_le; lia).
      replace (i <? part_start p + part_len p) with true
        by (symmetry; apply Z.ltb_lt; lia).
      reflexivity.
    + rewrite (IH (off + part_len p) i Hc) by lia. apply orb_true_r.
Qed.

Lemma covers_permutation ps ps' i :
  Permutation ps ps' -> covers ps i = covers ps' i.
Proof.
  intros Hperm. unfold covers.
  destruct (existsb (fun p => in_part p i) ps') eqn:E.
  - apply existsb_exists in E. destruct E as (p & Hp & Hi).
    apply existsb_exists. exists p. split; [|exact Hi].
    apply (Permutation_in p (Permutation_sym Hperm) Hp).
  - destruct (existsb (fun p => in_part p i) ps) eqn:E'; [|reflexivity].
    apply existsb_exists in E'. destruct E' as (p & Hp & Hi).
    rewrite <- E. symmetry. apply existsb_exists. exists p.
    split; [|exact Hi]. apply (Permutation_in p Hperm Hp).
Qed.

Lemma contiguous_in_file ps : forall off fsize,
  0 <= off -> contiguous_from off ps -> off + sum_lengths ps <= fsize ->
  Forall (in_file fsize) ps.
Proof.
  induction ps as [|p ps IH]; intros off fsize Ho Hc Hfit; constructor.
  - destruct Hc as (Hs & Hl & Hc).
    pose proof (sum_lengths_nonneg ps _ Hc).
    cbn [sum_lengths fold_right] in Hfit. fold (sum_lengths ps) in Hfit.
    unfold in_file. lia.
  - destruct Hc as (Hs & Hl & Hc).
    cbn [sum_lengths fold_right] in Hfit. fold (sum_lengths ps) in Hfit.
    apply (IH (off + part_len p)); [lia | exact Hc | lia].
Qed.

(** In whatever order the workers of [read()] run to their end, on a file
    that does not change they leave the file in the buffer: composing them
    in spawn order loses nothing. *)
Lemma read_phase_any_order fname contents heap temp_heap r fuel ps :
  1 <= zlen contents < modulus ->
  file_size r = zlen contents ->
  1 <= num_threads r < modulus ->
  chunk_config_ok r ->
  (Z.to_nat (zlen contents) <= fuel)%nat ->
  Permutation ps (spec_partitions (file_size r) (num_threads r)) ->
  exists ws,
    read_threads (ideal_os fname contents heap temp_heap) r fuel ps
                 (zeros (file_size r))
    = Returned (ws, contents).
Proof.
  intros Hlen Hfs Ht Hcfg Hfuel Hperm.
  destruct (partitions_shape (file_size r) (num_threads r)
              ltac:(lia) Ht) as (_ & Hcont & Hsum).
  assert (Hin : Forall (in_file (zlen contents)) ps).
  { apply Forall_forall. intros p Hp.
    pose proof (contiguous_in_file _ 0 (zlen contents) ltac:(lia) Hcont
                  ltac:(lia)) as Hall.
    rewrite Forall_forall in Hall. apply Hall.
    apply (Permutation_in p Hperm Hp). }
  destruct (read_threads_ideal_pointwise fname contents heap temp_heap r fuel
              ltac:(lia) Hcfg Hfuel ps (zeros (file_size r)) Hin
              ltac:(rewrite zlen_zeros; lia))
    as (ws & final & Hrun & Hflen & Hnth).
  exists ws. rewrite Hrun. do 2 f_equal.
  apply nth_error_ext. intros i. rewrite Hnth.
  destruct (Z.lt_ge_cases (Z.of_nat i) (zlen contents)) as [Hi|Hi].
  - rewrite (covers_permutation _ _ _ Hperm).
    rewrite (covers_tile _ 0 (Z.of_nat i) Hcont) by lia. reflexivity.
  - destruct (covers ps (Z.of_nat i)); [reflexivity|].
    unfold zlen in *.
    rewrite (proj2 (nth_error_None contents i)) by lia.
    apply nth_error_None. unfold zeros. rewrite repeat_length. lia.
Qed.

(** C1 (the two read paths agree; end-to-end equivalence), as amended.
    On an operating system that serves a file that does not change without
    failures ([stat], [open], the allocations and the start of every thread
    succeed) and whose reads deliver every byte asked for that the file
    has: for every section that lies inside the file, every positive block
    size and every positive chunk size that is a multiple of it, the worker
    in direct-aligned mode and the worker in buffered mode leave the same
    destination buffer, in which the section holds the bytes of the file
    and every other byte is as before, and both report the whole section as
    completed.  Consequently, for every thread count from 1 on, every
    chunk size from 1 on (in direct-aligned mode one that the constructor
    can round up) and either mode, [read()] returns with the bytes of the
    file in its buffer, and [verify()], which reads the file sequentially,
    returns [true].  What the direct-aligned worker copies for a section
    that reaches past the end of the file is not part of the statement. *)
Theorem parallel_read_matches_sequential_read :
  (forall fname contents heap temp_heap r_direct r_buffered fuel
          buf tid start size,
      use_odirect r_direct = true ->
      use_odirect r_buffered = false ->
      chunk_config_ok r_direct ->
      chunk_config_ok r_buffered ->
      zlen contents < modulus ->
      0 <= start -> 0 <= size ->
      start + size <= zlen contents ->
      start + size <= zlen buf ->
      (Z.to_nat (zlen contents) <= fuel)%nat ->
      let o := ideal_os fname contents heap temp_heap in
      let direct := readChunk o r_direct fuel buf tid start size in
      let buffered := readChunk o r_buffered fuel buf tid start size in
      w_buffer direct = w_buffer buffered
      /\ w_buffer buffered = splice buf start (slice start size contents)
      /\ w_completed direct = size
      /\ w_completed buffered = size)
  /\ (forall fname contents heap temp_heap vh threads chunk odirect fuel,
         1 <= zlen contents < half ->
         1 <= threads < modulus ->
         0 < chunk < modulus ->
         (odirect = true -> chunk + 4096 - 1 < modulus) ->
         (Z.to_nat (zlen contents) <= fuel)%nat ->
         let o := ideal_os fname contents heap temp_heap in
         exists r r' ws,
           ParallelFileReader o fname threads chunk odirect = Returned r
           /\ read o r fuel = Returned (r', ws)
           /\ buffer r' = Some contents
           /\ verify o vh r' = Returned true).
Proof.
  split.
  - intros fname contents heap temp_heap r_direct r_buffered fuel
           buf tid start size _ _ Hcd Hcb Hfile Hstart Hsize Hin Hbuf Hfuel
           o direct buffered.
    destruct (readChunk_ideal fname contents heap temp_heap r_direct fuel
                Hfile Hcd Hfuel buf tid start size Hstart Hsize Hin Hbuf)
      as (Hd & Hdc & _).
    destruct (readChunk_ideal fname contents heap temp_heap r_buffered fuel
                Hfile Hcb Hfuel buf tid start size Hstart Hsize Hin Hbuf)
      as (Hb & Hbc & _).
    fold o in Hd, Hdc, Hb, Hbc. fold direct in Hd, Hdc.
    fold buffered in Hb, Hbc.
    split; [congruence|]. split; [exact Hb|]. split; assumption.
  - intros fname contents heap temp_heap vh threads chunk odirect fuel
           Hlen Ht Hc Hfit Hfuel.
    exact (read_ideal fname contents heap temp_heap vh threads chunk odirect
                      fuel Hlen Ht Hc Hfit Hfuel).
Qed.

Ltac sample_arith :=
  unfold zlen, zeros, sample_file, half, modulus;
  rewrite ?repeat_length;
  cbn [length read_chunk_size block_size file_size num_threads]; lia.

Lemma parallel_read_matches_sequential_read_witness :
  (let direct :=
     readChunk sample_os (mkReader "f" 11 None 3 8 4 true) 20 (zeros 11) 2 6 5 in
   let buffered :=
     readChunk sample_os (mkReader "f" 11 None 3 3 4 false) 20 (zeros 11) 2 6 5 in
   w_buffer direct = w_buffer buffered
   /\ w_buffer buffered = splice (zeros 11) 6 (slice 6 5 sample_file)
   /\ w_completed direct = 5
   /\ w_completed buffered = 5)
  /\ (exists r r' ws,
         ParallelFileReader sample_os "f" 3 5000 true = Returned r
         /\ read sample_os r 20 = Returned (r', ws)
         /\ buffer r' = Some sample_file
         /\ verify sample_os (fun _ => xdd) r' = Returned true).
Proof.
  destruct parallel_read_matches_sequential_read as (Hworker & Hread).
  split.
  - apply (Hworker "f"%string sample_file (fun _ => xff) (fun _ _ => xee)
                   (mkReader "f" 11 None 3 8 4 true)
                   (mkReader "f" 11 None 3 3 4 false) 20%nat (zeros 11) 2 6 5).
    + reflexivity.
    + reflexivity.
    + split; [sample_arith|]. intros _. cbn.
      split; [sample_arith|]. split; [exists 2; reflexivity | sample_arith].
    + split; [sample_arith|]. intros H. discriminate H.
    + sample_arith.
    + sample_arith.
    + sample_arith.
    + sample_arith.
    + sample_arith.
    + sample_arith.
  - apply (Hread "f"%string sample_file (fun _ => xff) (fun _ _ => xee)
                 (fun _ => xdd) 3 5000 true 20%nat).
    + sample_arith.
    + sample_arith.
    + sample_arith.
    + intros _. sample_arith.
    + sample_arith.
Defined.

(** C1 as the specification states it, for every section, every thread
    count and whatever the operating system answers, does not hold.  For
    the section of 3 bytes at offset 6 of a file that has 5 bytes left
    (block size 4, chunk size 8) the direct-aligned worker reads one byte
    at offset 4, copies 3 bytes of its scratch buffer that no read
    delivered and reports 3 bytes, while the buffered worker copies and
    reports nothing.  With a thread count of 0, which only [main] replaces,
    [read()] divides by zero; with a chunk size of 0, which only [main]
    replaces, a worker divides by zero in its completion line.  And when
    one worker cannot open the file, [read()] returns and [verify()]
    answers [false]. *)
Lemma adapters_differ_past_the_end_of_file :
  (let direct :=
     readChunk truncated_os (mkReader "f" 9 None 1 8 4 true) 5 (zeros 9) 0 6 3 in
   let buffered :=
     readChunk truncated_os (mkReader "f" 9 None 1 8 4 false) 5 (zeros 9) 0 6 3 in
   w_buffer direct <> w_buffer buffered
   /\ w_completed direct = 3
   /\ slice 6 3 (w_buffer direct) = [xee; xee; xee]
   /\ w_completed buffered = 0
   /\ w_buffer buffered = zeros 9)
  /\ (exists r,
         ParallelFileReader sample_os "f" 0 4 false = Returned r
         /\ read sample_os r 20 = Undefined)
  /\ (exists r,
         ParallelFileReader sample_os "f" 3 0 false = Returned r
         /\ read sample_os r 20 = Undefined)
  /\ (exists r' ws,
         read flaky_os sample_reader 20 = Returned (r', ws)
         /\ verify flaky_os (fun _ => xdd) r' = Returned false).
Proof.
  split; [|split; [|split]].
  - vm_compute. repeat split; try reflexivity. intros H. discriminate H.
  - exists (mkReader "f" 11 None 0 4 4096 false).
    split; vm_compute; reflexivity.
  - exists (mkReader "f" 11 None 3 0 4096 false).
    split; vm_compute; reflexivity.
  - destruct (read flaky_os sample_reader 20) as [[r' ws]| | | |] eqn:Hr;
      [| vm_compute in Hr; discriminate ..].
    exists r', ws. split; [reflexivity|].
    vm_compute in Hr. injection Hr as <- _. vm_compute. reflexivity.
Qed.

(** * Further properties of the code *)

(** ** A worker stores inside its section only *)

Section SectionBounds.

Variable pread : nat -> Z -> Z -> io_result.
Variables start size : Z.

Hypothesis Hstart : 0 <= start.
Hypothesis Hfit : start + size < modulus.

Lemma section_inv_log s evs :
  section_inv start size s ->
  Forall (store_within start size) evs ->
  section_inv start size (log s evs).
Proof.
  intros (Hd & Ho & Ht) Hevs. split; [exact Hd|]. split; [exact Ho|].
  cbn [log cs_trace]. apply Forall_snoc; assumption.
Qed.

Lemma aligned_step_section bs rcs s :
  section_inv start size s -> cs_done s < size ->
  match aligned_step pread bs rcs size s with
  | Next s' | Break _ s' => section_inv start size s'
  | Crash => True
  end.
Proof.
  intros Hinv Hlt. pose proof Hinv as (Hd & Ho & Ht).
  unfold aligned_step.
  destruct (bs =? 0); [exact I|].
  set (ao := aligned_offset_of bs (cs_offset s)).
  set (oib := sub (cs_offset s) ao).
  rewrite (sub_small size (cs_done s)) by (unfold in_range; lia).
  set (rem := size - cs_done s).
  set (btr := bytes_to_read_of bs rcs oib rem).
  destruct (pread (cs_calls s) ao btr) as [| |data];
    [apply section_inv_log; [exact Hinv | forall_events]
    |apply section_inv_log; [exact Hinv | forall_events] |].
  destruct (zlen (cs_temp s) <? zlen data); [exact I|].
  set (btc := bytes_to_copy_of (zlen data) oib rem).
  match goal with |- context [if ?c || ?d then _ else _] =>
    destruct (c || d); [exact I|] end.
  assert (Hbtc : 0 <= btc <= rem).
  { destruct (wrap_range (of_signed (zlen data) - oib)) as [H1 _].
    change (0 <= sub (of_signed (zlen data)) oib) in H1.
    unfold btc, bytes_to_copy_of, rem. lia. }
  assert (Hnew : forall s',
             cs_done s' = add (cs_done s) btc ->
             cs_offset s' = add (cs_offset s) btc ->
             cs_trace s' = cs_trace s ++ [EvLseek ao; EvRead btr;
                                          EvStore (cs_offset s) btc] ->
             section_inv start size s').
  { intros s' Hd' Ho' Ht'. unfold rem in Hbtc.
    rewrite add_small in Hd' by (unfold in_range; lia).
    rewrite add_small in Ho' by (unfold in_range; lia).
    split; [lia|]. split; [lia|].
    rewrite Ht'. apply Forall_snoc; [exact Ht|].
    repeat first [apply Forall_nil | apply Forall_cons]; cbn; auto. lia. }
  destruct (zlen data <? to_signed btr); apply Hnew; reflexivity.
Qed.

Lemma buffered_step_section rcs s :
  0 <= rcs ->
  pread_sane pread ->
  section_inv start size s -> cs_done s < size ->
  match buffered_step pread rcs size s with
  | Next s' | Break _ s' => section_inv start size s'
  | Crash => True
  end.
Proof.
  intros Hrcs Hsane Hinv Hlt. pose proof Hinv as (Hd & Ho & Ht).
  unfold buffered_step.
  rewrite (sub_small size (cs_done s)) by (unfold in_range; lia).
  set (btr := Z.min rcs (size - cs_done s)).
  destruct (pread (cs_calls s) (cs_offset s) btr) as [| |data] eqn:Ha;
    [apply section_inv_log; [exact Hinv | forall_events]
    |apply section_inv_log; [exact Hinv | forall_events] |].
  destruct (zlen (cs_buffer s) <? cs_offset s + zlen data); [exact I|].
  assert (Hbtr0 : 0 <= btr) by (unfold btr; lia).
  pose proof (Hsane _ _ _ _ Hbtr0 Ha) as Hn.
  pose proof (zlen_nonneg data) as Hn0.
  assert (Hle : zlen data <= size - cs_done s) by (unfold btr in Hn; lia).
  unfold of_signed. rewrite (wrap_small (zlen data)) by (unfold in_range; lia).
  rewrite (add_small (cs_done s)) by (unfold in_range; lia).
  rewrite (add_small (cs_offset s)) by (unfold in_range; lia).
  assert (Hnew : forall s' evs',
             cs_done s' = cs_done s + zlen data ->
             cs_offset s' = cs_offset s + zlen data ->
             cs_trace s' = (cs_trace s ++ [EvLseek (cs_offset s); EvRead btr;
                                           EvStore (cs_offset s) (zlen data)])
                           ++ evs' ->
             Forall (store_within start size) evs' ->
             section_inv start size s').
  { intros s' evs' Hd' Ho' Ht' Hevs.
    split; [lia|]. split; [lia|].
    rewrite Ht'. apply Forall_snoc; [|exact Hevs].
    apply Forall_snoc; [exact Ht|].
    repeat first [apply Forall_nil | apply Forall_cons]; cbn; auto. lia. }
  destruct ((zlen data <? to_signed btr) && (zlen data >? 0)).
  - apply (Hnew _ [EvCerr (MsgShortRead (cs_offset s + zlen data))]);
      try reflexivity. forall_events.
  - destruct (zlen data =? 0);
      apply (Hnew _ []); try reflexivity; try apply Forall_nil;
        cbn [cs_trace]; now rewrite app_nil_r.
Qed.

Lemma section_inv_init buf temp :
  0 <= size -> section_inv start size (mkChunk 0 start buf temp O []).
Proof.
  intros Hs. split; [cbn; lia|]. split; [cbn; lia|]. apply Forall_nil.
Qed.

End SectionBounds.

Lemma direct_worker_stays_in_section_aux o r fuel buf tid start size :
  use_odirect r = true ->
  0 <= start -> 0 <= size -> start + size < modulus ->
  let w := readChunk o r fuel buf tid start size in
  Forall (store_within start size) (w_trace w)
  /\ 0 <= w_completed w <= size.
Proof.
  intros Hd Hstart Hsize Hfit. unfold readChunk. rewrite Hd.
  destruct (os_open_fails o tid);
    [split; [forall_events | cbn; lia]|].
  destruct (os_temp_alloc_fails o tid);
    [split; [forall_events | cbn; lia]|].
  pose proof (aligned_loop_invariant (os_pread o tid) (block_size r)
                (read_chunk_size r) size (section_inv start size)
                (fun s Hi Hlt => aligned_step_section (os_pread o tid)
                                   start size Hstart Hfit _ _ s Hi Hlt)
                fuel _
                (section_inv_init start size buf
                   (uninit (os_temp_heap o tid) (read_chunk_size r)) Hsize))
    as Hinv.
  destruct (aligned_loop _ _ _ _ _ _) as [e s].
  destruct Hinv as (Hdone & _ & Htr). split; assumption.
Qed.

(** X1.  In O_DIRECT mode, whatever the operating system answers, a worker
    stores into the destination buffer inside its own section only, and
    its count of completed bytes is between 0 and the size of the
    section. *)
Theorem direct_worker_stays_in_section o r fuel buf tid start size :
  use_odirect r = true ->
  0 <= start -> 0 <= size -> start + size < modulus ->
  let w := readChunk o r fuel buf tid start size in
  Forall (store_within start size) (w_trace w)
  /\ 0 <= w_completed w <= size.
Proof.
  intros Hd Hstart Hsize Hfit.
  exact (direct_worker_stays_in_section_aux o r fuel buf tid start size
           Hd Hstart Hsize Hfit).
Qed.

Lemma direct_worker_stays_in_section_witness :
  let w := readChunk short_os short_reader 5 (zeros 8200) 1 4100 10 in
  Forall (store_within 4100 10) (w_trace w) /\ 0 <= w_completed w <= 10.
Proof.
  apply (direct_worker_stays_in_section short_os short_reader 5 (zeros 8200)
           1 4100 10).
  - reflexivity.
  - lia.
  - lia.
  - unfold modulus. lia.
Defined.

Lemma buffered_worker_stays_in_section_aux o r fuel buf tid start size :
  use_odirect r = false ->
  0 <= read_chunk_size r ->
  pread_sane (os_pread o tid) ->
  0 <= start -> 0 <= size -> start + size < modulus ->
  let w := readChunk o r fuel buf tid start size in
  Forall (store_within start size) (w_trace w)
  /\ 0 <= w_completed w <= size.
Proof.
  intros Hd Hrcs Hsane Hstart Hsize Hfit. unfold readChunk. rewrite Hd.
  destruct (os_open_fails o tid);
    [split; [forall_events | cbn; lia]|].
  pose proof (buffered_loop_invariant (os_pread o tid)
                (read_chunk_size r) size (section_inv start size)
                (fun s Hi Hlt => buffered_step_section (os_pread o tid)
                                   start size Hstart Hfit _ s Hrcs Hsane Hi Hlt)
                fuel _
                (section_inv_init start size buf [] Hsize))
    as Hinv.
  destruct (buffered_loop _ _ _ _ _) as [e s].
  destruct Hinv as (Hdone & _ & Htr). split; assumption.
Qed.

(** X2.  In regular mode, if no [read] delivers more bytes than it was
    asked for, a worker stores inside its own section only, and the count
    it reports is between 0 and the size of the section. *)
Theorem buffered_worker_stays_in_section o r fuel buf tid start size :
  use_odirect r = false ->
  0 < read_chunk_size r ->
  pread_sane (os_pread o tid) ->
  0 <= start -> 0 <= size -> start + size < modulus ->
  let w := readChunk o r fuel buf tid start size in
  Forall (store_within start size) (w_trace w)
  /\ 0 <= w_completed w <= size.
Proof.
  intros Hd Hrcs Hsane Hstart Hsize Hfit.
  exact (buffered_worker_stays_in_section_aux o r fuel buf tid start size
           Hd ltac:(lia) Hsane Hstart Hsize Hfit).
Qed.

Lemma ideal_pread_sane contents : pread_sane (fun _ => ideal_pread contents).
Proof.
  intros k off count data Hc H. injection H as <-.
  apply zlen_slice_le. exact Hc.
Qed.

Lemma buffered_worker_stays_in_section_witness :
  let w := readChunk flaky_os sample_reader 20 (zeros 11) 2 6 5 in
  Forall (store_within 6 5) (w_trace w) /\ 0 <= w_completed w <= 5.
Proof.
  apply (buffered_worker_stays_in_section flaky_os sample_reader 20 (zeros 11)
           2 6 5).
  - reflexivity.
  - cbn. lia.
  - apply (ideal_pread_sane sample_file).
  - lia.
  - lia.
  - unfold modulus. lia.
Defined.

(** ** No byte is stored by two workers *)

Lemma read_threads_workers o r fuel ps : forall buf ws final,
  read_threads o r fuel ps buf = Returned (ws, final) ->
  Forall2 (worker_of o r fuel) ps ws.
Proof.
  induction ps as [|p ps IH]; intros buf ws final Hrun.
  - injection Hrun as <- _. constructor.
  - cbn [read_threads] in Hrun.
    set (w := readChunk o r fuel buf (part_id p) (part_start p) (part_len p))
      in Hrun.
    assert (Hrest : exists rest,
               read_threads o r fuel ps (w_buffer w) = Returned rest
               /\ ws = w :: fst rest).
    { destruct (w_exit w); try discriminate;
        (destruct (read_threads o r fuel ps (w_buffer w)) as [rest| | | |];
         try discriminate; cbn [bind] in Hrun; injection Hrun as <- _;
         exists rest; auto). }
    destruct Hrest as ([ws' final'] & Hrest & ->). cbn [fst].
    constructor; [exists buf; reflexivity | exact (IH _ _ _ Hrest)].
Qed.

Lemma Forall2_nth_error {A B} (R : A -> B -> Prop) l l' :
  Forall2 R l l' ->
  forall (i : nat) b, nth_error l' i = Some b ->
  exists a, nth_error l i = Some a /\ R a b.
Proof.
  induction 1 as [|a b l l' Hab _ IH]; intros i y Hy.
  - destruct i; discriminate.
  - destruct i as [|i]; cbn in Hy |- *.
    + injection Hy as <-. exists a. split; [reflexivity | exact Hab].
    + exact (IH i y Hy).
Qed.

Lemma read_returns_workers o r fuel r' ws :
  read o r fuel = Returned (r', ws) ->
  exists ps, partitions (file_size r) (num_threads r) = Some ps
             /\ Forall2 (worker_of o r fuel) ps ws.
Proof.
  intros Hread. apply read_returned_phases in Hread.
  unfold read_phases in Hread.
  destruct (allocate o r) as [fresh| | | |]; try discriminate.
  cbn [bind] in Hread.
  destruct (zero_fill r fresh) as [zeroed| | | |]; try discriminate.
  cbn [bind] in Hread. unfold read_phase in Hread.
  destruct (partitions (file_size r) (num_threads r)) as [ps|];
    [|discriminate].
  destruct (read_threads o r fuel ps zeroed) as [[ws0 final]| | | |] eqn:Hrun;
    try discriminate.
  cbn [bind fst snd] in Hread. injection Hread as _ <-.
  exists ps. split; [reflexivity|].
  exact (read_threads_workers _ _ _ _ _ _ _ Hrun).
Qed.

(** X3.  When [read()] returns, the stores of different workers do not
    overlap: every store of an earlier-spawned worker ends at or before the
    place where any store of a later-spawned worker begins.  This holds in
    O_DIRECT mode for every operating system, and in regular mode when no
    [read] delivers more than it was asked for. *)
Theorem workers_never_store_the_same_byte o r fuel r' ws :
  1 <= file_size r < modulus ->
  1 <= num_threads r < modulus ->
  (use_odirect r = true
   \/ (use_odirect r = false /\ 0 < read_chunk_size r
       /\ forall tid, pread_sane (os_pread o tid))) ->
  read o r fuel = Returned (r', ws) ->
  forall (i j : nat) w1 w2 off1 len1 off2 len2,
    (i < j)%nat ->
    nth_error ws i = Some w1 -> nth_error ws j = Some w2 ->
    In (EvStore off1 len1) (w_trace w1) ->
    In (EvStore off2 len2) (w_trace w2) ->
    off1 + len1 <= off2.
Proof.
  intros Hf Ht Hmode Hread i j w1 w2 off1 len1 off2 len2 Hij Hw1 Hw2 Hs1 Hs2.
  destruct (read_returns_workers _ _ _ _ _ Hread) as (ps & Hps & Hall).
  destruct (partitions_shape (file_size r) (num_threads r) ltac:(lia) Ht)
    as (Hps' & Hcont & Hsum).
  rewrite Hps' in Hps. injection Hps as <-.
  pose proof (contiguous_in_file _ 0 (file_size r) ltac:(lia) Hcont
                ltac:(lia)) as Hin.
  rewrite Forall_forall in Hin.
  destruct (Forall2_nth_error _ _ _ Hall i w1 Hw1) as (p1 & Hp1 & (b1 & E1)).
  destruct (Forall2_nth_error _ _ _ Hall j w2 Hw2) as (p2 & Hp2 & (b2 & E2)).
  pose proof (contiguous_ordered _ _ _ _ _ _ Hcont Hij Hp1 Hp2) as Hord.
  destruct (Hin p1 (nth_error_In _ _ Hp1)) as (Hs1' & Hl1 & He1).
  destruct (Hin p2 (nth_error_In _ _ Hp2)) as (Hs2' & Hl2 & He2).
  assert (Hwithin : forall p buf,
             0 <= part_start p -> 0 <= part_len p ->
             part_start p + part_len p <= file_size r ->
             Forall (store_within (part_start p) (part_len p))
                    (w_trace (readChunk o r fuel buf (part_id p)
                                        (part_start p) (part_len p)))).
  { intros p buf H1 H2 H3. destruct Hmode as [Hd | (Hd & Hr & Hsane)].
    - apply direct_worker_stays_in_section_aux; [exact Hd | lia | lia | lia].
    - apply buffered_worker_stays_in_section_aux;
        [exact Hd | lia | apply Hsane | lia | lia | lia]. }
  pose proof (Hwithin p1 b1 Hs1' Hl1 He1) as H1. rewrite <- E1 in H1.
  pose proof (Hwithin p2 b2 Hs2' Hl2 He2) as H2. rewrite <- E2 in H2.
  rewrite Forall_forall in H1, H2.
  specialize (H1 _ Hs1). specialize (H2 _ Hs2). cbn in H1, H2. lia.
Qed.

Lemma workers_never_store_the_same_byte_witness :
  match read flaky_os sample_reader 20 with
  | Returned (r', ws) =>
      forall (i j : nat) w1 w2 off1 len1 off2 len2,
        (i < j)%nat ->
        nth_error ws i = Some w1 -> nth_error ws j = Some w2 ->
        In (EvStore off1 len1) (w_trace w1) ->
        In (EvStore off2 len2) (w_trace w2) ->
        off1 + len1 <= off2
  | _ => False
  end.
Proof.
  assert (H1 : 1 <= file_size sample_reader < modulus)
    by (unfold modulus; cbn; lia).
  assert (H2 : 1 <= num_threads sample_reader < modulus)
    by (unfold modulus; cbn; lia).
  destruct (read flaky_os sample_reader 20) as [[r' ws]| | | |] eqn:Hr;
    [| vm_compute in Hr; discriminate ..].
  apply (workers_never_store_the_same_byte flaky_os sample_reader 20 r' ws
           H1 H2); [|exact Hr].
  right. split; [reflexivity|]. split; [cbn; lia|].
  intros tid. apply (ideal_pread_sane sample_file).
Defined.

(** ** The loops end, whatever the operating system answers *)

Section DirectProgress.

Variable pread : nat -> Z -> Z -> io_result.
Variables bs rcs start size : Z.

Hypothesis Hbs : 0 < bs.
Hypothesis Hrcs : 0 < rcs < half.
Hypothesis Hdiv : (bs | rcs).
Hypothesis Hstart : 0 <= start.
Hypothesis Hsize : size < half.
Hypothesis Hfit : start + size < modulus.

Lemma aligned_step_progress s :
  direct_progress_inv start size rcs s -> cs_done s < size ->
  match aligned_step pread bs rcs size s with
  | Next s' => direct_progress_inv start size rcs s' /\ cs_done s < cs_done s'
  | _ => True
  end.
Proof.
  intros (Hd & Ho & Htemp) Hlt.
  pose proof half_lt_modulus as Hhm. unfold half in *.
  assert (Hbr : bs <= rcs) by (apply divide_pos_ge; [exact Hbs | lia | exact Hdiv]).
  unfold aligned_step.
  replace (bs =? 0) with false by (symmetry; apply Z.eqb_neq; lia).
  set (cur := cs_offset s).
  assert (Hcr : in_range cur) by (unfold in_range, cur; lia).
  destruct (round_down_exact cur bs Hbs Hcr) as [Hao Haole].
  unfold aligned_offset_of. fold cur. rewrite Hao.
  set (ao := cur / bs * bs) in *.
  rewrite (sub_small cur ao) by (unfold in_range; lia).
  set (oib := cur - ao).
  assert (Hoib : 0 <= oib < bs).
  { unfold oib, ao. pose proof (Z.mod_pos_bound cur bs Hbs).
    pose proof (Z.div_mod cur bs ltac:(lia)). lia. }
  rewrite (sub_small size (cs_done s)) by (unfold in_range; lia).
  set (rem := size - cs_done s).
  set (btr := bytes_to_read_of bs rcs oib rem).
  assert (Hbtr : bs <= btr <= rcs).
  { pose proof (bytes_to_read_le bs rcs oib rem Hbs ltac:(lia) Hdiv
                  ltac:(unfold modulus; lia)) as Hle.
    pose proof (bytes_to_read_divide bs rcs oib rem Hbs) as Hd'.
    fold btr in Hle, Hd'. split; [|lia].
    apply divide_pos_ge; [exact Hbs | | exact Hd'].
    assert (Hrem : 1 <= rem <= size) by (unfold rem; lia).
    unfold btr, bytes_to_read_of in *.
    rewrite (add_small rem oib) in * by (unfold in_range, modulus; lia).
    destruct (round_up_exact (Z.min rcs (rem + oib)) bs Hbs
                ltac:(lia) ltac:(unfold modulus; lia))
      as (_ & Hup & _).
    lia. }
  destruct (pread (cs_calls s) ao btr) as [| |data]; try exact I.
  destruct (zlen (cs_temp s) <? zlen data) eqn:E0; [exact I|].
  apply Z.ltb_ge in E0.
  set (temp := splice (cs_temp s) 0 data).
  match goal with |- context [if ?c || ?d then _ else _] =>
    destruct (c || d); [exact I|] end.
  rewrite (to_signed_small btr) by (unfold half; lia).
  destruct (zlen data <? btr) eqn:E1; [exact I|].
  apply Z.ltb_ge in E1.
  rewrite (bytes_to_copy_exact (zlen data) oib rem)
    by (unfold modulus; lia).
  set (c := Z.min (zlen data - oib) rem).
  assert (Hc : 1 <= c <= rem) by (unfold c, rem; lia).
  unfold rem in Hc.
  rewrite (add_small (cs_done s) c) by (unfold in_range, modulus; lia).
  rewrite (add_small cur c) by (unfold in_range, cur; lia).
  cbn [cs_done]. split; [|lia].
  split; [cbn; lia|]. split; [cbn; unfold cur; lia|].
  cbn [cs_temp]. unfold temp. rewrite zlen_splice; lia.
Qed.

Lemma aligned_loop_ends fuel : forall s,
  direct_progress_inv start size rcs s ->
  (Z.to_nat (size - cs_done s) <= fuel)%nat ->
  fst (aligned_loop pread bs rcs size fuel s) <> Timeout.
Proof.
  induction fuel as [|fuel IH]; intros s Hinv Hfuel; cbn [aligned_loop].
  - destruct (cs_done s <? size) eqn:E; [|discriminate].
    apply Z.ltb_lt in E. lia.
  - destruct (cs_done s <? size) eqn:E; [|discriminate].
    apply Z.ltb_lt in E.
    pose proof (aligned_step_progress s Hinv E) as Hstep.
    destruct (aligned_step pread bs rcs size s) as [s'|why s'|];
      [|discriminate|discriminate].
    destruct Hstep as (Hinv' & Hlt). apply IH; [exact Hinv'|lia].
Qed.

End DirectProgress.

Section BufferedProgress.

Variable pread : nat -> Z -> Z -> io_result.
Variables rcs size len : Z.

Hypothesis Hfit : size + len <= modulus.

Lemma buffered_step_progress s :
  buffered_progress_inv len s -> cs_done s < size ->
  match buffered_step pread rcs size s with
  | Next s' => buffered_progress_inv len s' /\ cs_done s < cs_done s'
  | _ => True
  end.
Proof.
  intros (Hd & Ho & Hlen) Hlt. unfold buffered_step.
  set (btr := Z.min rcs (sub size (cs_done s))).
  destruct (pread (cs_calls s) (cs_offset s) btr) as [| |data]; try exact I.
  destruct (zlen (cs_buffer s) <? cs_offset s + zlen data) eqn:E0; [exact I|].
  apply Z.ltb_ge in E0.
  destruct ((zlen data <? to_signed btr) && (zlen data >? 0)); [exact I|].
  destruct (zlen data =? 0) eqn:E1; [exact I|].
  apply Z.eqb_neq in E1. pose proof (zlen_nonneg data) as Hn.
  unfold of_signed. rewrite (wrap_small (zlen data)) by (unfold in_range; lia).
  rewrite (add_small (cs_done s)) by (unfold in_range; lia).
  cbn [cs_done]. split; [|lia].
  split; [cbn; lia|]. split; [cbn; apply wrap_range|].
  cbn [cs_buffer]. rewrite zlen_splice; lia.
Qed.

Lemma buffered_loop_ends fuel : forall s,
  buffered_progress_inv len s ->
  (Z.to_nat (size - cs_done s) <= fuel)%nat ->
  fst (buffered_loop pread rcs size fuel s) <> Timeout.
Proof.
  induction fuel as [|fuel IH]; intros s Hinv Hfuel; cbn [buffered_loop].
  - destruct (cs_done s <? size) eqn:E; [|discriminate].
    apply Z.ltb_lt in E. lia.
  - destruct (cs_done s <? size) eqn:E; [|discriminate].
    apply Z.ltb_lt in E.
    pose proof (buffered_step_progress s Hinv E) as Hstep.
    destruct (buffered_step pread rcs size s) as [s'|why s'|];
      [|discriminate|discriminate].
    destruct Hstep as (Hinv' & Hlt). apply IH; [exact Hinv'|lia].
Qed.

End BufferedProgress.

(** A worker with a positive chunk size below 2^63 ends within
    [section_size] iterations. *)
Lemma readChunk_ends o r fuel buf tid start size :
  chunk_config_ok r ->
  read_chunk_size r < half ->
  0 <= start -> 0 <= size < half -> start + size < modulus ->
  zlen buf < half ->
  (Z.to_nat size <= fuel)%nat ->
  w_exit (readChunk o r fuel buf tid start size) <> Timeout.
Proof.
  intros (Hrcs & Hdirect) Hhalf Hstart Hsize Hfit Hbuf Hfuel.
  unfold readChunk.
  destruct (os_open_fails o tid); [discriminate|].
  destruct (use_odirect r).
  - destruct (os_temp_alloc_fails o tid); [discriminate|].
    destruct (Hdirect eq_refl) as (Hbs & Hdiv & _).
    pose proof (aligned_loop_ends (os_pread o tid) (block_size r)
                  (read_chunk_size r) start size Hbs ltac:(lia) Hdiv Hstart
                  ltac:(lia) Hfit fuel
                  (mkChunk 0 start buf
                     (uninit (os_temp_heap o tid) (read_chunk_size r)) O []))
      as Hends.
    destruct (aligned_loop _ _ _ _ _ _) as [e s].
    cbn [w_exit]. intros Hc. apply completion_line_timeout in Hc. revert Hc.
    apply Hends.
    + split; [cbn; lia|]. split; [cbn; lia|]. cbn. apply zlen_uninit. lia.
    + cbn. lia.
  - pose proof (buffered_loop_ends (os_pread o tid) (read_chunk_size r)
                  size (zlen buf)
                  ltac:(pose proof half_lt_modulus; unfold half, modulus in *; lia)
                  fuel (mkChunk 0 start buf [] O [])) as Hends.
    destruct (buffered_loop _ _ _ _ _) as [e s].
    cbn [w_exit]. intros Hc. apply completion_line_timeout in Hc. revert Hc.
    apply Hends.
    + split; [cbn; lia|]. split; [cbn; lia|]. reflexivity.
    + cbn. lia.
Qed.

(** X4.  With a positive chunk size below 2^63 (in O_DIRECT mode a
    multiple of the block size), a worker ends within [section_size]
    iterations of its loop, whatever the operating system answers: it never
    retries without progress. *)
Theorem worker_always_ends o r fuel buf tid start size :
  chunk_config_ok r ->
  read_chunk_size r < half ->
  0 <= start -> 0 <= size < half -> start + size < modulus ->
  zlen buf < half ->
  (Z.to_nat size <= fuel)%nat ->
  w_exit (readChunk o r fuel buf tid start size) <> Timeout.
Proof.
  intros Hcfg Hhalf Hstart Hsize Hfit Hbuf Hfuel.
  exact (readChunk_ends o r fuel buf tid start size
                        Hcfg Hhalf Hstart Hsize Hfit Hbuf Hfuel).
Qed.

Lemma worker_always_ends_witness :
  w_exit (readChunk short_os short_reader 10 (zeros 8200) 1 4100 10)
  <> Timeout.
Proof.
  apply (worker_always_ends short_os short_reader 10 (zeros 8200) 1 4100 10).
  - split; [cbn; lia|]. intros _. cbn.
    split; [lia|]. split; [exists 1; reflexivity | unfold modulus; lia].
  - unfold half. cbn. lia.
  - lia.
  - unfold half. lia.
  - unfold modulus. lia.
  - unfold zlen, zeros, half. rewrite repeat_length. lia.
  - lia.
Defined.

Lemma read_threads_never_diverge o r fuel ps : forall buf,
  chunk_config_ok r ->
  read_chunk_size r < half ->
  zlen buf < half ->
  Forall (in_file (zlen buf)) ps ->
  (Z.to_nat (zlen buf) <= fuel)%nat ->
  read_threads o r fuel ps buf <> Diverged.
Proof.
  induction ps as [|p ps IH]; intros buf Hcfg Hhalf Hbuf Hps Hfuel;
    [discriminate|].
  inversion Hps as [|p' ps' (Hs & Hl & Hin) Hps']; subst.
  cbn [read_threads].
  pose proof half_lt_modulus as Hhm.
  pose proof (readChunk_ends o r fuel buf (part_id p) (part_start p)
                (part_len p) Hcfg Hhalf Hs ltac:(lia) ltac:(lia) Hbuf
                ltac:(lia)) as Hends.
  destruct (readChunk_frame o r fuel buf (part_id p) (part_start p)
                            (part_len p) Hs) as (Hlen & _).
  set (w := readChunk o r fuel buf (part_id p) (part_start p) (part_len p))
    in *.
  assert (Hrest : read_threads o r fuel ps (w_buffer w) <> Diverged).
  { apply IH; rewrite ?Hlen; assumption. }
  destruct (w_exit w); try discriminate; try contradiction;
    (destruct (read_threads o r fuel ps (w_buffer w)); cbn [bind];
     [discriminate | discriminate | discriminate | contradiction
     | discriminate]).
Qed.

Lemma read_never_diverges o r fuel :
  chunk_config_ok r ->
  read_chunk_size r < half ->
  1 <= file_size r < half ->
  1 <= num_threads r < modulus ->
  (Z.to_nat (file_size r) <= fuel)%nat ->
  read o r fuel <> Diverged.
Proof.
  intros Hcfg Hhalf Hf Ht Hfuel. pose proof half_lt_modulus as Hhm.
  destruct (read_cases o r fuel) as [-> | [-> | ->]];
    [| discriminate | discriminate].
  unfold read_phases, allocate.
  destruct (os_alloc_fails o); [discriminate|].
  cbn [bind].
  rewrite zero_fill_zeroes by (rewrite ?zlen_uninit; lia).
  cbn [bind]. unfold read_phase.
  destruct (partitions_shape (file_size r) (num_threads r) ltac:(lia) Ht)
    as (-> & Hcont & Hsum).
  assert (Hz : zlen (zeros (file_size r)) = file_size r)
    by (apply zlen_zeros; lia).
  pose proof (read_threads_never_diverge o r fuel
                (spec_partitions (file_size r) (num_threads r))
                (zeros (file_size r)) Hcfg Hhalf ltac:(lia)) as Hnd.
  rewrite Hz in Hnd.
  specialize (Hnd (contiguous_in_file _ 0 (file_size r) ltac:(lia) Hcont
                     ltac:(lia)) Hfuel).
  destruct (read_threads o r fuel _ _); cbn [bind];
    [discriminate | discriminate | discriminate | contradiction
    | discriminate].
Qed.

(** X5.  With a positive chunk size below 2^63 (in O_DIRECT mode a
    multiple of the block size) and a file smaller than 2^63 bytes,
    [read()] comes to an end, whatever the operating system answers to the
    workers: [file_size] iterations per worker are enough. *)
Theorem read_always_ends o r fuel :
  chunk_config_ok r ->
  read_chunk_size r < half ->
  1 <= file_size r < half ->
  1 <= num_threads r < modulus ->
  (Z.to_nat (file_size r) <= fuel)%nat ->
  read o r fuel <> Diverged.
Proof.
  intros Hcfg Hhalf Hf Ht Hfuel.
  exact (read_never_diverges o r fuel Hcfg Hhalf Hf Ht Hfuel).
Qed.

Lemma read_always_ends_witness :
  read flaky_os sample_reader 20 <> Diverged.
Proof.
  apply (read_always_ends flaky_os sample_reader 20).
  - split; [cbn; lia|]. intros H. discriminate H.
  - unfold half. cbn. lia.
  - unfold half. cbn. lia.
  - unfold modulus. cbn. lia.
  - cbn. lia.
Defined.

(** ** A chunk size of 0 in O_DIRECT mode *)

Section ZeroChunk.

Variable pread : nat -> Z -> Z -> io_result.
Variables bs start size : Z.
Variable buf : list byte.

Hypothesis Hbs : 0 < bs < modulus.
Hypothesis Hreads : empty_reads_succeed pread.
Hypothesis Hstart : in_range start.
Hypothesis Haligned : (bs | start).
Hypothesis Hbuf : start <= zlen buf.

Lemma aligned_step_stuck s :
  stuck_inv start buf s ->
  exists s', aligned_step pread bs 0 size s = Next s' /\ stuck_inv start buf s'.
Proof.
  intros (Hd & Ho & Hb & Ht). unfold aligned_step.
  replace (bs =? 0) with false by (symmetry; apply Z.eqb_neq; lia).
  rewrite Hd, Ho, Hb, Ht.
  assert (Hao : aligned_offset_of bs start = start).
  { unfold aligned_offset_of. destruct Haligned as [m Hm].
    rewrite Hm, Z.div_mul by lia. apply mul_small. rewrite <- Hm. exact Hstart. }
  rewrite Hao.
  assert (Hoib : sub start start = 0)
    by (unfold sub; rewrite Z.sub_diag; reflexivity).
  rewrite Hoib.
  assert (Hbtr : forall rem, bytes_to_read_of bs 0 0 rem = 0).
  { intros rem. unfold bytes_to_read_of.
    destruct (wrap_range (rem + 0)) as [H0 _]. fold (add rem 0) in H0.
    rewrite Z.min_l by exact H0.
    rewrite sub_add_one, wrap_small by (unfold in_range; lia).
    rewrite Z.div_small by lia. reflexivity. }
  rewrite Hbtr, Hreads.
  assert (Hbtc : forall rem, 0 <= rem -> bytes_to_copy_of (zlen (@nil byte)) 0 rem = 0).
  { intros rem Hrem. unfold bytes_to_copy_of. cbn. lia. }
  destruct (wrap_range (size - 0)) as [Hrem _]. fold (sub size 0) in Hrem.
  rewrite (Hbtc _ Hrem).
  replace (zlen (splice (@nil byte) 0 []) <? 0 + 0) with false by reflexivity.
  replace (zlen buf <? start + 0) with false
    by (symmetry; apply Z.ltb_ge; lia).
  cbn [orb]. change (zlen (@nil byte)) with 0.
  change (0 <? to_signed 0) with false. cbv iota.
  change (0 <? 0) with false. cbv iota.
  eexists. split; [reflexivity|].
  split; [reflexivity|].
  split; [cbn; unfold add; rewrite Z.add_0_r; apply wrap_small; exact Hstart|].
  split; [cbn [cs_buffer]; rewrite slice_nil; apply splice_nil;
          unfold in_range in Hstart; lia
         | reflexivity].
Qed.

Lemma aligned_loop_stuck fuel : forall s,
  0 < size -> stuck_inv start buf s ->
  exists s', aligned_loop pread bs 0 size fuel s = (Timeout, s')
             /\ stuck_inv start buf s'.
Proof.
  induction fuel as [|fuel IH]; intros s Hsize Hinv;
    pose proof Hinv as (Hd & _); cbn [aligned_loop]; rewrite Hd;
    replace (0 <? size) with true by (symmetry; apply Z.ltb_lt; lia).
  - exists s. split; [reflexivity | exact Hinv].
  - destruct (aligned_step_stuck s Hinv) as (s' & -> & Hinv').
    exact (IH s' Hsize Hinv').
Qed.

End ZeroChunk.

Lemma readChunk_stuck o r fuel buf tid start size :
  use_odirect r = true ->
  read_chunk_size r = 0 ->
  0 < block_size r < modulus ->
  os_open_fails o tid = false ->
  os_temp_alloc_fails o tid = false ->
  empty_reads_succeed (os_pread o tid) ->
  in_range start -> (block_size r | start) -> start <= zlen buf ->
  0 < size ->
  let w := readChunk o r fuel buf tid start size in
  w_exit w = Timeout /\ w_completed w = 0 /\ w_buffer w = buf.
Proof.
  intros Hd Hrcs Hbs Hopen Halloc Hreads Hstart Hal Hbuf Hsize.
  unfold readChunk. rewrite Hopen, Hd, Halloc, Hrcs.
  destruct (aligned_loop_stuck (os_pread o tid) (block_size r) start size buf
              Hbs Hreads Hstart Hal Hbuf fuel
              (mkChunk 0 start buf (uninit (os_temp_heap o tid) 0) O [])
              Hsize ltac:(repeat split))
    as (s' & -> & (Hd' & _ & Hb' & _)).
  cbn. auto.
Qed.

(** X6.  In O_DIRECT mode with [read_chunk_size = 0], a worker whose
    section is not empty and starts on a block boundary never leaves its
    loop when reads of 0 bytes succeed: every iteration asks for 0 bytes,
    copies nothing and is not taken for a short read.  However many
    iterations it is given, it has completed no byte and left the buffer as
    it was. *)
Theorem direct_worker_with_zero_chunk_never_ends
        o r fuel buf tid start size :
  use_odirect r = true ->
  read_chunk_size r = 0 ->
  0 < block_size r < modulus ->
  os_open_fails o tid = false ->
  os_temp_alloc_fails o tid = false ->
  empty_reads_succeed (os_pread o tid) ->
  in_range start -> (block_size r | start) -> start <= zlen buf ->
  0 < size ->
  let w := readChunk o r fuel buf tid start size in
  w_exit w = Timeout /\ w_completed w = 0 /\ w_buffer w = buf.
Proof.
  intros Hd Hrcs Hbs Hopen Halloc Hreads Hstart Hal Hbuf Hsize.
  exact (readChunk_stuck o r fuel buf tid start size
                         Hd Hrcs Hbs Hopen Halloc Hreads Hstart Hal Hbuf Hsize).
Qed.

Lemma ideal_empty_reads contents :
  empty_reads_succeed (fun _ => ideal_pread contents).
Proof. intros k off. reflexivity. Qed.

Lemma direct_worker_with_zero_chunk_never_ends_witness :
  let w := readChunk sample_os (mkReader "f" 11 None 3 0 4096 true) 50
                     (zeros 11) 0 0 3 in
  w_exit w = Timeout /\ w_completed w = 0 /\ w_buffer w = zeros 11.
Proof.
  apply (direct_worker_with_zero_chunk_never_ends sample_os
           (mkReader "f" 11 None 3 0 4096 true) 50 (zeros 11) 0 0 3).
  - reflexivity.
  - reflexivity.
  - unfold modulus. cbn. lia.
  - reflexivity.
  - reflexivity.
  - apply (ideal_empty_reads sample_file).
  - unfold in_range, modulus. lia.
  - exists 0. reflexivity.
  - unfold zlen, zeros. rewrite repeat_length. lia.
  - lia.
Defined.

Lemma constructor_wraps_to_zero o fname threads chunk r :
  modulus - 4096 < chunk < modulus ->
  ParallelFileReader o fname threads chunk true = Returned r ->
  read_chunk_size r = 0.
Proof.
  intros Hc. unfold ParallelFileReader.
  destruct (getFileSize o fname =? 0); [discriminate|].
  intros H. injection H as <-. cbn [read_chunk_size andb].
  rewrite modulus_blocks in Hc.
  assert (Hmod : chunk mod 4096 <> 0).
  { intros Hm. apply Z.mod_divide in Hm; [|lia]. destruct Hm as [m Hm]. lia. }
  apply Z.eqb_neq in Hmod. rewrite Hmod. cbn [negb].
  rewrite sub_add_one. unfold wrap. rewrite modulus_blocks.
  replace (chunk + 4096 - 1)
    with ((chunk + 4095 - 4503599627370496 * 4096)
          + 1 * (4503599627370496 * 4096)) by lia.
  rewrite Z.mod_add by lia. rewrite (Z.mod_small (chunk + 4095 - _)) by lia.
  rewrite Z.div_small by lia. reflexivity.
Qed.

(** X7.  In O_DIRECT mode the constructor turns every chunk size above
    [2^64 - 4096] into a [read_chunk_size] of 0: the sum of line 166 wraps
    and the quotient is 0. *)
Theorem constructor_wraps_large_chunk_size_to_zero o fname threads chunk r :
  modulus - 4096 < chunk < modulus ->
  ParallelFileReader o fname threads chunk true = Returned r ->
  read_chunk_size r = 0.
Proof.
  intros Hc Hr. exact (constructor_wraps_to_zero o fname threads chunk r Hc Hr).
Qed.

Lemma constructor_wraps_large_chunk_size_to_zero_witness :
  exists r,
    ParallelFileReader sample_os "f" 3 18446744073709551615 true = Returned r
    /\ read_chunk_size r = 0.
Proof.
  exists (mkReader "f" 11 None 3 0 4096 true).
  assert (Hr : ParallelFileReader sample_os "f" 3 18446744073709551615 true
               = Returned (mkReader "f" 11 None 3 0 4096 true)) by reflexivity.
  split; [exact Hr|].
  apply (constructor_wraps_large_chunk_size_to_zero sample_os "f" 3
           18446744073709551615 _ ltac:(unfold modulus; lia) Hr).
Defined.

Lemma readChunk_empty_section_traps o r fuel buf tid start :
  read_chunk_size r = 0 ->
  os_open_fails o tid = false ->
  os_temp_alloc_fails o tid = false ->
  w_exit (readChunk o r fuel buf tid start 0) = Crashed.
Proof.
  intros Hrcs Hopen Halloc. unfold readChunk. rewrite Hopen, Halloc.
  destruct (use_odirect r); destruct fuel; cbn [aligned_loop buffered_loop
    cs_done Z.ltb Z.compare w_exit];
    (apply completion_line_zero; [exact Hrcs | discriminate ..]).
Qed.

Section WrappedChunk.

Variable o : os.
Variable r : reader.
Variable fuel : nat.

Hypothesis Hd : use_odirect r = true.
Hypothesis Hrcs : read_chunk_size r = 0.
Hypothesis Hbs : 0 < block_size r < modulus.
Hypothesis Hopen : forall tid, os_open_fails o tid = false.
Hypothesis Halloc : forall tid, os_temp_alloc_fails o tid = false.
Hypothesis Hreads : forall tid, empty_reads_succeed (os_pread o tid).

(** The worker of a section at offset 0 never leaves its loop, or divides
    by zero in its completion line when the section is empty. *)
Lemma read_threads_never_return p ps buf :
  part_start p = 0 -> 0 <= part_len p ->
  read_threads o r fuel (p :: ps) buf = Diverged
  \/ read_threads o r fuel (p :: ps) buf = Undefined.
Proof.
  intros Hs Hl. cbn [read_threads]. rewrite Hs.
  destruct (Z.eq_dec (part_len p) 0) as [Hz|Hnz].
  - rewrite Hz.
    rewrite (readChunk_empty_section_traps o r fuel buf (part_id p) 0 Hrcs
               (Hopen _) (Halloc _)).
    right. reflexivity.
  - destruct (readChunk_stuck o r fuel buf (part_id p) 0 (part_len p)
                Hd Hrcs Hbs (Hopen _) (Halloc _) (Hreads _))
      as (-> & _ & Hb).
    + unfold in_range, modulus. lia.
    + exists 0. reflexivity.
    + apply zlen_nonneg.
    + lia.
    + destruct (read_threads o r fuel ps _); auto.
Qed.

Lemma read_threads_single_hangs p buf :
  part_start p = 0 -> 0 < part_len p ->
  read_threads o r fuel [p] buf = Diverged.
Proof.
  intros Hs Hl. cbn [read_threads]. rewrite Hs.
  destruct (readChunk_stuck o r fuel buf (part_id p) 0 (part_len p)
              Hd Hrcs Hbs (Hopen _) (Halloc _) (Hreads _))
    as (-> & _ & Hb).
  - unfold in_range, modulus. lia.
  - exists 0. reflexivity.
  - apply zlen_nonneg.
  - exact Hl.
  - reflexivity.
Qed.

End WrappedChunk.

Lemma spec_partitions_head fsize nthreads :
  0 <= fsize -> 1 <= nthreads ->
  exists p ps,
    spec_partitions fsize nthreads = p :: ps
    /\ part_start p = 0 /\ 0 <= part_len p
    /\ (nthreads = 1 -> ps = [] /\ part_len p = fsize).
Proof.
  intros Hf Ht. unfold spec_partitions.
  destruct (Z.to_nat nthreads) as [|n] eqn:En; [lia|].
  pose proof (Z.div_pos fsize nthreads ltac:(lia) ltac:(lia)) as Hbase.
  pose proof (Z.mod_pos_bound fsize nthreads ltac:(lia)) as Hrem.
  exists (spec_partition fsize nthreads O),
         (map (spec_partition fsize nthreads) (seq 1 n)).
  split; [reflexivity|]. split; [reflexivity|]. split.
  - unfold spec_partition, part_len. cbn [snd].
    destruct (Z.of_nat 0 =? nthreads - 1); lia.
  - intros H1. assert (n = O) by lia. subst n nthreads. split; [reflexivity|].
    unfold spec_partition, part_len. cbn [snd Z.of_nat Z.sub Z.eqb Z.opp
                                           Z.add Z.pos_sub].
    rewrite Z.div_1_r, Z.mod_1_r. lia.
Qed.

Lemma read_after_chunk_size_wraps o fname threads chunk r fuel :
  modulus - 4096 < chunk < modulus ->
  1 <= threads < modulus ->
  ParallelFileReader o fname threads chunk true = Returned r ->
  os_alloc_fails o = false ->
  (forall i, os_memset_thread_fails o i = false) ->
  (forall i, os_thread_fails o i = false) ->
  (forall tid, os_open_fails o tid = false) ->
  (forall tid, os_temp_alloc_fails o tid = false) ->
  (forall tid, empty_reads_succeed (os_pread o tid)) ->
  (read o r fuel = Diverged \/ read o r fuel = Undefined)
  /\ (threads = 1 -> read o r fuel = Diverged).
Proof.
  intros Hc Ht Hr Halloc Hms Hts Hopen Htemp Hreads.
  pose proof (constructor_wraps_to_zero _ _ _ _ _ Hc Hr) as Hrcs.
  destruct (constructor_chunk_size o fname threads chunk r
              ltac:(unfold in_range, modulus in *; lia) Hr) as (Hbs & Hd & _).
  destruct (constructor_fields _ _ _ _ _ _ Hr) as (_ & Hn & _ & Hfs & Hne).
  assert (Hsz : 1 <= file_size r < modulus).
  { assert (in_range (file_size r)) as [H0 H1].
    { rewrite Hfs. unfold getFileSize.
      destruct (os_stat o fname); [apply wrap_range|].
      unfold in_range, modulus. lia. }
    lia. }
  assert (Hbs' : 0 < block_size r < modulus)
    by (rewrite Hbs; unfold modulus; lia).
  rewrite (read_started o r fuel Hms Hts).
  unfold read_phases, allocate. rewrite Halloc. cbn [bind].
  rewrite zero_fill_zeroes by (rewrite ?zlen_uninit, ?Hn; lia).
  cbn [bind]. unfold read_phase.
  destruct (partitions_shape (file_size r) (num_threads r) ltac:(lia)
              ltac:(rewrite Hn; lia)) as (-> & _).
  destruct (spec_partitions_head (file_size r) (num_threads r)
              ltac:(lia) ltac:(rewrite Hn; lia))
    as (p & ps & -> & Hs & Hl & Hone).
  split.
  - destruct (read_threads_never_return o r fuel Hd Hrcs Hbs' Hopen Htemp
                Hreads p ps (zeros (file_size r)) Hs Hl) as [-> | ->];
      [left | right]; reflexivity.
  - intros H1. destruct (Hone ltac:(lia)) as (-> & Hlen).
    rewrite (read_threads_single_hangs o r fuel Hd Hrcs Hbs' Hopen Htemp
               Hreads p (zeros (file_size r)) Hs ltac:(lia)).
    reflexivity.
Qed.

(** X8.  When the constructor has been given, in O_DIRECT mode, a chunk
    size above [2^64 - 4096], [read()] never returns and never throws, on
    an operating system where nothing fails (allocations, thread starts,
    opens) and reads of 0 bytes succeed: the worker of the first partition
    either never leaves its loop or, when its section is empty, divides by
    zero in its completion line; the call then waits for ever unless the
    undefined behaviour of some worker ends it.  With one thread it waits
    for ever. *)
Theorem read_never_returns_after_chunk_size_wraps
        o fname threads chunk r fuel :
  modulus - 4096 < chunk < modulus ->
  1 <= threads < modulus ->
  ParallelFileReader o fname threads chunk true = Returned r ->
  os_alloc_fails o = false ->
  (forall i, os_memset_thread_fails o i = false) ->
  (forall i, os_thread_fails o i = false) ->
  (forall tid, os_open_fails o tid = false) ->
  (forall tid, os_temp_alloc_fails o tid = false) ->
  (forall tid, empty_reads_succeed (os_pread o tid)) ->
  (read o r fuel = Diverged \/ read o r fuel = Undefined)
  /\ (threads = 1 -> read o r fuel = Diverged).
Proof.
  intros Hc Ht Hr Halloc Hms Hts Hopen Htemp Hreads.
  exact (read_after_chunk_size_wraps o fname threads chunk r fuel
           Hc Ht Hr Halloc Hms Hts Hopen Htemp Hreads).
Qed.

Lemma read_never_returns_after_chunk_size_wraps_witness :
  exists r,
    ParallelFileReader sample_os "f" 1 18446744073709551615 true = Returned r
    /\ (read sample_os r 50 = Diverged \/ read sample_os r 50 = Undefined)
    /\ (1 = 1 -> read sample_os r 50 = Diverged).
Proof.
  exists (mkReader "f" 11 None 1 0 4096 true).
  assert (Hr : ParallelFileReader sample_os "f" 1 18446744073709551615 true
               = Returned (mkReader "f" 11 None 1 0 4096 true)) by reflexivity.
  split; [exact Hr|].
  apply (read_never_returns_after_chunk_size_wraps sample_os "f" 1
           18446744073709551615 _ 50 ltac:(unfold modulus; lia)
           ltac:(unfold modulus; lia) Hr).
  - reflexivity.
  - intros i. reflexivity.
  - intros i. reflexivity.
  - intros tid. reflexivity.
  - intros tid. reflexivity.
  - intros tid. apply (ideal_empty_reads sample_file).
Defined.

(** ** Regular mode on reads that may fail or fall short *)

Section BufferedPrefix.

Variable contents : list byte.
Variable pread : nat -> Z -> Z -> io_result.
Variables rcs start size : Z.
Variable buf0 : list byte.

Hypothesis Hfaithful : pread_faithful contents pread.
Hypothesis Hrcs : 0 <= rcs.
Hypothesis Hstart : 0 <= start.
Hypothesis Hin : start + size <= zlen contents.
Hypothesis Hfile : zlen contents < modulus.
Hypothesis Hbuf : start + size <= zlen buf0.

Lemma buffered_step_prefix s :
  ideal_inv contents start size buf0 (cs_done s) s -> cs_done s < size ->
  match buffered_step pread rcs size s with
  | Next s' | Break _ s' => ideal_inv contents start size buf0 (cs_done s') s'
  | Crash => True
  end.
Proof.
  intros Hinv Hlt. pose proof Hinv as (_ & Hp & Ho & Hb).
  unfold buffered_step.
  rewrite (sub_small size (cs_done s)) by (unfold in_range; lia).
  set (btr := Z.min rcs (size - cs_done s)).
  assert (Hbtr : 0 <= btr <= size - cs_done s) by (unfold btr; lia).
  destruct (pread (cs_calls s) (cs_offset s) btr) as [| |data] eqn:Ha;
    [exact Hinv | exact Hinv |].
  destruct (zlen (cs_buffer s) <? cs_offset s + zlen data); [exact I|].
  destruct (Hfaithful _ _ _ _ (proj1 Hbtr) Ha) as (Hn & Hdata).
  pose proof (zlen_nonneg data) as Hn0.
  unfold of_signed. rewrite (wrap_small (zlen data)) by (unfold in_range; lia).
  rewrite (add_small (cs_done s)) by (unfold in_range; lia).
  rewrite (add_small (cs_offset s)) by (unfold in_range; lia).
  assert (Hnew : forall s',
             cs_done s' = cs_done s + zlen data ->
             cs_offset s' = cs_offset s + zlen data ->
             cs_buffer s' = splice (cs_buffer s) (cs_offset s) data ->
             ideal_inv contents start size buf0 (cs_done s') s').
  { intros s' Hd' Ho' Hb'. rewrite Hd'.
    apply (ideal_inv_extend contents start size buf0 Hstart Hin Hbuf
             (cs_done s) (zlen data) s s' Hinv); try lia.
    rewrite Hb', Ho, Hdata at 1. rewrite Ho. reflexivity. }
  destruct ((zlen data <? to_signed btr) && (zlen data >? 0));
    [apply Hnew; reflexivity|].
  destruct (zlen data =? 0); apply Hnew; reflexivity.
Qed.

End BufferedPrefix.

Lemma readChunk_buffered_prefix contents o r fuel buf tid start size :
  use_odirect r = false ->
  0 <= read_chunk_size r ->
  pread_faithful contents (os_pread o tid) ->
  0 <= start -> 0 <= size ->
  start + size <= zlen contents -> zlen contents < modulus ->
  start + size <= zlen buf ->
  let w := readChunk o r fuel buf tid start size in
  0 <= w_completed w <= size
  /\ w_buffer w = splice buf start (slice start (w_completed w) contents).
Proof.
  intros Hd Hrcs Hfaithful Hstart Hsize Hin Hfile Hbuf. unfold readChunk.
  rewrite Hd.
  destruct (os_open_fails o tid).
  - cbn [w_completed w_buffer]. split; [lia|].
    rewrite slice_nil. symmetry. apply splice_nil. lia.
  - pose proof (buffered_loop_invariant (os_pread o tid) (read_chunk_size r)
                  size
                  (fun s => ideal_inv contents start size buf (cs_done s) s)
                  (fun s Hi Hlt =>
                     buffered_step_prefix contents (os_pread o tid)
                       (read_chunk_size r) start size buf Hfaithful Hrcs
                       Hstart Hin Hfile Hbuf s Hi Hlt)
                  fuel (mkChunk 0 start buf [] O [])
                  (ideal_inv_init contents start size buf Hstart Hsize []))
      as Hinv.
    destruct (buffered_loop _ _ _ _ _) as [e s].
    destruct Hinv as (_ & Hp & _ & Hb). split; assumption.
Qed.

(** X9.  In regular mode, when what the reads deliver is what the file
    holds (they may fail, and deliver fewer bytes than asked for), the count
    a worker reports is truthful however the worker ends: the first
    [bytes_completed] bytes of its section hold the bytes of the file, and
    the rest of the buffer is as it was. *)
Theorem buffered_worker_reports_a_true_prefix
        contents o r fuel buf tid start size :
  use_odirect r = false ->
  0 < read_chunk_size r ->
  pread_faithful contents (os_pread o tid) ->
  0 <= start -> 0 <= size ->
  start + size <= zlen contents -> zlen contents < modulus ->
  start + size <= zlen buf ->
  let w := readChunk o r fuel buf tid start size in
  0 <= w_completed w <= size
  /\ w_buffer w = splice buf start (slice start (w_completed w) contents).
Proof.
  intros Hd Hrcs Hfaithful Hstart Hsize Hin Hfile Hbuf.
  exact (readChunk_buffered_prefix contents o r fuel buf tid start size
           Hd ltac:(lia) Hfaithful Hstart Hsize Hin Hfile Hbuf).
Qed.

Lemma firstn_length_firstn {A} (n : nat) (l : list A) :
  firstn (length (firstn n l)) l = firstn n l.
Proof.
  rewrite length_firstn.
  destruct (Nat.le_ge_cases n (length l)) as [H|H].
  - rewrite Nat.min_l by exact H. reflexivity.
  - rewrite Nat.min_r by exact H. rewrite !firstn_all2; [reflexivity | lia | lia].
Qed.

Lemma ideal_pread_faithful contents :
  pread_faithful contents (fun _ => ideal_pread contents).
Proof.
  intros k off count data Hc H. injection H as <-.
  split; [apply zlen_slice_le; exact Hc|].
  unfold slice, zlen. rewrite Nat2Z.id. symmetry. apply firstn_length_firstn.
Qed.

Lemma buffered_worker_reports_a_true_prefix_witness :
  let w := readChunk flaky_os sample_reader 20 (zeros 11) 2 6 5 in
  0 <= w_completed w <= 5
  /\ w_buffer w = splice (zeros 11) 6 (slice 6 (w_completed w) sample_file).
Proof.
  apply (buffered_worker_reports_a_true_prefix sample_file flaky_os
           sample_reader 20 (zeros 11) 2 6 5).
  - reflexivity.
  - cbn. lia.
  - apply (ideal_pread_faithful sample_file).
  - lia.
  - lia.
  - sample_arith.
  - sample_arith.
  - sample_arith.
Defined.

(** A worker whose count is truthful: the first [bytes_completed] bytes of
    its section hold the bytes of the file, the rest of the buffer is as it
    was. *)
Lemma read_threads_prefix_pointwise contents o r fuel ps : forall buf ws final,
  (forall buf tid start size,
      0 <= start -> 0 <= size ->
      start + size <= zlen contents -> start + size <= zlen buf ->
      truthful_worker contents buf start size
                      (readChunk o r fuel buf tid start size)) ->
  Forall (in_file (zlen contents)) ps ->
  zlen buf = zlen contents ->
  read_threads o r fuel ps buf = Returned (ws, final) ->
  zlen final = zlen contents
  /\ forall i : nat,
      nth_error final i
      = if covers (completed_parts ps ws) (Z.of_nat i)
        then nth_error contents i else nth_error buf i.
Proof.
  induction ps as [|p ps IH];
    intros buf ws final Hworker Hps Hlen Hrun.
  - injection Hrun as <- <-. split; [exact Hlen|]. intros i. reflexivity.
  - inversion Hps as [|p' ps' Hp Hps']; subst.
    pose proof Hp as (Hs & Hl & Hin).
    cbn [read_threads] in Hrun.
    destruct (Hworker buf (part_id p) (part_start p) (part_len p)
                      Hs Hl Hin ltac:(lia)) as (Hc & Hwb).
    set (w := readChunk o r fuel buf (part_id p) (part_start p) (part_len p))
      in *.
    assert (Hrest : exists ws' ,
               read_threads o r fuel ps (w_buffer w) = Returned (ws', final)
               /\ ws = w :: ws').
    { destruct (w_exit w); try discriminate;
        (destruct (read_threads o r fuel ps (w_buffer w)) as [[ws' f']| | | |];
         try discriminate; cbn [bind fst snd] in Hrun;
         injection Hrun as <- <-; exists ws'; auto). }
    destruct Hrest as (ws' & Hrest & ->).
    set (done := (part_id p, part_start p, w_completed w) : partition).
    assert (Hdone : in_file (zlen contents) done)
      by (unfold in_file, done, part_start, part_len; cbn [fst snd];
          unfold part_start, part_len in *; lia).
    assert (Hwlen : zlen (w_buffer w) = zlen contents).
    { rewrite Hwb, zlen_splice; [exact Hlen | exact Hs |].
      rewrite zlen_slice; lia. }
    destruct (IH _ _ _ Hworker Hps' Hwlen Hrest) as (Hflen & Hnth).
    split; [exact Hflen|]. intros i. rewrite Hnth.
    change (completed_parts (p :: ps) (w :: ws'))
      with (done :: completed_parts ps ws').
    change (covers (done :: completed_parts ps ws') (Z.of_nat i))
      with (in_part done (Z.of_nat i)
            || covers (completed_parts ps ws') (Z.of_nat i)).
    rewrite Hwb.
    pose proof (nth_error_store_section contents buf done i Hdone Hlen) as Hst.
    change (part_start done) with (part_start p) in Hst.
    change (part_len done) with (w_completed w) in Hst.
    rewrite Hst.
    destruct (in_part done (Z.of_nat i)),
             (covers (completed_parts ps ws') (Z.of_nat i)); reflexivity.
Qed.

Lemma read_pointwise contents o r fuel r' ws :
  (forall buf tid start size,
      0 <= start -> 0 <= size ->
      start + size <= zlen contents -> start + size <= zlen buf ->
      truthful_worker contents buf start size
                      (readChunk o r fuel buf tid start size)) ->
  file_size r = zlen contents ->
  1 <= file_size r < modulus ->
  1 <= num_threads r < modulus ->
  read o r fuel = Returned (r', ws) ->
  exists final,
    r' = set_buffer r (Some final)
    /\ zlen final = file_size r
    /\ forall i : nat,
        nth_error final i
        = if covers (completed_parts
                       (spec_partitions (file_size r) (num_threads r)) ws)
                    (Z.of_nat i)
          then nth_error contents i
          else nth_error (zeros (file_size r)) i.
Proof.
  intros Hworker Hfs Hf Ht Hread. apply read_returned_phases in Hread.
  unfold read_phases in Hread.
  destruct (allocate o r) as [fresh| | | |] eqn:Ha; try discriminate.
  cbn [bind] in Hread.
  assert (Hfresh : zlen fresh = file_size r).
  { unfold allocate in Ha. destruct (os_alloc_fails o);
      [discriminate|]. injection Ha as <-. apply zlen_uninit. lia. }
  rewrite (zero_fill_zeroes r fresh Hf Ht Hfresh) in Hread.
  cbn [bind] in Hread. unfold read_phase in Hread.
  destruct (partitions_shape (file_size r) (num_threads r) ltac:(lia) Ht)
    as (Hps & Hcont & Hsum).
  rewrite Hps in Hread.
  destruct (read_threads o r fuel _ (zeros (file_size r)))
    as [[ws0 final]| | | |] eqn:Hrun; try discriminate.
  cbn [bind fst snd] in Hread. injection Hread as <- <-.
  exists final. split; [reflexivity|].
  assert (Hin : Forall (in_file (zlen contents))
                       (spec_partitions (file_size r) (num_threads r)))
    by (apply (contiguous_in_file _ 0); [lia | exact Hcont | lia]).
  assert (Hz : zlen (zeros (file_size r)) = zlen contents)
    by (rewrite zlen_zeros; lia).
  destruct (read_threads_prefix_pointwise contents o r fuel _ _ _ _
              Hworker Hin Hz Hrun) as (Hl & Hnth).
  split; [lia | exact Hnth].
Qed.

Lemma read_buffered_pointwise contents o r fuel r' ws :
  use_odirect r = false ->
  0 < read_chunk_size r ->
  (forall tid, pread_faithful contents (os_pread o tid)) ->
  file_size r = zlen contents ->
  1 <= file_size r < modulus ->
  1 <= num_threads r < modulus ->
  read o r fuel = Returned (r', ws) ->
  exists final,
    r' = set_buffer r (Some final)
    /\ zlen final = file_size r
    /\ forall i : nat,
        nth_error final i
        = if covers (completed_parts
                       (spec_partitions (file_size r) (num_threads r)) ws)
                    (Z.of_nat i)
          then nth_error contents i
          else nth_error (zeros (file_size r)) i.
Proof.
  intros Hd Hrcs Hfaithful Hfs Hf Ht Hread.
  apply (read_pointwise contents o r fuel r' ws); try assumption.
  intros buf tid start size Hstart Hsize Hin Hbuf.
  apply (readChunk_buffered_prefix contents o r fuel buf tid start size);
    try assumption; try lia. apply Hfaithful.
Qed.

(** X10.  After [read()] in regular mode, when what the reads deliver is
    what the file holds (they may fail or fall short, and [open] may fail
    for some workers): a byte of the buffer holds the byte of the file if
    it lies in the part of a section that its worker reports as completed,
    and is zero otherwise. *)
Theorem buffered_read_loads_what_workers_report
        contents o r fuel r' ws :
  use_odirect r = false ->
  0 < read_chunk_size r ->
  (forall tid, pread_faithful contents (os_pread o tid)) ->
  file_size r = zlen contents ->
  1 <= file_size r < modulus ->
  1 <= num_threads r < modulus ->
  read o r fuel = Returned (r', ws) ->
  exists final,
    buffer r' = Some final
    /\ zlen final = file_size r
    /\ forall i : nat,
        nth_error final i
        = if covers (completed_parts
                       (spec_partitions (file_size r) (num_threads r)) ws)
                    (Z.of_nat i)
          then nth_error contents i
          else nth_error (zeros (file_size r)) i.
Proof.
  intros Hd Hrcs Hfaithful Hfs Hf Ht Hread.
  destruct (read_buffered_pointwise contents o r fuel r' ws
              Hd Hrcs Hfaithful Hfs Hf Ht Hread) as (final & -> & Hl & Hnth).
  exists final. split; [reflexivity|]. split; assumption.
Qed.

Lemma buffered_read_loads_what_workers_report_witness :
  match read flaky_os sample_reader 20 with
  | Returned (r', ws) =>
      exists final,
        buffer r' = Some final
        /\ zlen final = 11
        /\ forall i : nat,
            nth_error final i
            = if covers (completed_parts (spec_partitions 11 3) ws)
                        (Z.of_nat i)
              then nth_error sample_file i
              else nth_error (zeros 11) i
  | _ => False
  end.
Proof.
  destruct (read flaky_os sample_reader 20) as [[r' ws]| | | |] eqn:Hr;
    [| vm_compute in Hr; discriminate ..].
  apply (buffered_read_loads_what_workers_report sample_file flaky_os
           sample_reader 20 r' ws); try exact Hr.
  - reflexivity.
  - cbn. lia.
  - intros tid. apply (ideal_pread_faithful sample_file).
  - reflexivity.
  - unfold modulus. cbn. lia.
  - unfold modulus. cbn. lia.
Defined.

(** What [verify()] compares when the stream delivers the whole file. *)
Lemma verify_compares o vh r buf contents :
  buffer r = Some buf ->
  zlen buf = file_size r ->
  zlen contents = file_size r ->
  0 <= file_size r < half ->
  os_ifstream o (filename r) = Some contents ->
  verify o vh r = Returned (bytes_eqb buf contents).
Proof.
  intros Hbuf Hlen Hclen Hfs Hstream. unfold verify. rewrite Hstream, Hbuf.
  rewrite to_signed_small by lia.
  rewrite (firstn_all2 contents) by (unfold zlen in Hclen; lia).
  replace (zlen contents =? file_size r) with true
    by (symmetry; apply Z.eqb_eq; lia).
  replace (zlen buf <? file_size r) with false
    by (symmetry; apply Z.ltb_ge; lia).
  f_equal. unfold memcmp_eq.
  rewrite splice_whole by (rewrite zlen_uninit; lia).
  rewrite (firstn_all2 buf) by (unfold zlen in Hlen; lia).
  rewrite (firstn_all2 contents) by (unfold zlen in Hclen; lia).
  reflexivity.
Qed.

(** X11.  After [read()] in regular mode on such an operating system,
    [verify()] returns [true] exactly when every byte of the file outside
    the parts that the workers report as completed is zero: an incomplete
    read goes unnoticed only where the bytes that are missing are zero in
    the file. *)
Theorem verify_detects_incomplete_reads contents o vh r fuel r' ws :
  use_odirect r = false ->
  0 < read_chunk_size r ->
  (forall tid, pread_faithful contents (os_pread o tid)) ->
  os_ifstream o (filename r) = Some contents ->
  file_size r = zlen contents ->
  1 <= file_size r < half ->
  1 <= num_threads r < modulus ->
  read o r fuel = Returned (r', ws) ->
  (exists ok, verify o vh r' = Returned ok)
  /\ (verify o vh r' = Returned true
      <-> forall i : nat,
          Z.of_nat i < file_size r ->
          covers (completed_parts
                    (spec_partitions (file_size r) (num_threads r)) ws)
                 (Z.of_nat i) = false ->
          nth_error contents i = Some x00).
Proof.
  intros Hd Hrcs Hfaithful Hstream Hfs Hf Ht Hread.
  pose proof half_lt_modulus as Hhm.
  destruct (read_buffered_pointwise contents o r fuel r' ws
              Hd Hrcs Hfaithful Hfs ltac:(lia) Ht Hread)
    as (final & -> & Hl & Hnth).
  rewrite (verify_compares o vh (set_buffer r (Some final)) final contents)
    by (cbn [set_buffer buffer file_size filename]; try reflexivity;
        try lia; exact Hstream).
  split; [eexists; reflexivity|].
  split.
  - intros H. injection H as H. apply bytes_eqb_eq in H. subst final.
    intros i Hi Hcov. specialize (Hnth i). rewrite Hcov in Hnth.
    rewrite Hnth. apply nth_error_zeros. exact Hi.
  - intros Hzero. f_equal. apply bytes_eqb_eq.
    apply nth_error_ext. intros i. rewrite Hnth.
    destruct (covers _ (Z.of_nat i)) eqn:Hcov; [reflexivity|].
    destruct (Z.lt_ge_cases (Z.of_nat i) (file_size r)) as [Hi|Hi].
    + rewrite (Hzero i Hi Hcov). apply nth_error_zeros. exact Hi.
    + unfold zlen in *.
      rewrite (proj2 (nth_error_None contents i)) by lia.
      apply nth_error_None. unfold zeros. rewrite repeat_length. lia.
Qed.

Lemma verify_detects_incomplete_reads_witness :
  match read flaky_os sample_reader 20 with
  | Returned (r', ws) =>
      verify flaky_os (fun _ => xdd) r' = Returned false
  | _ => False
  end.
Proof.
  destruct (read flaky_os sample_reader 20) as [[r' ws]| | | |] eqn:Hr;
    [| vm_compute in Hr; discriminate ..].
  destruct (verify_detects_incomplete_reads sample_file flaky_os
              (fun _ => xdd) sample_reader 20 r' ws) as ([ok Hok] & Hiff);
    try exact Hr.
  - reflexivity.
  - cbn. lia.
  - intros tid. apply (ideal_pread_faithful sample_file).
  - reflexivity.
  - reflexivity.
  - unfold half. cbn. lia.
  - unfold modulus. cbn. lia.
  - destruct ok; [|exact Hok].
    pose proof (proj1 Hiff Hok 4%nat) as H4.
    vm_compute in Hr. injection Hr as _ <-.
    specialize (H4 ltac:(cbn; lia) eq_refl). discriminate H4.
Defined.

(** ** O_DIRECT mode when some workers cannot start *)

Lemma aligned_step_ext p1 p2 bs rcs size s :
  (forall k off count, p1 k off count = p2 k off count) ->
  aligned_step p1 bs rcs size s = aligned_step p2 bs rcs size s.
Proof. intros H. unfold aligned_step. rewrite H. reflexivity. Qed.

Lemma aligned_loop_ext p1 p2 bs rcs size fuel : forall s,
  (forall k off count, p1 k off count = p2 k off count) ->
  aligned_loop p1 bs rcs size fuel s = aligned_loop p2 bs rcs size fuel s.
Proof.
  induction fuel as [|fuel IH]; intros s H; cbn [aligned_loop];
    [reflexivity|].
  rewrite (aligned_step_ext p1 p2 bs rcs size s H).
  destruct (cs_done s <? size); [|reflexivity].
  destruct (aligned_step p2 bs rcs size s); [apply IH; exact H | | ];
    reflexivity.
Qed.

Lemma readChunk_direct_prefix contents o r fuel buf tid start size :
  use_odirect r = true ->
  chunk_config_ok r ->
  reads_are_full contents o ->
  0 <= start -> 0 <= size ->
  start + size <= zlen contents -> zlen contents < modulus ->
  start + size <= zlen buf ->
  truthful_worker contents buf start size
                  (readChunk o r fuel buf tid start size).
Proof.
  intros Hd (Hrcs & Hdirect) Hfull Hstart Hsize Hin Hfile Hbuf.
  destruct (Hdirect Hd) as (Hbs & Hdiv & Hfit).
  unfold truthful_worker, readChunk. rewrite Hd.
  assert (Hnone : 0 <= 0 <= size
                  /\ buf = splice buf start (slice start 0 contents)).
  { split; [lia|]. rewrite slice_nil. symmetry. apply splice_nil. lia. }
  destruct (os_open_fails o tid); [exact Hnone|].
  destruct (os_temp_alloc_fails o tid); [exact Hnone|].
  rewrite (aligned_loop_ext (os_pread o tid) (fun _ => ideal_pread contents))
    by (intros k off count; apply Hfull).
  assert (Hstep : forall s,
             direct_prefix_inv contents start size buf (read_chunk_size r) s ->
             cs_done s < size ->
             match aligned_step (fun _ => ideal_pread contents) (block_size r)
                                (read_chunk_size r) size s with
             | Next s' | Break _ s' =>
                 direct_prefix_inv contents start size buf (read_chunk_size r) s'
             | Crash => True
             end).
  { intros s (Hi & Ht) Hlt.
    destruct (aligned_step_ideal contents start size buf Hstart Hin Hfile Hbuf
                (block_size r) (read_chunk_size r) Hbs Hrcs Hdiv Hfit
                (cs_done s) s Hi Ht Hlt)
      as (s' & c & _ & _ & Hinv' & Ht' & [Hn | (Hb & _)]);
      rewrite ?Hn, ?Hb; (split; [|exact Ht']);
      pose proof Hinv' as (Hd' & _); rewrite Hd'; exact Hinv'. }
  pose proof (aligned_loop_invariant (fun _ => ideal_pread contents)
                (block_size r) (read_chunk_size r) size
                (direct_prefix_inv contents start size buf (read_chunk_size r))
                Hstep) as Hloop.
  specialize (Hloop fuel
    (mkChunk 0 start buf (uninit (os_temp_heap o tid) (read_chunk_size r)) O [])
    (conj (ideal_inv_init contents start size buf Hstart Hsize _)
          (zlen_uninit (os_temp_heap o tid) (read_chunk_size r) ltac:(lia)))).
  destruct (aligned_loop _ _ _ _ _ _) as [e s].
  destruct Hloop as ((_ & Hp & _ & Hb) & _). split; assumption.
Qed.

(** X12.  After [read()] in O_DIRECT mode, when every [read] delivers all
    the bytes asked for that the file has, while [open] or the allocation
    of the scratch buffer may fail for some workers: a byte of the buffer
    holds the byte of the file if it lies in the part of a section that its
    worker reports as completed, and is zero otherwise. *)
Theorem direct_read_loads_what_workers_report contents o r fuel r' ws :
  use_odirect r = true ->
  chunk_config_ok r ->
  reads_are_full contents o ->
  file_size r = zlen contents ->
  1 <= file_size r < modulus ->
  1 <= num_threads r < modulus ->
  read o r fuel = Returned (r', ws) ->
  exists final,
    buffer r' = Some final
    /\ zlen final = file_size r
    /\ forall i : nat,
        nth_error final i
        = if covers (completed_parts
                       (spec_partitions (file_size r) (num_threads r)) ws)
                    (Z.of_nat i)
          then nth_error contents i
          else nth_error (zeros (file_size r)) i.
Proof.
  intros Hd Hcfg Hfull Hfs Hf Ht Hread.
  destruct (read_pointwise contents o r fuel r' ws) as (final & -> & Hl & Hnth);
    try assumption.
  - intros buf tid start size Hstart Hsize Hin Hbuf.
    apply (readChunk_direct_prefix contents o r fuel buf tid start size);
      try assumption. lia.
  - exists final. split; [reflexivity|]. split; assumption.
Qed.

Lemma direct_read_loads_what_workers_report_witness :
  match read flaky_os sample_direct_reader 20 with
  | Returned (r', ws) =>
      exists final,
        buffer r' = Some final
        /\ zlen final = 11
        /\ forall i : nat,
            nth_error final i
            = if covers (completed_parts (spec_partitions 11 3) ws)
                        (Z.of_nat i)
              then nth_error sample_file i
              else nth_error (zeros 11) i
  | _ => False
  end.
Proof.
  destruct (read flaky_os sample_direct_reader 20) as [[r' ws]| | | |] eqn:Hr;
    [| vm_compute in Hr; discriminate ..].
  apply (direct_read_loads_what_workers_report sample_file flaky_os
           sample_direct_reader 20 r' ws); try exact Hr.
  - reflexivity.
  - split; [cbn; lia|]. intros _. cbn.
    split; [lia|]. split; [exists 1; reflexivity | unfold modulus; lia].
  - intros tid k off count. reflexivity.
  - reflexivity.
  - unfold modulus. cbn. lia.
  - unfold modulus. cbn. lia.
Defined.

(** ** What the workers report on a file that does not change *)

Lemma readChunk_id o r fuel buf tid start size :
  w_id (readChunk o r fuel buf tid start size) = tid.
Proof.
  unfold readChunk.
  destruct (os_open_fails o tid); [reflexivity|].
  destruct (use_odirect r).
  - destruct (os_temp_alloc_fails o tid); [reflexivity|].
    destruct (aligned_loop _ _ _ _ _ _); reflexivity.
  - destruct (buffered_loop _ _ _ _ _); reflexivity.
Qed.

Lemma read_threads_ideal_reports fname contents heap temp_heap r fuel ps :
  forall buf ws final,
  zlen contents < modulus ->
  chunk_config_ok r ->
  (Z.to_nat (zlen contents) <= fuel)%nat ->
  Forall (in_file (zlen contents)) ps ->
  zlen buf = zlen contents ->
  read_threads (ideal_os fname contents heap temp_heap) r fuel ps buf
  = Returned (ws, final) ->
  Forall2 full_report ps ws.
Proof.
  induction ps as [|p ps IH];
    intros buf ws final Hfile Hcfg Hfuel Hps Hlen Hrun.
  - injection Hrun as <- _. constructor.
  - inversion Hps as [|p' ps' (Hs & Hl & Hin) Hps']; subst.
    cbn [read_threads] in Hrun.
    destruct (readChunk_ideal fname contents heap temp_heap r fuel Hfile
                Hcfg Hfuel buf (part_id p) (part_start p) (part_len p)
                Hs Hl Hin ltac:(lia)) as (Hwb & Hwc & Hwe).
    pose proof (readChunk_id (ideal_os fname contents heap temp_heap) r fuel
                  buf (part_id p) (part_start p) (part_len p)) as Hid.
    set (w := readChunk _ r fuel buf (part_id p) (part_start p) (part_len p))
      in *.
    assert (Hrest : exists ws' ,
               read_threads (ideal_os fname contents heap temp_heap) r fuel ps
                            (w_buffer w) = Returned (ws', final)
               /\ ws = w :: ws').
    { destruct (w_exit w); try discriminate;
        (destruct (read_threads _ r fuel ps (w_buffer w)) as [[ws' f']| | | |];
         try discriminate; cbn [bind fst snd] in Hrun;
         injection Hrun as <- <-; exists ws'; auto). }
    destruct Hrest as (ws' & Hrest & ->).
    constructor; [split; [exact Hid | split; [exact Hwc | exact Hwe]]|].
    apply (IH (w_buffer w) ws' final Hfile Hcfg Hfuel Hps'); [|exact Hrest].
    rewrite Hwb, zlen_splice; [exact Hlen | exact Hs |].
    rewrite zlen_slice; lia.
Qed.

Lemma full_reports_sum ps ws :
  Forall2 full_report ps ws -> sum_completed ws = sum_lengths ps.
Proof.
  induction 1 as [|p w ps ws (_ & Hc & _) _ IH]; [reflexivity|].
  cbn [sum_completed sum_lengths fold_right].
  fold (sum_completed ws). fold (sum_lengths ps). lia.
Qed.

(** X13.  On an operating system that serves a file that does not change,
    with full reads and without failures, when [read()] returns every
    partition has been read in full by its own worker: the worker of
    partition [k] has thread id [k], its bytes completed are the whole
    length of the partition, and it left its loop by the loop condition or,
    in O_DIRECT mode at the end of the file, by the short-read break.  The
    counts add up to [file_size].  (The list pairs each worker with its
    partition; it does not tell in which order the workers ran or printed
    their completion lines.) *)
Theorem workers_report_their_partitions
        fname contents heap temp_heap r fuel r' ws :
  file_size r = zlen contents ->
  1 <= file_size r < modulus ->
  1 <= num_threads r < modulus ->
  chunk_config_ok r ->
  (Z.to_nat (zlen contents) <= fuel)%nat ->
  read (ideal_os fname contents heap temp_heap) r fuel = Returned (r', ws) ->
  Forall2 full_report (spec_partitions (file_size r) (num_threads r)) ws
  /\ sum_completed ws = file_size r.
Proof.
  intros Hfs Hf Ht Hcfg Hfuel Hread. apply read_returned_phases in Hread.
  unfold read_phases in Hread.
  destruct (allocate _ r) as [fresh| | | |] eqn:Ha; try discriminate.
  cbn [bind] in Hread.
  assert (Hfresh : zlen fresh = file_size r).
  { unfold allocate in Ha. destruct (os_alloc_fails _);
      [discriminate|]. injection Ha as <-. apply zlen_uninit. lia. }
  rewrite (zero_fill_zeroes r fresh Hf Ht Hfresh) in Hread.
  cbn [bind] in Hread. unfold read_phase in Hread.
  destruct (partitions_shape (file_size r) (num_threads r) ltac:(lia) Ht)
    as (Hps & Hcont & Hsum).
  rewrite Hps in Hread.
  destruct (read_threads _ r fuel _ (zeros (file_size r)))
    as [[ws0 final]| | | |] eqn:Hrun; try discriminate.
  cbn [bind fst snd] in Hread. injection Hread as _ <-.
  assert (Hin : Forall (in_file (zlen contents))
                       (spec_partitions (file_size r) (num_threads r)))
    by (apply (contiguous_in_file _ 0); [lia | exact Hcont | lia]).
  assert (Hz : zlen (zeros (file_size r)) = zlen contents)
    by (rewrite zlen_zeros; lia).
  pose proof (read_threads_ideal_reports fname contents heap temp_heap r fuel
                _ _ _ _ ltac:(lia) Hcfg Hfuel Hin Hz Hrun) as Hall.
  split; [exact Hall|].
  rewrite (full_reports_sum _ _ Hall). exact Hsum.
Qed.

Lemma workers_report_their_partitions_witness :
  match read sample_os sample_direct_reader 20 with
  | Returned (r', ws) =>
      Forall2 full_report (spec_partitions 11 3) ws /\ sum_completed ws = 11
  | _ => False
  end.
Proof.
  destruct (read sample_os sample_direct_reader 20) as [[r' ws]| | | |] eqn:Hr;
    [| vm_compute in Hr; discriminate ..].
  apply (workers_report_their_partitions "f"%string sample_file
           (fun _ => xff) (fun _ _ => xee) sample_direct_reader 20 r' ws);
    try exact Hr.
  - reflexivity.
  - unfold modulus. cbn. lia.
  - unfold modulus. cbn. lia.
  - split; [cbn; lia|]. intros _. cbn.
    split; [lia|]. split; [exists 1; reflexivity | unfold modulus; lia].
  - sample_arith.
Defined.

(** ** [main] *)

Lemma read_throws_when_alloc_fails o r fuel :
  os_alloc_fails o = true -> exists what, read o r fuel = Thrown what.
Proof.
  intros H. unfold read, allocate. rewrite H. cbn [bind].
  eexists. reflexivity.
Qed.

Lemma constructor_throws_iff o fname threads chunk odirect :
  (exists what, ParallelFileReader o fname threads chunk odirect = Thrown what)
  <-> getFileSize o fname = 0.
Proof.
  unfold ParallelFileReader.
  destruct (getFileSize o fname =? 0) eqn:E.
  - apply Z.eqb_eq in E. split; [intros _; exact E|].
    intros _. eexists. reflexivity.
  - apply Z.eqb_neq in E. split; [intros (what & H); discriminate H|].
    intros H. contradiction.
Qed.

Ltac exit_code_one Hmain :=
  injection Hmain as <-; cbn;
  split; [right; reflexivity|];
  split; [split; [discriminate | intros (ok & H); discriminate H]
         | intros _; reflexivity].

Lemma main_exit_code_cases (stoul : string -> option Z) hw o vh fuel argv p :
  main stoul hw o vh fuel argv = Returned p ->
  (exit_code p = 0 \/ exit_code p = 1)
  /\ (exit_code p = 0 <-> exists ok, verified p = Some ok)
  /\ (parse_args stoul hw argv = Usage
      \/ parse_args stoul hw argv = BadNumber
      \/ (exists fname t c d,
             parse_args stoul hw argv = Parsed fname t c d
             /\ (getFileSize o fname = 0 \/ os_alloc_fails o = true)) ->
      exit_code p = 1).
Proof.
  unfold main. intros Hmain.
  destruct (parse_args stoul hw argv) as [| |fname t c d] eqn:Hparse;
    [exit_code_one Hmain | exit_code_one Hmain |].
  destruct (ParallelFileReader o fname (coerce_threads t) (coerce_chunk c) d)
    as [r| what | | |] eqn:Hc; try discriminate;
    [|exit_code_one Hmain].
  destruct (read o r fuel) as [[r1 ws]| what | | |] eqn:Hr; try discriminate;
    [|exit_code_one Hmain].
  destruct (verify o vh r1) as [ok| what | | |] eqn:Hv; try discriminate;
    [|exit_code_one Hmain].
  injection Hmain as <-. cbn.
  split; [left; reflexivity|]. split.
  - split; [intros _; eexists; reflexivity | reflexivity].
  - intros [H|[H|(f' & t' & c' & d' & H & [Hz|Ha])]]; try discriminate H;
      injection H as <- <- <- <-; exfalso.
    + destruct (proj2 (constructor_throws_iff o fname (coerce_threads t)
                         (coerce_chunk c) d) Hz) as (what & Hw).
      congruence.
    + destruct (read_throws_when_alloc_fails o r fuel Ha) as (what & Hw).
      congruence.
Qed.

(** X14.  When [main] returns, its exit code is 0 or 1.  It is 0 exactly
    when [verify()] was run and returned, whatever it answered: a failed
    verification does not change the exit code.  It is 1 whenever the file
    name is missing, a numeric argument does not parse, the size of the
    file is taken to be 0 (missing or empty file), or the destination
    buffer cannot be allocated (in either mode).  These causes are
    sufficient, not the only ones: every other exception that [main]
    catches gives 1 as well. *)
Theorem main_exit_code (stoul : string -> option Z) hw o vh fuel argv p :
  main stoul hw o vh fuel argv = Returned p ->
  (exit_code p = 0 \/ exit_code p = 1)
  /\ (exit_code p = 0 <-> exists ok, verified p = Some ok)
  /\ (parse_args stoul hw argv = Usage
      \/ parse_args stoul hw argv = BadNumber
      \/ (exists fname t c d,
             parse_args stoul hw argv = Parsed fname t c d
             /\ (getFileSize o fname = 0 \/ os_alloc_fails o = true)) ->
      exit_code p = 1).
Proof.
  intros Hmain.
  exact (main_exit_code_cases stoul hw o vh fuel argv p Hmain).
Qed.

Lemma main_exit_code_witness :
  exists p,
    main sample_stoul 8 flaky_os (fun _ => xdd) 20
         ["reader"%string; "f"%string; "3"%string; "1"%string] = Returned p
    /\ verified p = Some false
    /\ exit_code p = 0.
Proof.
  destruct (main sample_stoul 8 flaky_os (fun _ => xdd) 20
                 ["reader"%string; "f"%string; "3"%string; "1"%string])
    as [p| | | |] eqn:Hm; [| vm_compute in Hm; discriminate ..].
  exists p. split; [reflexivity|].
  destruct (main_exit_code sample_stoul 8 flaky_os (fun _ => xdd) 20 _ p Hm)
    as (_ & Hzero & _).
  assert (Hv : verified p = Some false)
    by (vm_compute in Hm; injection Hm as <-; reflexivity).
  split; [exact Hv|]. apply Hzero. exists false. exact Hv.
Defined.

Lemma parse_args_ranges (stoul : string -> option Z) hw argv fname t c d :
  (forall s v, stoul s = Some v -> in_range v) ->
  in_range hw ->
  parse_args stoul hw argv = Parsed fname t c d ->
  in_range t /\ in_range c.
Proof.
  intros Hstoul Hhw. unfold parse_args.
  destruct argv as [|a0 [|a1 rest]]; try discriminate.
  destruct (nth_error rest 0) as [s0|] eqn:E0.
  - destruct (stoul s0) as [v0|] eqn:S0; [|discriminate].
    destruct (nth_error rest 1) as [s1|].
    + destruct (stoul s1) as [v1|]; [|discriminate]. cbn [option_map].
      destruct (nth_error rest 2) as [s2|].
      * destruct (stoul s2) as [v2|]; [|discriminate]. cbn [option_map].
        intros H. injection H as _ <- <- _.
        split; [exact (Hstoul _ _ S0) | apply wrap_range].
      * intros H. injection H as _ <- <- _.
        split; [exact (Hstoul _ _ S0) | apply wrap_range].
    + destruct (nth_error rest 2) as [s2|].
      * destruct (stoul s2) as [v2|]; [|discriminate]. cbn [option_map].
        intros H. injection H as _ <- <- _.
        split; [exact (Hstoul _ _ S0) | unfold in_range, modulus; lia].
      * intros H. injection H as _ <- <- _.
        split; [exact (Hstoul _ _ S0) | unfold in_range, modulus; lia].
  - destruct (nth_error rest 1) as [s1|].
    + destruct (stoul s1) as [v1|]; [|discriminate]. cbn [option_map].
      destruct (nth_error rest 2) as [s2|].
      * destruct (stoul s2) as [v2|]; [|discriminate]. cbn [option_map].
        intros H. injection H as _ <- <- _.
        split; [exact Hhw | apply wrap_range].
      * intros H. injection H as _ <- <- _.
        split; [exact Hhw | apply wrap_range].
    + destruct (nth_error rest 2) as [s2|].
      * destruct (stoul s2) as [v2|]; [|discriminate]. cbn [option_map].
        intros H. injection H as _ <- <- _.
        split; [exact Hhw | unfold in_range, modulus; lia].
      * intros H. injection H as _ <- <- _.
        split; [exact Hhw | unfold in_range, modulus; lia].
Qed.

(** X15.  On an operating system where nothing fails ([stat], every
    allocation, every [open], the start of every thread) and where every
    [read] delivers all the bytes asked for that the file has, however many
    are asked for, for a file of 1 to 2^63 - 1 bytes that does not change,
    and with a [std::stoul] and a hardware concurrency that yield [size_t]
    values: whenever the arguments parse, for every thread count (0
    included, which [main] replaces) and every chunk size (0 included,
    which [main] replaces; in O_DIRECT mode at most [2^64 - 4096] bytes),
    [main] loads the file, [verify()] passes and the exit code is 0. *)
Theorem main_loads_and_verifies
        (stoul : string -> option Z) hw fname contents heap temp_heap vh
        fuel argv t c d :
  (forall s v, stoul s = Some v -> in_range v) ->
  in_range hw ->
  parse_args stoul hw argv = Parsed fname t c d ->
  (d = true -> coerce_chunk c + 4096 - 1 < modulus) ->
  1 <= zlen contents < half ->
  (Z.to_nat (zlen contents) <= fuel)%nat ->
  exists r',
    main stoul hw (ideal_os fname contents heap temp_heap) vh fuel argv
    = Returned (mkProcess 0 (Some r') (Some true))
    /\ buffer r' = Some contents
    /\ num_threads r' = coerce_threads t.
Proof.
  intros Hstoul Hhw Hparse Hfit Hlen Hfuel.
  destruct (parse_args_ranges stoul hw argv fname t c d Hstoul Hhw Hparse)
    as ((Ht0 & Ht1) & (Hc0 & Hc1)).
  assert (Hthreads : 1 <= coerce_threads t < modulus).
  { unfold coerce_threads. destruct (t =? 0) eqn:E;
      [unfold modulus; lia | apply Z.eqb_neq in E; lia]. }
  assert (Hchunk : 0 < coerce_chunk c < modulus).
  { unfold coerce_chunk. destruct (c =? 0) eqn:E;
      [unfold modulus; lia | apply Z.eqb_neq in E; lia]. }
  destruct (read_ideal fname contents heap temp_heap vh (coerce_threads t)
              (coerce_chunk c) d fuel Hlen Hthreads Hchunk Hfit Hfuel)
    as (r & r' & ws & Hr & Hread & Hbuf & Hv).
  exists r'. unfold main. rewrite Hparse, Hr, Hread, Hv.
  split; [reflexivity|]. split; [exact Hbuf|].
  destruct (read_keeps_configuration _ _ _ _ _ Hread) as (b & ->).
  destruct (constructor_fields _ _ _ _ _ _ Hr) as (_ & Hn & _).
  exact Hn.
Qed.

Lemma sample_stoul_range s v : sample_stoul s = Some v -> in_range v.
Proof.
  unfold sample_stoul.
  destruct (String.eqb s "0"); [intros H; injection H as <-;
                                unfold in_range, modulus; lia|].
  destruct (String.eqb s "1"); [intros H; injection H as <-;
                                unfold in_range, modulus; lia|].
  destruct (String.eqb s "3"); [intros H; injection H as <-;
                                unfold in_range, modulus; lia|].
  discriminate.
Qed.

Lemma main_loads_and_verifies_witness :
  exists r',
    main sample_stoul 8 sample_os (fun _ => xdd) 20 sample_argv
    = Returned (mkProcess 0 (Some r') (Some true))
    /\ buffer r' = Some sample_file
    /\ num_threads r' = 1.
Proof.
  apply (main_loads_and_verifies sample_stoul 8 "f"%string sample_file
           (fun _ => xff) (fun _ _ => xee) (fun _ => xdd) 20%nat sample_argv
           0 1024 false).
  - exact sample_stoul_range.
  - unfold in_range, modulus. lia.
  - reflexivity.
  - intros H. discriminate H.
  - sample_arith.
  - sample_arith.
Defined.

(** ** More threads than bytes *)

Lemma spec_partitions_short_file fsize nthreads :
  1 <= fsize < nthreads ->
  spec_partitions fsize nthreads
  = map (fun k : nat => (Z.of_nat k, 0, 0)) (seq 0 (Z.to_nat nthreads - 1))
    ++ [(nthreads - 1, 0, fsize)].
Proof.
  intros H. unfold spec_partitions.
  replace (Z.to_nat nthreads) with (S (Z.to_nat nthreads - 1)) at 1 by lia.
  rewrite seq_S, map_app. cbn [map Nat.add].
  assert (Hbase : fsize / nthreads = 0) by (apply Z.div_small; lia).
  assert (Hrem : fsize mod nthreads = fsize) by (apply Z.mod_small; lia).
  f_equal.
  - apply map_ext_in. intros k Hk. apply in_seq in Hk.
    unfold spec_partition. rewrite Hbase.
    replace (Z.of_nat k =? nthreads - 1) with false
      by (symmetry; apply Z.eqb_neq; lia).
    rewrite Z.mul_0_r. reflexivity.
  - unfold spec_partition. rewrite Hbase, Hrem.
    replace (Z.of_nat (Z.to_nat nthreads - 1)) with (nthreads - 1) by lia.
    rewrite Z.eqb_refl, Z.mul_0_r, Z.add_0_l. reflexivity.
Qed.

(** X16.  With more threads than the file has bytes, [read()] gives every
    worker but the last an empty section at offset 0, and the last worker
    the whole file. *)
Theorem more_threads_than_bytes fsize nthreads :
  1 <= fsize < nthreads -> nthreads < modulus ->
  partitions fsize nthreads
  = Some (map (fun k : nat => (Z.of_nat k, 0, 0))
              (seq 0 (Z.to_nat nthreads - 1))
          ++ [(nthreads - 1, 0, fsize)]).
Proof.
  intros H Hm.
  rewrite (partitions_spec fsize nthreads) by (unfold modulus in *; lia).
  f_equal. apply spec_partitions_short_file. exact H.
Qed.

Lemma more_threads_than_bytes_witness :
  partitions 2 4 = Some [(0, 0, 0); (1, 0, 0); (2, 0, 0); (3, 0, 2)].
Proof.
  exact (more_threads_than_bytes 2 4 ltac:(lia) ltac:(unfold modulus; lia)).
Defined.

(** ** The requests of the O_DIRECT loop are tight *)

Lemma aligned_request_bounds bs rcs cur rem :
  0 < bs -> in_range cur -> 0 <= rem -> 0 <= rcs ->
  rem + bs < modulus -> rcs + bs <= modulus ->
  let ao := aligned_offset_of bs cur in
  let oib := sub cur ao in
  let need := Z.min rcs (rem + oib) in
  let btr := bytes_to_read_of bs rcs oib rem in
  (bs | ao) /\ ao <= cur < ao + bs
  /\ oib = cur mod bs
  /\ (bs | btr) /\ need <= btr < need + bs.
Proof.
  intros Hbs Hcur Hrem Hrcs Hfit Hfit2 ao oib need btr.
  destruct (round_down_exact cur bs Hbs Hcur) as [Hao Haole].
  pose proof (Z.mod_pos_bound cur bs Hbs) as Hmod.
  pose proof (Z.div_mod cur bs ltac:(lia)) as Hdm.
  assert (Haov : ao = cur / bs * bs) by exact Hao.
  assert (Hoib : oib = cur mod bs).
  { unfold oib. rewrite Haov.
    rewrite sub_small by (unfold in_range in *; lia). lia. }
  split; [rewrite Haov; exists (cur / bs); reflexivity|].
  split; [lia|]. split; [exact Hoib|].
  split; [apply bytes_to_read_divide; exact Hbs|].
  unfold btr, bytes_to_read_of.
  rewrite (add_small rem oib) by (unfold in_range; lia).
  fold need.
  destruct (round_up_exact need bs Hbs ltac:(unfold need; lia)
              ltac:(unfold need; lia)) as (_ & Hup & _).
  exact Hup.
Qed.

(** X17.  Every request of the O_DIRECT loop is tight: the [lseek] goes to
    the last multiple of [block_size] at or below the current offset, less
    than one block before it, and the [read] asks for the bytes needed
    (what is left of the section plus the offset into the block, or
    [read_chunk_size] if that is less) rounded up to a multiple of
    [block_size], so for less than one block more than needed. *)
Theorem aligned_request_is_tight bs rcs cur rem :
  0 < bs -> in_range cur -> 0 <= rem -> 0 <= rcs ->
  rem + bs < modulus -> rcs + bs <= modulus ->
  let ao := aligned_offset_of bs cur in
  let oib := sub cur ao in
  let need := Z.min rcs (rem + oib) in
  let btr := bytes_to_read_of bs rcs oib rem in
  (bs | ao) /\ ao <= cur < ao + bs
  /\ oib = cur mod bs
  /\ (bs | btr) /\ need <= btr < need + bs.
Proof.
  intros Hbs Hcur Hrem Hrcs Hfit Hfit2.
  exact (aligned_request_bounds bs rcs cur rem Hbs Hcur Hrem Hrcs Hfit Hfit2).
Qed.

Lemma aligned_request_is_tight_witness :
  let ao := aligned_offset_of 4096 10000 in
  let oib := sub 10000 ao in
  let need := Z.min 1048576 (5000 + oib) in
  let btr := bytes_to_read_of 4096 1048576 oib 5000 in
  (4096 | ao) /\ ao <= 10000 < ao + 4096
  /\ oib = 10000 mod 4096
  /\ (4096 | btr) /\ need <= btr < need + 4096.
Proof.
  apply (aligned_request_is_tight 4096 1048576 10000 5000).
  - lia.
  - unfold in_range, modulus. lia.
  - lia.
  - lia.
  - unfold modulus. lia.
  - unfold modulus. lia.
Defined.

(** ** The chunk count of the completion line *)

Lemma count_reads_app t1 t2 :
  count_reads (t1 ++ t2) = count_reads t1 + count_reads t2.
Proof.
  unfold count_reads. rewrite filter_app, length_app. lia.
Qed.

Lemma count_reads_nonneg t : 0 <= count_reads t.
Proof. unfold count_reads. lia. Qed.

Lemma ceil_div_unique k size rcs :
  0 < rcs -> 0 <= k -> 0 <= size ->
  size <= k * rcs -> (0 < k -> (k - 1) * rcs < size) ->
  (size + rcs - 1) / rcs = k.
Proof.
  intros Hrcs Hk Hsize Hle Hgt.
  destruct (Z.eq_dec k 0) as [->|Hk0].
  - assert (size = 0) by lia. subst size. apply Z.div_small. lia.
  - symmetry. apply (Z.div_unique _ _ _ (size + rcs - 1 - k * rcs)).
    + specialize (Hgt ltac:(lia)). left. nia.
    + lia.
Qed.

Section ChunkCount.

Variable contents : list byte.
Variables rcs start size : Z.
Variable buf0 : list byte.

Hypothesis Hrcs : 0 < rcs.
Hypothesis Hstart : 0 <= start.
Hypothesis Hin : start + size <= zlen contents.
Hypothesis Hfile : zlen contents < modulus.
Hypothesis Hbuf : start + size <= zlen buf0.

Let pread := fun _ : nat => ideal_pread contents.

Lemma buffered_step_counts s :
  chunk_count_inv contents start size buf0 rcs s -> cs_done s < size ->
  exists s',
    buffered_step pread rcs size s = Next s'
    /\ chunk_count_inv contents start size buf0 rcs s'
    /\ cs_done s < cs_done s'.
Proof.
  intros (Hinv & Hmin & Hprev) Hlt.
  pose proof (ideal_inv_zlen contents start size buf0 Hstart Hin Hbuf _ s Hinv)
    as Hblen.
  pose proof Hinv as (_ & Hp & Ho & Hb).
  pose proof (count_reads_nonneg (cs_trace s)) as Hk.
  set (k := count_reads (cs_trace s)) in *.
  set (p := cs_done s) in *.
  assert (Hpk : p = k * rcs) by lia.
  unfold buffered_step. fold p. rewrite Ho.
  rewrite (sub_small size p) by (unfold in_range; lia).
  set (c := Z.min rcs (size - p)).
  assert (Hc : 1 <= c <= size - p) by (unfold c; lia).
  unfold pread, ideal_pread.
  set (data := slice (start + p) c contents).
  assert (Hn : zlen data = c) by (unfold data; apply zlen_slice; lia).
  rewrite Hn.
  replace (zlen (cs_buffer s) <? start + p + c) with false
    by (symmetry; apply Z.ltb_ge; lia).
  replace ((c <? to_signed c) && (c >? 0)) with false
    by (symmetry; apply andb_false_iff; left; apply Z.ltb_ge;
        apply to_signed_le).
  replace (c =? 0) with false by (symmetry; apply Z.eqb_neq; lia).
  unfold of_signed. rewrite (wrap_small c) by (unfold in_range; lia).
  rewrite (add_small p c) by (unfold in_range; lia).
  rewrite (add_small (start + p) c) by (unfold in_range; lia).
  eexists. split; [reflexivity|]. split; [|cbn [cs_done]; lia].
  unfold chunk_count_inv. cbn [cs_done cs_trace].
  rewrite count_reads_app. fold k.
  change (count_reads [EvLseek (start + p); EvRead c; EvStore (start + p) c])
    with 1.
  split; [|split].
  - apply (ideal_inv_extend contents start size buf0 Hstart Hin Hbuf
             p c s _ Hinv); try lia; reflexivity.
  - unfold c. nia.
  - intros _. nia.
Qed.

Lemma buffered_loop_counts fuel : forall s,
  chunk_count_inv contents start size buf0 rcs s ->
  (Z.to_nat (size - cs_done s) <= fuel)%nat ->
  exists s',
    buffered_loop pread rcs size fuel s = (Completed, s')
    /\ chunk_count_inv contents start size buf0 rcs s'
    /\ size <= cs_done s'.
Proof.
  induction fuel as [|fuel IH]; intros s Hinv Hfuel; cbn [buffered_loop].
  - destruct (cs_done s <? size) eqn:E.
    + apply Z.ltb_lt in E. lia.
    + apply Z.ltb_ge in E. exists s. auto.
  - destruct (cs_done s <? size) eqn:E.
    + apply Z.ltb_lt in E.
      destruct (buffered_step_counts s Hinv E) as (s' & -> & Hinv' & Hlt).
      apply IH; [exact Hinv' | lia].
    + apply Z.ltb_ge in E. exists s. auto.
Qed.

End ChunkCount.

Lemma readChunk_chunk_count fname contents heap temp_heap r fuel
      buf tid start size :
  use_odirect r = false ->
  0 < read_chunk_size r ->
  0 <= start -> 0 <= size ->
  start + size <= zlen contents -> zlen contents < modulus ->
  start + size <= zlen buf ->
  size + read_chunk_size r <= modulus ->
  (Z.to_nat size <= fuel)%nat ->
  let w := readChunk (ideal_os fname contents heap temp_heap) r fuel
                     buf tid start size in
  chunks_printed r (w_completed w) = Some (count_reads (w_trace w))
  /\ w_completed w = size.
Proof.
  intros Hd Hrcs Hstart Hsize Hin Hfile Hbuf Hfit Hfuel.
  unfold readChunk. cbn [ideal_os os_open_fails os_pread]. rewrite Hd.
  destruct (buffered_loop_counts contents (read_chunk_size r) start size buf
              Hrcs Hstart Hin Hfile Hbuf fuel (mkChunk 0 start buf [] O []))
    as (s' & Hloop & (Hinv & Hmin & Hprev) & Hdone).
  - split; [apply ideal_inv_init; assumption|].
    cbn. split; [lia|]. intros H. lia.
  - cbn. lia.
  - rewrite Hloop. cbn [w_completed w_trace].
    pose proof Hinv as (_ & Hp & _).
    assert (Hsz : cs_done s' = size) by lia.
    split; [|exact Hsz].
    unfold chunks_printed.
    replace (read_chunk_size r =? 0) with false
      by (symmetry; apply Z.eqb_neq; lia).
    f_equal. rewrite Hsz, sub_add_one.
    rewrite wrap_small by (unfold in_range; lia).
    pose proof (count_reads_nonneg (cs_trace s')) as Hk.
    apply ceil_div_unique; lia.
Qed.

(** X18.  Regular mode with a positive [read_chunk_size], a section with
    [section_size + read_chunk_size <= 2^64] (the sum of the completion
    line does not wrap) that lies inside the file, and an operating system
    that serves the file, which does not change, with full reads: the chunk
    count that the completion line of the worker prints,
    [(bytes_completed + read_chunk_size - 1) / read_chunk_size], is the
    number of [read] calls the worker has made, and [bytes_completed] is
    [section_size]. *)
Theorem completion_line_counts_the_reads
        fname contents heap temp_heap r fuel buf tid start size :
  use_odirect r = false ->
  0 < read_chunk_size r ->
  0 <= start -> 0 <= size ->
  start + size <= zlen contents -> zlen contents < modulus ->
  start + size <= zlen buf ->
  size + read_chunk_size r <= modulus ->
  (Z.to_nat size <= fuel)%nat ->
  let w := readChunk (ideal_os fname contents heap temp_heap) r fuel
                     buf tid start size in
  chunks_printed r (w_completed w) = Some (count_reads (w_trace w))
  /\ w_completed w = size.
Proof.
  intros Hd Hrcs Hstart Hsize Hin Hfile Hbuf Hfit Hfuel.
  exact (readChunk_chunk_count fname contents heap temp_heap r fuel buf tid
           start size Hd Hrcs Hstart Hsize Hin Hfile Hbuf Hfit Hfuel).
Qed.

Lemma completion_line_counts_the_reads_witness :
  let w := readChunk sample_os sample_reader 20 (zeros 11) 2 1 10 in
  chunks_printed sample_reader (w_completed w) = Some (count_reads (w_trace w))
  /\ w_completed w = 10.
Proof.
  apply (completion_line_counts_the_reads "f"%string sample_file
           (fun _ => xff) (fun _ _ => xee) sample_reader 20 (zeros 11) 2 1 10).
  - reflexivity.
  - cbn. lia.
  - lia.
  - lia.
  - sample_arith.
  - sample_arith.
  - sample_arith.
  - unfold sample_reader. sample_arith.
  - cbn. lia.
Defined.

(** ** A read that ends inside the bytes before the section *)

Lemma short_first_read_aux o r fuel buf tid start size data :
  use_odirect r = true ->
  os_open_fails o tid = false ->
  os_temp_alloc_fails o tid = false ->
  0 < block_size r ->
  0 <= read_chunk_size r ->
  read_chunk_size r + block_size r <= half ->
  in_range start -> 0 < size -> size + block_size r < modulus ->
  let ao := aligned_offset_of (block_size r) start in
  let oib := sub start ao in
  let btr := bytes_to_read_of (block_size r) (read_chunk_size r) oib size in
  let temp :=
    splice (uninit (os_temp_heap o tid) (read_chunk_size r)) 0 data in
  os_pread o tid 0%nat ao btr = ReadBytes data ->
  zlen data < oib ->
  zlen data <= read_chunk_size r ->
  let w := readChunk o r (S fuel) buf tid start size in
  (read_chunk_size r < oib + size \/ zlen buf < start + size ->
   w_exit w = Crashed)
  /\ (oib + size <= read_chunk_size r -> start + size <= zlen buf ->
      w_exit w = Stopped ShortRead
      /\ w_completed w = size
      /\ w_trace w = [EvLseek ao; EvRead btr; EvStore start size]
      /\ w_buffer w = splice buf start (slice oib size temp)).
Proof.
  intros Hd Hopen Htemp Hbs Hrcs Hfit2 Hstart Hsize Hfit ao oib btr temp
         Hread Hshort Hroom w.
  destruct (aligned_request_bounds (block_size r) (read_chunk_size r)
              start size Hbs Hstart ltac:(lia) ltac:(lia) Hfit
              ltac:(pose proof half_lt_modulus; lia))
    as (_ & Hao & Hoib & _ & Hbtr).
  fold ao in Hao, Hoib, Hbtr. fold oib in Hoib, Hbtr. fold btr in Hbtr.
  pose proof (Z.mod_pos_bound start (block_size r) Hbs) as Hmod.
  pose proof (zlen_nonneg data) as Hn.
  assert (Htlen : zlen (uninit (os_temp_heap o tid) (read_chunk_size r))
                  = read_chunk_size r) by (apply zlen_uninit; lia).
  assert (Htlen' : zlen temp = read_chunk_size r).
  { unfold temp. rewrite zlen_splice; [exact Htlen | lia | lia]. }
  assert (Hcopy : bytes_to_copy_of (zlen data) oib size = size).
  { unfold bytes_to_copy_of, of_signed.
    rewrite (wrap_small (zlen data)) by (unfold in_range; lia).
    unfold sub, wrap.
    replace (zlen data - oib) with (zlen data - oib + modulus + (-1) * modulus)
      by lia.
    rewrite Z.mod_add by (unfold modulus; lia).
    rewrite Z.mod_small by lia. lia. }
  assert (Hrem : sub size 0 = size)
    by (rewrite sub_small; unfold in_range; lia).
  unfold w, readChunk. rewrite Hopen, Hd, Htemp.
  cbn [aligned_loop cs_done].
  replace (0 <? size) with true by (symmetry; apply Z.ltb_lt; lia).
  unfold aligned_step. cbn [cs_done cs_offset cs_calls cs_temp cs_buffer cs_trace].
  replace (block_size r =? 0) with false by (symmetry; apply Z.eqb_neq; lia).
  rewrite Hrem. fold ao. fold oib. fold btr. rewrite Hread.
  replace (zlen (uninit (os_temp_heap o tid) (read_chunk_size r)) <? zlen data)
    with false by (symmetry; apply Z.ltb_ge; lia).
  fold temp. rewrite Hcopy, Htlen'.
  split.
  - intros Hover.
    replace ((read_chunk_size r <? oib + size) || (zlen buf <? start + size))
      with true; [reflexivity|].
    symmetry. apply orb_true_iff.
    destruct Hover; [left | right]; apply Z.ltb_lt; lia.
  - intros Hin Hbuf.
    replace ((read_chunk_size r <? oib + size) || (zlen buf <? start + size))
      with false
      by (symmetry; apply orb_false_iff; split; apply Z.ltb_ge; lia).
    assert (Hbtrh : 0 <= btr < half).
    { lia. }
    rewrite (to_signed_small btr Hbtrh).
    replace (zlen data <? btr) with true by (symmetry; apply Z.ltb_lt; lia).
    cbn [w_exit w_completed w_trace w_buffer cs_done cs_trace cs_buffer app].
    rewrite completion_line_nonzero by lia.
    rewrite (add_small 0 size) by (unfold in_range; lia).
    repeat split; reflexivity.
Qed.

(** X19.  O_DIRECT mode, the first [read] of a worker whose section starts
    [offset_in_block] bytes into a block, when that [read] delivers fewer
    than [offset_in_block] bytes.  Line 90 subtracts in [size_t], so the
    copy count is the whole section.  If the section and the bytes before it
    do not fit the scratch buffer (or the section does not fit the
    destination), [memcpy] leaves the allocation; otherwise the worker
    stores the section from scratch bytes that the [read] did not deliver,
    reports the section completed and stops as after a short read. *)
Theorem short_first_read_completes_or_overruns
        o r fuel buf tid start size data :
  use_odirect r = true ->
  os_open_fails o tid = false ->
  os_temp_alloc_fails o tid = false ->
  0 < block_size r ->
  0 <= read_chunk_size r ->
  read_chunk_size r + block_size r <= half ->
  in_range start -> 0 < size -> size + block_size r < modulus ->
  let ao := aligned_offset_of (block_size r) start in
  let oib := sub start ao in
  let btr := bytes_to_read_of (block_size r) (read_chunk_size r) oib size in
  let temp :=
    splice (uninit (os_temp_heap o tid) (read_chunk_size r)) 0 data in
  os_pread o tid 0%nat ao btr = ReadBytes data ->
  zlen data < oib ->
  zlen data <= read_chunk_size r ->
  let w := readChunk o r (S fuel) buf tid start size in
  (read_chunk_size r < oib + size \/ zlen buf < start + size ->
   w_exit w = Crashed)
  /\ (oib + size <= read_chunk_size r -> start + size <= zlen buf ->
      w_exit w = Stopped ShortRead
      /\ w_completed w = size
      /\ w_trace w = [EvLseek ao; EvRead btr; EvStore start size]
      /\ w_buffer w = splice buf start (slice oib size temp)).
Proof.
  intros Hd Hopen Htemp Hbs Hrcs Hfit2 Hstart Hsize Hfit ao oib btr temp
         Hread Hshort Hroom.
  exact (short_first_read_aux o r fuel buf tid start size data Hd Hopen Htemp
           Hbs Hrcs Hfit2 Hstart Hsize Hfit Hread Hshort Hroom).
Qed.

Lemma short_first_read_completes_or_overruns_witness :
  w_exit (readChunk short_os short_reader 5 (zeros 8200) 1 4100 4100)
  = Crashed
  /\ w_completed (readChunk short_os short_reader 5 (zeros 8200) 1 4100 10)
     = 10.
Proof.
  split.
  - apply (short_first_read_completes_or_overruns short_os short_reader 4
             (zeros 8200) 1 4100 4100 [x01; x02]);
      try reflexivity; cbn; unfold in_range, half, modulus; lia.
  - apply (short_first_read_completes_or_overruns short_os short_reader 4
             (zeros 8200) 1 4100 10 [x01; x02]);
      try reflexivity; try (cbn; unfold in_range, half, modulus; lia).
    sample_arith.
Defined.

(** ** Regular mode: [read()] returns *)

Lemma buffered_loop_safe pread rcs size (Inv : chunk_state -> Prop) :
  (forall s, Inv s -> cs_done s < size ->
             match buffered_step pread rcs size s with
             | Next s' => Inv s'
             | Break _ _ => True
             | Crash => False
             end) ->
  forall fuel s, Inv s -> fst (buffered_loop pread rcs size fuel s) <> Crashed.
Proof.
  intros Hstep fuel. induction fuel as [|fuel IH]; intros s Hs;
    cbn [buffered_loop].
  - destruct (cs_done s <? size); discriminate.
  - destruct (cs_done s <? size) eqn:E; [|discriminate].
    apply Z.ltb_lt in E. specialize (Hstep s Hs E).
    destruct (buffered_step pread rcs size s) as [s'|why s'|].
    + apply IH. exact Hstep.
    + discriminate.
    + contradiction.
Qed.

Lemma buffered_step_safe pread rcs start size buf0 s :
  0 <= rcs -> pread_sane pread ->
  0 <= start -> start + size < modulus -> start + size <= zlen buf0 ->
  buffered_safe_inv start size buf0 s -> cs_done s < size ->
  match buffered_step pread rcs size s with
  | Next s' => buffered_safe_inv start size buf0 s'
  | Break _ _ => True
  | Crash => False
  end.
Proof.
  intros Hrcs Hsane Hstart Hfit Hbuf (Hsec & Hfr) Hlt.
  pose proof (buffered_step_section pread start size Hstart Hfit rcs s
                Hrcs Hsane Hsec Hlt) as H1.
  pose proof (buffered_step_frame pread rcs size buf0 s Hfr) as H2.
  destruct (buffered_step pread rcs size s) as [s'|why s'|] eqn:E;
    [split; assumption | exact I |].
  destruct Hsec as (Hd & Ho & _). destruct Hfr as (_ & Hl & _).
  unfold buffered_step in E.
  rewrite (sub_small size (cs_done s)) in E by (unfold in_range; lia).
  destruct (pread (cs_calls s) (cs_offset s)
                  (Z.min rcs (size - cs_done s))) as [| |data] eqn:Hread;
    try discriminate E.
  apply Hsane in Hread; [|lia].
  replace (zlen (cs_buffer s) <? cs_offset s + zlen data) with false in E
    by (symmetry; apply Z.ltb_ge; lia).
  destruct ((zlen data <? to_signed (Z.min rcs (size - cs_done s)))
            && (zlen data >? 0)); [discriminate E|].
  destruct (zlen data =? 0); discriminate E.
Qed.

Lemma readChunk_regular_safe o r fuel buf tid start size :
  use_odirect r = false ->
  0 < read_chunk_size r ->
  pread_sane (os_pread o tid) ->
  0 <= start -> 0 <= size ->
  start + size < modulus -> start + size <= zlen buf ->
  w_exit (readChunk o r fuel buf tid start size) <> Crashed.
Proof.
  intros Hd Hrcs Hsane Hstart Hsize Hfit Hbuf. unfold readChunk. rewrite Hd.
  destruct (os_open_fails o tid); [discriminate|].
  pose proof (buffered_loop_safe (os_pread o tid) (read_chunk_size r) size
                (buffered_safe_inv start size buf)
                (fun s Hi Hlt =>
                   buffered_step_safe (os_pread o tid) (read_chunk_size r)
                     start size buf s ltac:(lia) Hsane Hstart Hfit Hbuf
                     Hi Hlt)
                fuel (mkChunk 0 start buf [] O [])) as Hsafe.
  destruct (buffered_loop _ _ _ _ _) as [e s].
  cbn [w_exit]. rewrite completion_line_nonzero by lia. apply Hsafe.
  split; [|apply frame_inv_init; exact Hstart].
  split; [cbn; lia|]. split; [cbn; lia|]. constructor.
Qed.

Lemma read_threads_regular_return o r fuel ps : forall buf,
  use_odirect r = false ->
  0 < read_chunk_size r < half ->
  (forall tid, pread_sane (os_pread o tid)) ->
  zlen buf < half ->
  Forall (in_file (zlen buf)) ps ->
  (Z.to_nat (zlen buf) <= fuel)%nat ->
  exists ws final,
    read_threads o r fuel ps buf = Returned (ws, final)
    /\ length ws = length ps /\ zlen final = zlen buf.
Proof.
  induction ps as [|p ps IH]; intros buf Hd Hrcs Hsane Hbuf Hps Hfuel.
  - exists [], buf. repeat split.
  - inversion Hps as [|p' ps' (Hs & Hl & Hin) Hps']; subst.
    cbn [read_threads].
    pose proof half_lt_modulus as Hhm.
    assert (Hcfg : chunk_config_ok r).
    { split; [lia|]. rewrite Hd. discriminate. }
    pose proof (readChunk_ends o r fuel buf (part_id p) (part_start p)
                  (part_len p) Hcfg ltac:(lia) Hs ltac:(lia) ltac:(lia) Hbuf
                  ltac:(lia)) as Hends.
    pose proof (readChunk_regular_safe o r fuel buf (part_id p) (part_start p)
                  (part_len p) Hd ltac:(lia) (Hsane (part_id p)) Hs Hl
                  ltac:(lia) Hin) as Hsafe.
    destruct (readChunk_frame o r fuel buf (part_id p) (part_start p)
                              (part_len p) Hs) as (Hlen & _).
    set (w := readChunk o r fuel buf (part_id p) (part_start p) (part_len p))
      in *.
    destruct (IH (w_buffer w) Hd Hrcs Hsane) as (ws & final & Hrest & Hn & Hz);
      rewrite ?Hlen; try assumption.
    exists (w :: ws), final.
    split; [|split; [cbn [length]; lia | lia]].
    destruct (w_exit w); try contradiction; rewrite Hrest; reflexivity.
Qed.

Lemma read_regular_returns o r fuel :
  use_odirect r = false ->
  0 < read_chunk_size r < half ->
  os_alloc_fails o = false ->
  (forall i, os_memset_thread_fails o i = false) ->
  (forall i, os_thread_fails o i = false) ->
  (forall tid, pread_sane (os_pread o tid)) ->
  1 <= file_size r < half ->
  1 <= num_threads r < modulus ->
  (Z.to_nat (file_size r) <= fuel)%nat ->
  exists ws final,
    read o r fuel = Returned (set_buffer r (Some final), ws)
    /\ length ws = Z.to_nat (num_threads r)
    /\ zlen final = file_size r.
Proof.
  intros Hd Hrcs Halloc Hms Hts Hsane Hf Ht Hfuel.
  pose proof half_lt_modulus as Hhm.
  rewrite (read_started o r fuel Hms Hts).
  unfold read_phases, allocate. rewrite Halloc. cbn [bind].
  rewrite zero_fill_zeroes by (rewrite ?zlen_uninit; lia).
  cbn [bind]. unfold read_phase.
  destruct (partitions_shape (file_size r) (num_threads r) ltac:(lia) Ht)
    as (-> & Hcont & Hsum).
  assert (Hz : zlen (zeros (file_size r)) = file_size r)
    by (apply zlen_zeros; lia).
  pose proof (read_threads_regular_return o r fuel
                (spec_partitions (file_size r) (num_threads r))
                (zeros (file_size r)) Hd Hrcs Hsane) as Hret.
  rewrite Hz in Hret.
  destruct (Hret ltac:(lia)
                 (contiguous_in_file _ 0 (file_size r) ltac:(lia) Hcont
                    ltac:(lia)) Hfuel)
    as (ws & final & Hrun & Hn & Hlen).
  exists ws, final. rewrite Hrun. cbn [bind fst snd].
  split; [reflexivity|]. split; [|exact Hlen].
  rewrite Hn. unfold spec_partitions. rewrite length_map, length_seq.
  reflexivity.
Qed.

(** X20.  Regular mode with a positive chunk size below 2^63, a file below
    2^63 bytes and at least one thread.  When the destination buffer is
    allocated and every thread is started, [read()] returns on every
    operating system whose [read] never delivers more than it was asked
    for, however its seeks, reads and opens fail or fall short: no worker
    stores outside the buffer, none divides by zero in its completion line,
    none loops for ever; the buffer has [file_size] bytes and there is one
    worker per thread. *)
Theorem regular_read_returns o r fuel :
  use_odirect r = false ->
  0 < read_chunk_size r < half ->
  os_alloc_fails o = false ->
  (forall i, os_memset_thread_fails o i = false) ->
  (forall i, os_thread_fails o i = false) ->
  (forall tid, pread_sane (os_pread o tid)) ->
  1 <= file_size r < half ->
  1 <= num_threads r < modulus ->
  (Z.to_nat (file_size r) <= fuel)%nat ->
  exists ws final,
    read o r fuel = Returned (set_buffer r (Some final), ws)
    /\ length ws = Z.to_nat (num_threads r)
    /\ zlen final = file_size r.
Proof.
  intros Hd Hrcs Halloc Hms Hts Hsane Hf Ht Hfuel.
  exact (read_regular_returns o r fuel Hd Hrcs Halloc Hms Hts Hsane Hf Ht
           Hfuel).
Qed.

Lemma regular_read_returns_witness :
  exists ws final,
    read flaky_os sample_reader 20
    = Returned (set_buffer sample_reader (Some final), ws)
    /\ length ws = Z.to_nat (num_threads sample_reader)
    /\ zlen final = file_size sample_reader.
Proof.
  apply (regular_read_returns flaky_os sample_reader 20).
  - reflexivity.
  - unfold half. cbn. lia.
  - reflexivity.
  - intros i. reflexivity.
  - intros i. reflexivity.
  - intros tid. apply (ideal_pread_sane sample_file).
  - unfold half. cbn. lia.
  - unfold modulus. cbn. lia.
  - cbn. lia.
Defined.

(** ** The hex dump *)

Lemma undump_print_hex b s :
  undump (print_hex b ++ s) = b :: undump s.
Proof. destruct b; reflexivity. Qed.

Lemma undump_newline s : undump (newline ++ s) = undump s.
Proof. reflexivity. Qed.

Lemma undump_dump_from bs : forall i, undump (dump_from i bs) = bs.
Proof.
  induction bs as [|b bs IH]; intros i; cbn [dump_from]; [reflexivity|].
  rewrite undump_print_hex. f_equal.
  destruct ((i + 1) mod 16 =? 0).
  - rewrite undump_newline. apply IH.
  - apply IH.
Qed.

Lemma append_cancel_l (s x y : string) :
  (s ++ x = s ++ y -> x = y)%string.
Proof.
  induction s as [|c s IH]; cbn [append]; intros H; [exact H|].
  injection H as H. apply IH. exact H.
Qed.

Lemma hex_dump_injective buf1 buf2 fsize :
  fsize <= zlen buf1 -> fsize <= zlen buf2 ->
  let n := Z.to_nat (Z.min 64 fsize) in
  exists out1 out2,
    hex_dump buf1 fsize = Some out1
    /\ hex_dump buf2 fsize = Some out2
    /\ (out1 = out2 <-> firstn n buf1 = firstn n buf2).
Proof.
  intros H1 H2 n. unfold hex_dump. fold n.
  replace (zlen buf1 <? Z.min 64 fsize) with false
    by (symmetry; apply Z.ltb_ge; lia).
  replace (zlen buf2 <? Z.min 64 fsize) with false
    by (symmetry; apply Z.ltb_ge; lia).
  eexists. eexists. split; [reflexivity|]. split; [reflexivity|].
  split.
  - intros H.
    apply append_cancel_l, append_cancel_l, append_cancel_l in H.
    rewrite <- (undump_dump_from (firstn n buf1) 0), H.
    apply undump_dump_from.
  - intros ->. reflexivity.
Qed.

(** X21.  The hex dump at the end of [main], for a buffer that holds at
    least [getFileSize()] bytes: it reads inside the buffer, and two dumps
    are the same text exactly when the first [min(64, file_size)] bytes of
    the two buffers are the same. *)
Theorem hex_dump_shows_the_first_bytes buf1 buf2 fsize :
  fsize <= zlen buf1 -> fsize <= zlen buf2 ->
  let n := Z.to_nat (Z.min 64 fsize) in
  exists out1 out2,
    hex_dump buf1 fsize = Some out1
    /\ hex_dump buf2 fsize = Some out2
    /\ (out1 = out2 <-> firstn n buf1 = firstn n buf2).
Proof.
  intros H1 H2. exact (hex_dump_injective buf1 buf2 fsize H1 H2).
Qed.

Lemma hex_dump_shows_the_first_bytes_witness :
  exists out1 out2,
    hex_dump sample_file 11 = Some out1
    /\ hex_dump (zeros 11) 11 = Some out2
    /\ (out1 = out2 <-> firstn 11 sample_file = firstn 11 (zeros 11)).
Proof.
  apply (hex_dump_shows_the_first_bytes sample_file (zeros 11) 11).
  - sample_arith.
  - sample_arith.
Defined.

(** ** The order of the workers and the way [read()] ends *)

Lemma zlen_splice_same (l1 l2 : list byte) off data :
  zlen l1 = zlen l2 -> zlen (splice l1 off data) = zlen (splice l2 off data).
Proof.
  unfold zlen, splice. intros H.
  rewrite !length_app, !length_firstn, !length_skipn. lia.
Qed.

Lemma aligned_step_same pread bs rcs size s1 s2 :
  same_control s1 s2 ->
  same_step (aligned_step pread bs rcs size s1)
            (aligned_step pread bs rcs size s2).
Proof.
  intros (Hd & Ho & Ht & Hc & Htr & Hl). unfold aligned_step.
  rewrite Hd, Ho, Ht, Hc, Htr, Hl.
  destruct (bs =? 0); [exact I|].
  destruct (pread _ _ _) as [| |data].
  - split; [reflexivity|]. unfold same_control, log. cbn.
    repeat split; congruence.
  - split; [reflexivity|]. unfold same_control, log. cbn.
    repeat split; congruence.
  - destruct (_ <? _); [exact I|].
    destruct (_ || _); [exact I|].
    destruct (_ <? _).
    + split; [reflexivity|]. repeat split. cbn [cs_buffer].
      apply zlen_splice_same. exact Hl.
    + repeat split. cbn [cs_buffer]. apply zlen_splice_same. exact Hl.
Qed.

Lemma buffered_step_same pread rcs size s1 s2 :
  same_control s1 s2 ->
  same_step (buffered_step pread rcs size s1)
            (buffered_step pread rcs size s2).
Proof.
  intros (Hd & Ho & Ht & Hc & Htr & Hl). unfold buffered_step.
  rewrite Hd, Ho, Ht, Hc, Htr, Hl.
  destruct (pread _ _ _) as [| |data].
  - split; [reflexivity|]. unfold same_control, log. cbn.
    repeat split; congruence.
  - split; [reflexivity|]. unfold same_control, log. cbn.
    repeat split; congruence.
  - destruct (_ <? _); [exact I|].
    destruct (_ && _).
    + split; [reflexivity|]. repeat split. cbn [cs_buffer].
      apply zlen_splice_same. exact Hl.
    + destruct (_ =? _).
      * split; [reflexivity|]. repeat split. cbn [cs_buffer].
        apply zlen_splice_same. exact Hl.
      * repeat split. cbn [cs_buffer]. apply zlen_splice_same. exact Hl.
Qed.

Lemma aligned_loop_same pread bs rcs size fuel : forall s1 s2,
  same_control s1 s2 ->
  fst (aligned_loop pread bs rcs size fuel s1)
  = fst (aligned_loop pread bs rcs size fuel s2)
  /\ same_control (snd (aligned_loop pread bs rcs size fuel s1))
                  (snd (aligned_loop pread bs rcs size fuel s2)).
Proof.
  induction fuel as [|fuel IH]; intros s1 s2 Hs; cbn [aligned_loop];
    pose proof Hs as (Hd & _); rewrite Hd;
    destruct (cs_done s2 <? size); try (split; [reflexivity | exact Hs]).
  pose proof (aligned_step_same pread bs rcs size s1 s2 Hs) as Hstep.
  destruct (aligned_step pread bs rcs size s1) as [a|w1 a|];
    destruct (aligned_step pread bs rcs size s2) as [b|w2 b|];
    cbn [same_step] in Hstep; try contradiction.
  - apply IH. exact Hstep.
  - destruct Hstep as (-> & Hab). split; [reflexivity | exact Hab].
  - split; [reflexivity | exact Hs].
Qed.

Lemma buffered_loop_same pread rcs size fuel : forall s1 s2,
  same_control s1 s2 ->
  fst (buffered_loop pread rcs size fuel s1)
  = fst (buffered_loop pread rcs size fuel s2)
  /\ same_control (snd (buffered_loop pread rcs size fuel s1))
                  (snd (buffered_loop pread rcs size fuel s2)).
Proof.
  induction fuel as [|fuel IH]; intros s1 s2 Hs; cbn [buffered_loop];
    pose proof Hs as (Hd & _); rewrite Hd;
    destruct (cs_done s2 <? size); try (split; [reflexivity | exact Hs]).
  pose proof (buffered_step_same pread rcs size s1 s2 Hs) as Hstep.
  destruct (buffered_step pread rcs size s1) as [a|w1 a|];
    destruct (buffered_step pread rcs size s2) as [b|w2 b|];
    cbn [same_step] in Hstep; try contradiction.
  - apply IH. exact Hstep.
  - destruct Hstep as (-> & Hab). split; [reflexivity | exact Hab].
  - split; [reflexivity | exact Hs].
Qed.

(** What a worker does, apart from the bytes it leaves, depends on the
    destination buffer through its length only. *)
Lemma readChunk_same_control o r fuel buf1 buf2 tid start size :
  zlen buf1 = zlen buf2 ->
  let w1 := readChunk o r fuel buf1 tid start size in
  let w2 := readChunk o r fuel buf2 tid start size in
  w_exit w1 = w_exit w2
  /\ w_completed w1 = w_completed w2
  /\ w_trace w1 = w_trace w2.
Proof.
  intros Hl. unfold readChunk.
  destruct (os_open_fails o tid); [repeat split|].
  destruct (use_odirect r).
  - destruct (os_temp_alloc_fails o tid); [repeat split|].
    destruct (aligned_loop_same (os_pread o tid) (block_size r)
                (read_chunk_size r) size fuel
                (mkChunk 0 start buf1
                   (uninit (os_temp_heap o tid) (read_chunk_size r)) O [])
                (mkChunk 0 start buf2
                   (uninit (os_temp_heap o tid) (read_chunk_size r)) O []))
      as (He & Hs); [repeat split; exact Hl|].
    destruct (aligned_loop _ _ _ _ _ (mkChunk 0 start buf1 _ _ _)) as [e1 s1].
    destruct (aligned_loop _ _ _ _ _ (mkChunk 0 start buf2 _ _ _)) as [e2 s2].
    cbn [fst snd] in He, Hs. destruct Hs as (Hd & _ & _ & _ & Htr & _).
    cbn [w_exit w_completed w_trace]. rewrite He, Hd, Htr. repeat split.
  - destruct (buffered_loop_same (os_pread o tid) (read_chunk_size r) size
                fuel (mkChunk 0 start buf1 [] O [])
                (mkChunk 0 start buf2 [] O []))
      as (He & Hs); [repeat split; exact Hl|].
    destruct (buffered_loop _ _ _ _ (mkChunk 0 start buf1 _ _ _)) as [e1 s1].
    destruct (buffered_loop _ _ _ _ (mkChunk 0 start buf2 _ _ _)) as [e2 s2].
    cbn [fst snd] in He, Hs. destruct Hs as (Hd & _ & _ & _ & Htr & _).
    cbn [w_exit w_completed w_trace]. rewrite He, Hd, Htr. repeat split.
Qed.

Lemma joined_cons e es :
  joined (e :: es)
  = match e with
    | Crashed => EndsUndefined
    | Timeout => match joined es with
                 | EndsUndefined => EndsUndefined
                 | _ => NeverEnds
                 end
    | _ => joined es
    end.
Proof.
  unfold joined. cbn [existsb].
  destruct e; cbn [is_crashed is_timeout orb]; try reflexivity.
  destruct (existsb is_crashed es); [reflexivity|].
  destruct (existsb is_timeout es); reflexivity.
Qed.

Lemma read_threads_ending o r fuel ps : forall buf,
  Forall (fun p => 0 <= part_start p) ps ->
  ending_of (read_threads o r fuel ps buf)
  = joined (map (exit_of o r fuel (zlen buf)) ps).
Proof.
  induction ps as [|p ps IH]; intros buf Hps; [reflexivity|].
  inversion Hps as [|p' ps' Hp Hps']; subst.
  cbn [read_threads map]. rewrite joined_cons.
  destruct (readChunk_frame o r fuel buf (part_id p) (part_start p)
                            (part_len p) Hp) as (Hlen & _).
  destruct (readChunk_same_control o r fuel buf (zeros (zlen buf))
              (part_id p) (part_start p) (part_len p)) as (He & _).
  { rewrite zlen_zeros; [reflexivity | apply zlen_nonneg]. }
  unfold exit_of at 1. rewrite <- He.
  set (w := readChunk o r fuel buf (part_id p) (part_start p) (part_len p))
    in *.
  specialize (IH (w_buffer w) Hps'). rewrite Hlen in IH. rewrite <- IH.
  destruct (w_exit w); try reflexivity;
    destruct (read_threads o r fuel ps (w_buffer w)); reflexivity.
Qed.

Lemma existsb_permutation {A} (f : A -> bool) l1 l2 :
  Permutation l1 l2 -> existsb f l1 = existsb f l2.
Proof.
  induction 1 as [|x l1 l2 _ IH|x y l|l1 l2 l3 _ IH1 _ IH2];
    cbn [existsb]; [reflexivity | rewrite IH; reflexivity | | congruence].
  destruct (f x), (f y); reflexivity.
Qed.

Lemma read_threads_ending_any_order o r fuel ps1 ps2 buf :
  Forall (fun p => 0 <= part_start p) ps1 ->
  Permutation ps1 ps2 ->
  ending_of (read_threads o r fuel ps1 buf)
  = ending_of (read_threads o r fuel ps2 buf).
Proof.
  intros Hps Hperm.
  assert (Hps2 : Forall (fun p => 0 <= part_start p) ps2).
  { apply Forall_forall. intros p Hp. rewrite Forall_forall in Hps.
    apply Hps. apply (Permutation_in p (Permutation_sym Hperm) Hp). }
  rewrite (read_threads_ending o r fuel ps1 buf Hps).
  rewrite (read_threads_ending o r fuel ps2 buf Hps2).
  unfold joined.
  rewrite (existsb_permutation is_crashed _ _
             (Permutation_map (exit_of o r fuel (zlen buf)) Hperm)).
  rewrite (existsb_permutation is_timeout _ _
             (Permutation_map (exit_of o r fuel (zlen buf)) Hperm)).
  reflexivity.
Qed.

(** X22.  How the read phase ends is settled by how its workers end, and
    not by the order in which they are composed: it is undefined as soon as
    one worker runs into undefined behaviour, else it waits for ever as
    soon as one worker never leaves its loop, else it returns.  How a
    worker ends does not depend on what the other workers have stored in
    the buffer, so that every order of the workers gives the same ending. *)
Theorem read_ending_any_order o r fuel ps1 ps2 buf :
  Forall (fun p => 0 <= part_start p) ps1 ->
  Permutation ps1 ps2 ->
  ending_of (read_threads o r fuel ps1 buf)
  = joined (map (exit_of o r fuel (zlen buf)) ps1)
  /\ ending_of (read_threads o r fuel ps2 buf)
     = ending_of (read_threads o r fuel ps1 buf).
Proof.
  intros Hps Hperm. split.
  - exact (read_threads_ending o r fuel ps1 buf Hps).
  - symmetry.
    exact (read_threads_ending_any_order o r fuel ps1 ps2 buf Hps Hperm).
Qed.

Lemma read_ending_any_order_witness :
  let r := mkReader "f" 11 None 3 0 4096 true in
  let ps := spec_partitions 11 3 in
  ending_of (read_threads sample_os r 20 ps (zeros 11))
  = joined (map (exit_of sample_os r 20 (zlen (zeros 11))) ps)
  /\ ending_of (read_threads sample_os r 20 (rev ps) (zeros 11))
     = ending_of (read_threads sample_os r 20 ps (zeros 11)).
Proof.
  intros r ps.
  apply (read_ending_any_order sample_os r 20 ps (rev ps) (zeros 11)).
  - unfold ps. repeat (apply Forall_cons; [cbn; lia|]). apply Forall_nil.
  - apply Permutation_rev.
Defined.

(** ** A thread that cannot be started *)

Lemma find_first_in_seq (f : nat -> bool) (k : nat) : forall len start,
  (start <= k < start + len)%nat ->
  f k = true ->
  (forall i, (start <= i < k)%nat -> f i = false) ->
  find f (seq start len) = Some k.
Proof.
  induction len as [|len IH]; intros start Hk Hf Hbefore; [lia|].
  cbn [seq find].
  destruct (Nat.eq_dec start k) as [->|Hne].
  - rewrite Hf. reflexivity.
  - rewrite (Hbefore start) by lia.
    apply IH; [lia | exact Hf |].
    intros i Hi. apply Hbefore. lia.
Qed.

Lemma start_threads_first_failure fails n k :
  0 <= k < n ->
  fails k = true ->
  (forall i, 0 <= i < k -> fails i = false) ->
  start_threads fails n
  = if k =? 0 then Thrown "std::system_error" else Aborted.
Proof.
  intros Hk Hf Hbefore. unfold start_threads.
  rewrite (find_first_in_seq (fun i => fails (Z.of_nat i)) (Z.to_nat k)
             (Z.to_nat n) 0).
  - destruct (Z.to_nat k) as [|j] eqn:E.
    + replace (k =? 0) with true by (symmetry; apply Z.eqb_eq; lia).
      reflexivity.
    + replace (k =? 0) with false by (symmetry; apply Z.eqb_neq; lia).
      reflexivity.
  - lia.
  - rewrite Z2Nat.id by lia. exact Hf.
  - intros i Hi. apply Hbefore. lia.
Qed.

Lemma read_thread_not_started o r fuel k :
  os_alloc_fails o = false ->
  1 <= file_size r < modulus ->
  num_threads r < modulus ->
  0 <= k < num_threads r ->
  (os_memset_thread_fails o k = true ->
   (forall i, 0 <= i < k -> os_memset_thread_fails o i = false) ->
   read o r fuel
   = if k =? 0 then Thrown "std::system_error" else Aborted)
  /\ ((forall i, os_memset_thread_fails o i = false) ->
      os_thread_fails o k = true ->
      (forall i, 0 <= i < k -> os_thread_fails o i = false) ->
      read o r fuel
      = if k =? 0 then Thrown "std::system_error" else Aborted).
Proof.
  intros Halloc Hf Ht Hk. split.
  - intros Hfail Hbefore. unfold read, allocate. rewrite Halloc. cbn [bind].
    rewrite (start_threads_first_failure _ _ k Hk Hfail Hbefore).
    destruct (k =? 0); reflexivity.
  - intros Hms Hfail Hbefore. unfold read, allocate. rewrite Halloc.
    cbn [bind]. rewrite (start_threads_all _ _ Hms). cbn [bind].
    rewrite zero_fill_zeroes by (rewrite ?zlen_uninit; lia).
    cbn [bind].
    rewrite (start_threads_first_failure _ _ k Hk Hfail Hbefore).
    destruct (k =? 0); reflexivity.
Qed.


